(** * image_resize: the size-band search of [ImageResizer.resize_image] and
    the batch loop of [ResizeWorker.run] (src/main.py)

    The Python code is embedded shallowly:
    - Python [float]s are IEEE binary64 numbers, modelled by Rocq's primitive
      [float] (same format, same round-to-nearest-even operations);
    - Python [int]s are [Z];
    - the file system is a finite map from paths to file contents;
    - Pillow (decode, resize, encode) is an interface [PIL] the code is
      parametrised by; every call that may raise returns an [option];
    - the [while True] loop is a step function [loop_body] iterated with
      fuel, and a relation [reaches] between the states it goes through;
    - Qt signals emitted by the worker are collected in a list, in order;
    - [stop()], which runs on another thread, is what the loop reads from
      [self.running] at each index;
    - of the two tabs and the main window, the slots that start a worker,
      show its results or set the band: a widget is the value the code reads
      or writes, what a dialog returns is an argument, the worker that is
      started is a result.

    Not modelled: failures of the operating system on the temporary file the
    code has just written ([getsize], [move], [remove]); the text printed by
    the exception handler; exceptions that are not [Exception]s. *)

From Stdlib Require Import ZArith Floats Ascii String Lia.
From stdpp Require Import gmap strings list pretty.

Open Scope Z_scope.

(** ** Python numbers *)

Module Py.

(** [float(z)]: the binary64 number nearest to the integer [z] (ties to
    even).  Beyond the binary64 range the result is an infinity here, where
    Python raises [OverflowError]; [int_of_float] below raises on it, so
    both abort the enclosing computation. *)
Definition float_of_Z (z : Z) : float :=
  SF2Prim (binary_normalize prec emax z 0 false).

(** The integer part of the finite number [(-1)^s * m * 2^e]. *)
Definition trunc_finite (s : bool) (m : positive) (e : Z) : Z :=
  let a := match e with
           | Zneg p => Z.shiftr (Zpos m) (Zpos p)
           | _ => Z.shiftl (Zpos m) e
           end in
  if s then - a else a.

(** [int(f)]: truncation toward zero; [None] where Python raises
    ([OverflowError] on an infinity, [ValueError] on a NaN). *)
Definition int_of_float (f : float) : option Z :=
  match Prim2SF f with
  | S754_zero _ => Some 0
  | S754_finite s m e => Some (trunc_finite s m e)
  | S754_infinity _ | S754_nan => None
  end.

(** [a / b] on two [int]s (true division); [None] is [ZeroDivisionError].
    Python rounds the exact quotient once; for operands below [2^53], which
    convert exactly, that is the binary64 quotient of the two conversions. *)
Definition truediv (a b : Z) : option float :=
  if b =? 0 then None else Some (float_of_Z a / float_of_Z b)%float.

(** A shifted mantissa that is non-negative and has at most [D] bits. *)
Definition small (D : Z) (mrs : shr_record) : Prop :=
  0 <= shr_m mrs /\ Zdigits2 (shr_m mrs) <= D.

(** Either a zero or a finite number whose exponent is at most [B]. *)
Definition finite_upto (B : Z) (x : spec_float) : Prop :=
  match x with
  | S754_zero _ => True
  | S754_finite _ _ e => e <= B
  | _ => False
  end.

(** The literals of main.py, as the binary64 numbers Python reads them as. *)
Definition f_1_0 : float := 0x1p+0%float.                    (* 1.0 *)
Definition f_0_9 : float := 0x1.ccccccccccccdp-1%float.      (* 0.9 *)
Definition f_0_3 : float := 0x1.3333333333333p-2%float.      (* 0.3 *)

(** [a / 2**k] on an [int] [a], for [0 <= k]: Python rounds the exact
    quotient once to binary64, ties to even; [None] is [OverflowError]
    (the rounded quotient is beyond the binary64 range). *)
Definition truediv_pow2 (a k : Z) : option float :=
  match binary_normalize prec emax a (- k) false with
  | S754_infinity _ | S754_nan => None
  | x => Some (SF2Prim x)
  end.

End Py.

(** ** Rounding to binary64, on integers

    What the operations of [SpecFloat] compute on positive numbers with a
    53-bit mantissa, written with integer division; used to show that the
    percentages of [ResizeWorker.run] do not go down. *)

Module Round.

(** Where [r / d] lies in [[0, 1)]: at 0, or below, at or above one half. *)
Definition loc_of_rem (r d : Z) : SpecFloat.location :=
  if r =? 0 then loc_Exact else loc_Inexact (2 * r ?= d).

(** The integer nearest to [n / d], ties to even. *)
Definition rne (n d : Z) : Z :=
  round_nearest_even (n / d) (loc_of_rem (n mod d) d).

(** A rounded mantissa that has reached [2^53] is [2^52] one exponent up. *)
Definition normz (z e : Z) : Z * Z :=
  if z =? 2 ^ 53 then (2 ^ 52, e + 1) else (z, e).

(** A mantissa of exactly 53 bits. *)
Definition normal (f : Z * Z) : Prop := 2 ^ 52 <= f.1 < 2 ^ 53.

(** The order of the values [m * 2^e] on normal mantissas. *)
Definition fle (f g : Z * Z) : Prop :=
  f.2 < g.2 \/ (f.2 = g.2 /\ f.1 <= g.1).

(** The shifted record holds the quotient [n / d] and where the remainder
    lies. *)
Definition represents (n d : Z) (mrs : shr_record) : Prop :=
  shr_m mrs = n / d /\ loc_of_shr_record mrs = loc_of_rem (n mod d) d.

(** [float(z)] for [0 < z < 2^53], as mantissa and exponent. *)
Definition norm_of_Z (z : Z) : Z * Z :=
  (z * 2 ^ (53 - Zdigits2 z), Zdigits2 z - 53).

(** The quotient of two normal numbers, rounded. *)
Definition div_norm (a b : Z * Z) : Z * Z :=
  let k := if a.1 <? b.1 then 0 else 1 in
  normz (rne (a.1 * 2 ^ 53) (b.1 * 2 ^ k)) (a.2 - b.2 - 53 + k).

(** The product of two normal numbers, rounded. *)
Definition mul_norm (a c : Z * Z) : Z * Z :=
  let k := if a.1 * c.1 <? 2 ^ 105 then 52 else 53 in
  normz (rne (a.1 * c.1) (1 * 2 ^ k)) (a.2 + c.2 + k).

(** The to_SF positive number with this mantissa and exponent. *)
Definition to_SF (f : Z * Z) : spec_float :=
  S754_finite false (Z.to_pos f.1) f.2.

End Round.

(** ** os.path (POSIX flavour) and str.lower *)

Module PosixPath.

(** [s.rfind(c)] for a one-character [c]: index of the last occurrence,
    [-1] when there is none. *)
Fixpoint rfind_from (c : ascii) (s : string) (i : Z) : Z :=
  match s with
  | EmptyString => -1
  | String a s' =>
      let j := rfind_from c s' (i + 1) in
      if 0 <=? j then j else if Ascii.eqb a c then i else -1
  end.

Definition rfind (c : ascii) (s : string) : Z := rfind_from c s 0.

(** The slice [s[i:]] for [0 <= i]. *)
Definition slice_from (i : Z) (s : string) : string :=
  String.substring (Z.to_nat i) (String.length s - Z.to_nat i) s.

(** The slice [s[i:j]] for [0 <= i]. *)
Definition slice (i j : Z) (s : string) : string :=
  String.substring (Z.to_nat i) (Z.to_nat (j - i)) s.

Fixpoint all_dots (s : string) : bool :=
  match s with
  | EmptyString => true
  | String a s' => Ascii.eqb a "."%char && all_dots s'
  end.

(** [os.path.splitext(p)]: the extension starts at the last dot of the last
    path component, unless that component has only dots before it. *)
Definition splitext (p : string) : string * string :=
  let sepIndex := rfind "/"%char p in
  let dotIndex := rfind "."%char p in
  if (sepIndex <? dotIndex) && negb (all_dots (slice (sepIndex + 1) dotIndex p))
  then (slice 0 dotIndex p, slice_from dotIndex p)
  else (p, EmptyString).

(** [os.path.basename(p)] *)
Definition basename (p : string) : string :=
  slice_from (rfind "/"%char p + 1) p.

Definition startswith_sep (s : string) : bool :=
  match s with
  | String a _ => Ascii.eqb a "/"%char
  | EmptyString => false
  end.

Fixpoint endswith_sep (s : string) : bool :=
  match s with
  | EmptyString => false
  | String a EmptyString => Ascii.eqb a "/"%char
  | String _ s' => endswith_sep s'
  end.

(** [os.path.join(a, b)] *)
Definition join (a b : string) : string :=
  if startswith_sep b then b
  else if (String.length a =? 0)%nat || endswith_sep a then a +:+ b
  else a +:+ "/" +:+ b.

Definition lower_ascii (a : ascii) : ascii :=
  let n := nat_of_ascii a in
  if (65 <=? n)%nat && (n <=? 90)%nat then ascii_of_nat (n + 32) else a.

(** [s.lower()] on ASCII letters (the five extensions compared against
    contain no letter that a non-ASCII character lowers to). *)
Fixpoint lower (s : string) : string :=
  match s with
  | EmptyString => EmptyString
  | String a s' => String (lower_ascii a) (lower s')
  end.

(** [os.path.dirname] (posixpath.py) *)

(** [head == sep * len(head)] *)
Fixpoint all_seps (s : string) : bool :=
  match s with
  | EmptyString => true
  | String a s' => Ascii.eqb a "/"%char && all_seps s'
  end.

(** [s.rstrip('/')] *)
Fixpoint rstrip_sep (s : string) : string :=
  match s with
  | EmptyString => EmptyString
  | String a s' =>
      match rstrip_sep s' with
      | EmptyString =>
          if Ascii.eqb a "/"%char then EmptyString else String a EmptyString
      | r => String a r
      end
  end.

(** [os.path.dirname(p)] *)
Definition dirname (p : string) : string :=
  let i := rfind "/"%char p + 1 in
  let head := slice 0 i p in
  if negb (String.length head =? 0)%nat && negb (all_seps head)
  then rstrip_sep head
  else head.

End PosixPath.

(** ** Pillow, as used by main.py *)

(** Resampling filters of [PIL.Image]. *)
Inductive resample : Type := NEAREST | BILINEAR | BICUBIC | LANCZOS.

(** The image library the code runs against.  [data] is what a file holds. *)
Record PIL : Type := {
  image : Type;
  data : Type;
  (** [Image.open] on a file with these contents; [None]: it raises. *)
  decode : data -> option image;
  (** [img.format] ([None] is Python's [None]). *)
  img_format : image -> option string;
  (** [img.size] *)
  img_size : image -> Z * Z;
  (** [img.resize((w, h), filter)]; [None]: it raises. *)
  img_resize : image -> Z * Z -> resample -> option image;
  (** the bytes [img.save(path, format=f, quality=q)] writes; [None]: it
      raises. *)
  encode : image -> string -> Z -> option data;
  (** [os.path.getsize] of a file with these contents. *)
  getsize : data -> N
}.

(** Calls into Pillow, in the order they are made. *)
Inductive pil_call : Type :=
| call_open (path : string)
| call_resize (new_width new_height : Z) (filter : resample)
| call_save (path : string) (format : string) (quality : Z).

(** The world outside the interpreter: the files on disk and the history of
    Pillow calls. *)
Record world (P : PIL) : Type := World {
  fs : gmap string (data P);
  calls : list pil_call
}.
Arguments World {P} _ _.
Arguments fs {P} _.
Arguments calls {P} _.

(** The paths given to [Image.open] among [l], in order. *)
Definition opens (l : list pil_call) : list string :=
  omap (fun c => match c with call_open p => Some p | _ => None end) l.

Section FileSystem.
Context {P : PIL}.

Definition log (c : pil_call) (w : world P) : world P :=
  World (fs w) (calls w ++ [c]).

(** A file written in full at [path]. *)
Definition write_file (path : string) (d : data P) (w : world P) : world P :=
  World (<[path := d]> (fs w)) (calls w).

(** [shutil.move(src, dst)] of a file that exists. *)
Definition move (src dst : string) (w : world P) : world P :=
  match fs w !! src with
  | Some d => World (<[dst := d]> (delete src (fs w))) (calls w)
  | None => w
  end.

(** [if os.path.exists(path): os.remove(path)] *)
Definition remove_if_exists (path : string) (w : world P) : world P :=
  World (delete path (fs w)) (calls w).

End FileSystem.

(** ** ImageResizer.resize_image (main.py, lines 17-101) *)

Module ImageResizer.
Section ResizeImage.
Context (P : PIL).

(** The two variables the loop updates. *)
Record search : Type := Search { quality : Z; scale_factor : float }.

(** How one pass through the loop body ends: at the bottom of the body (the
    loop goes round again), at a [return], or in an exception. *)
Inductive flow : Type :=
| Continue (s : search) (w : world P)
| Return (r : bool * Z) (w : world P)
| Raise (w : world P).

Definition min_quality : Z := 10.

Definition temp_of (output_path : string) : string := output_path +:+ ".temp".

(** Lines 52-57: the buffer that is encoded in this pass. *)
Definition resized_img (img : image P) (width height : Z) (s : search)
    (w : world P) : option (image P) * world P :=
  if (scale_factor s <? Py.f_1_0)%float then
    match Py.int_of_float (Py.float_of_Z width * scale_factor s),
          Py.int_of_float (Py.float_of_Z height * scale_factor s) with
    | Some new_width, Some new_height =>
        (img_resize P img (new_width, new_height) LANCZOS,
         log (call_resize new_width new_height LANCZOS) w)
    | _, _ => (None, w)
    end
  else (Some img, w).

(** Lines 51-64: the buffer is encoded into the temporary file.  [inl]: an
    exception was raised; [inr]: the bytes now in the temporary file. *)
Definition attempt (img : image P) (format : string) (width height : Z)
    (output_path : string) (s : search) (w : world P)
    : world P + data P * world P :=
  match resized_img img width height s w with
  | (None, w1) => inl w1
  | (Some buf, w1) =>
      let temp_output := temp_of output_path in
      let w2 := log (call_save temp_output format (quality s)) w1 in
      match encode P buf format (quality s) with
      | None => inl w2
      | Some d => inr (d, write_file temp_output d w2)
      end
  end.

(** Lines 51-97: one pass through the body of [while True]. *)
Definition loop_body (img : image P) (format : string) (width height : Z)
    (min_size_bytes max_size_bytes : Z) (output_path : string)
    (s : search) (w : world P) : flow :=
  match attempt img format width height output_path s w with
  | inl w' => Raise w'
  | inr (d, w3) =>
      let temp_output := temp_of output_path in
      let file_size := Z.of_N (getsize P d) in
      if (min_size_bytes <=? file_size) && (file_size <=? max_size_bytes) then
        Return (true, file_size) (move temp_output output_path w3)
      else if max_size_bytes <? file_size then
        if min_quality <? quality s then
          Continue (Search (quality s - 5) (scale_factor s))
                   (remove_if_exists temp_output w3)
        else
          let scale' := (scale_factor s * Py.f_0_9)%float in
          if (scale' <? Py.f_0_3)%float then
            Return (false, file_size) (move temp_output output_path w3)
          else
            Continue (Search (quality s) scale')
                     (remove_if_exists temp_output w3)
      else
        if quality s <? 95 then
          Continue (Search (quality s + 5) (scale_factor s))
                   (remove_if_exists temp_output w3)
        else
          Return (true, file_size) (move temp_output output_path w3)
  end.

(** The loop variables and world after some number of passes that all went
    round again. *)
Inductive reaches (img : image P) (format : string) (width height : Z)
    (min_size_bytes max_size_bytes : Z) (output_path : string)
    : search -> world P -> search -> world P -> Prop :=
| reaches_here s w :
    reaches img format width height min_size_bytes max_size_bytes output_path
      s w s w
| reaches_pass s w s1 w1 s2 w2 :
    loop_body img format width height min_size_bytes max_size_bytes
      output_path s w = Continue s1 w1 ->
    reaches img format width height min_size_bytes max_size_bytes output_path
      s1 w1 s2 w2 ->
    reaches img format width height min_size_bytes max_size_bytes output_path
      s w s2 w2.

(** [while True]: [None] when [fuel] passes were not enough to leave it. *)
Fixpoint while_true (fuel : nat) (img : image P) (format : string)
    (width height min_size_bytes max_size_bytes : Z) (output_path : string)
    (s : search) (w : world P) : option flow :=
  match fuel with
  | O => None
  | S fuel' =>
      match loop_body img format width height min_size_bytes max_size_bytes
              output_path s w with
      | Continue s' w' =>
          while_true fuel' img format width height min_size_bytes
            max_size_bytes output_path s' w'
      | r => Some r
      end
  end.

(** Line 39 and line 48. *)
Definition initial : search := Search 90 Py.f_1_0.

(** Lines 34-36: [not img_format] holds of [None] and of the empty string. *)
Definition format_or_jpeg (f : option string) : string :=
  match f with
  | Some (String a f') => String a f'
  | Some EmptyString | None => "JPEG"
  end.

(** The whole function.  An exception anywhere in the [try] block ends in
    the handler of line 99, which returns [(False, 0)]. *)
Definition resize_image (fuel : nat) (input_path output_path : string)
    (target_size_kb : Z * Z) (w : world P) : option ((bool * Z) * world P) :=
  let w0 := log (call_open input_path) w in
  match fs w !! input_path ≫= decode P with
  | None => Some ((false, 0), w0)
  | Some img =>
      let format := format_or_jpeg (img_format P img) in
      let max_size_bytes := snd target_size_kb * 1024 in
      let min_size_bytes := fst target_size_kb * 1024 in
      let '(width, height) := img_size P img in
      match while_true fuel img format width height min_size_bytes
              max_size_bytes output_path initial w0 with
      | None | Some (Continue _ _) => None
      | Some (Return r w') => Some (r, w')
      | Some (Raise w') => Some ((false, 0), w')
      end
  end.

(** The world a pass leaves behind. *)
Definition world_of (f : flow) : world P :=
  match f with
  | Continue _ w | Return _ w | Raise w => w
  end.

(** The calls a pass that started in [w] added to the history. *)
Definition calls_since (w : world P) (f : flow) : list pil_call :=
  drop (length (calls w)) (calls (world_of f)).

End ResizeImage.

Arguments Continue {P} _ _.
Arguments Return {P} _ _.
Arguments Raise {P} _.
Arguments world_of {P} _.
Arguments calls_since {P} _ _.

(** The value of [scale_factor] after [k] executions of line 78. *)
Fixpoint scale_level (k : nat) : float :=
  match k with
  | O => Py.f_1_0
  | S k' => (scale_level k' * Py.f_0_9)%float
  end.

(** The values the loop variables can take: quality a multiple of 5 between
    10 and 95, scale one of the first twelve levels. *)
Definition within_limits (s : search) : Prop :=
  (10 <= quality s <= 95 /\ quality s mod 5 = 0) /\
  exists k, (k <= 11)%nat /\ scale_factor s = scale_level k.

End ImageResizer.

(** ** ResizeWorker.run (main.py, lines 103-141) *)

Module ResizeWorker.
Section Run.
Context (P : PIL).

(** One entry of [results]: [(file_path, output_path, success, file_size)]. *)
Definition row : Type := string * string * bool * Z.

(** The three signals of the worker, with their arguments. *)
Inductive signal : Type :=
| progress_updated (progress : Z)
| file_processed (file_name : string) (success : bool) (file_size : Z)
| resize_completed (results : list row).

(** The fields set by [__init__]. *)
Record worker : Type := Worker {
  files : list string;
  output_dir : string;
  target_size_kb : Z * Z;
  running : bool
}.

(** What [run] has built up so far. *)
Record state : Type := State {
  self : worker;
  results : list row;
  emitted : list signal;
  outside : world P
}.

(** How [run] ends: it returns, or an exception leaves it. *)
Inductive ending : Type :=
| Finished (st : state)
| Uncaught (st : state).

Definition extensions : list string :=
  [".jpg"; ".jpeg"; ".png"; ".bmp"; ".webp"].

(** Lines 126-127: the file is an image file by its name. *)
Definition supported (file_path : string) : bool :=
  bool_decide
    (PosixPath.lower (snd (PosixPath.splitext file_path)) ∈ extensions).

(** Line 134: [int((i + 1) / len(self.files) * 100)]. *)
Definition progress_of (i : nat) (len_files : nat) : option Z :=
  q ← Py.truediv (Z.of_nat i + 1) (Z.of_nat len_files);
  Py.int_of_float (q * Py.float_of_Z 100).

(** [stop()] runs on another thread.  [stops i] tells whether it has run by
    the time the loop tests [self.running] for index [i]. *)
Definition observe (stops : nat -> bool) (i : nat) (st : state) : state :=
  if stops i
  then State (Worker (files (self st)) (output_dir (self st))
                (target_size_kb (self st)) false)
             (results st) (emitted st) (outside st)
  else st.

(** Lines 118-136: the [for] loop from index [i] on, over the files that
    are left.  [None]: a call of [resize_image] ran out of fuel. *)
Fixpoint for_files (fuel : nat) (stops : nat -> bool) (i : nat)
    (rest : list string) (st : state) : option ending :=
  match rest with
  | [] => Some (Finished st)
  | file_path :: rest' =>
      let st := observe stops i st in
      if negb (running (self st)) then Some (Finished st)
      else
        let file_name := PosixPath.basename file_path in
        let output_path := PosixPath.join (output_dir (self st)) file_name in
        if negb (supported file_path) then
          for_files fuel stops (S i) rest' st
        else
          match ImageResizer.resize_image P fuel file_path output_path
                  (target_size_kb (self st)) (outside st) with
          | None => None
          | Some ((success, file_size), w') =>
              let results' :=
                results st ++ [(file_path, output_path, success, file_size)] in
              match progress_of i (length (files (self st))) with
              | None => Some (Uncaught (State (self st) results' (emitted st) w'))
              | Some progress =>
                  for_files fuel stops (S i) rest'
                    (State (self st) results'
                       (emitted st ++ [progress_updated progress;
                                       file_processed file_name success file_size])
                       w')
              end
          end
  end.

(** The whole method. *)
Definition run (fuel : nat) (stops : nat -> bool) (w : worker)
    (o : world P) : option ending :=
  match for_files fuel stops 0 (files w) (State w [] [] o) with
  | Some (Finished st) =>
      Some (Finished (State (self st) (results st)
                        (emitted st ++ [resize_completed (results st)])
                        (outside st)))
  | r => r
  end.

Definition state_of (e : ending) : state :=
  match e with
  | Finished st | Uncaught st => st
  end.

(** The arguments of the [progress_updated] signals among [l], in order. *)
Definition progress_values (l : list signal) : list Z :=
  omap (fun s => match s with progress_updated p => Some p | _ => None end) l.

(** The [resize_completed] signals among [l], in order. *)
Definition completions (l : list signal) : list (list row) :=
  omap (fun s => match s with resize_completed r => Some r | _ => None end) l.

(** The two signals of lines 135-136 for one entry of [results]. *)
Definition signals_of (progress : Z) (r : row) : list signal :=
  let '(file_path, _, success, file_size) := r in
  [progress_updated progress;
   file_processed (PosixPath.basename file_path) success file_size].

End Run.

Arguments State {P} _ _ _ _.
Arguments self {P} _.
Arguments results {P} _.
Arguments emitted {P} _.
Arguments outside {P} _.
Arguments Finished {P} _.
Arguments Uncaught {P} _.
Arguments state_of {P} _.

(** The indices, counted from [i], of the entries of [rest] that pass the
    extension test. *)
Fixpoint supported_from (i : nat) (rest : list string) : list nat :=
  match rest with
  | [] => []
  | file_path :: rest' =>
      if supported file_path then i :: supported_from (S i) rest'
      else supported_from (S i) rest'
  end.

End ResizeWorker.

(** ** What spec.md says, where it differs from main.py *)

Module Spec.

(** The integer nearest to [n / d], for [0 <= n] and [0 < d]; a tie goes to
    the even neighbour. *)
Definition round_ratio (n d : Z) : Z :=
  let q := n / d in
  let r := n mod d in
  match 2 * r ?= d with
  | Lt => q
  | Gt => q + 1
  | Eq => if Z.even q then q else q + 1
  end.

(** [round(f)] of a binary64 number; [None] on an infinity or a NaN. *)
Definition round (f : float) : option Z :=
  match Prim2SF f with
  | S754_zero _ => Some 0
  | S754_finite s m e =>
      let a := match e with
               | Zneg p => round_ratio (Zpos m) (2 ^ Zpos p)
               | _ => Z.shiftl (Zpos m) e
               end in
      Some (if s then - a else a)
  | S754_infinity _ | S754_nan => None
  end.

(** Section 4.1, step 2a: [(round(orig_w*scale), round(orig_h*scale))]. *)
Definition resample_dims (orig_w orig_h : Z) (scale : float) : option (Z * Z) :=
  new_w ← round (Py.float_of_Z orig_w * scale);
  new_h ← round (Py.float_of_Z orig_h * scale);
  Some (new_w, new_h).

(** Section 4.2: [percent = round((index+1) / total_accepted * 100)]. *)
Definition percent (index total_accepted : nat) : Z :=
  round_ratio ((Z.of_nat index + 1) * 100) (Z.of_nat total_accepted).

(** The percentages section 4.2 asks for: one per accepted file, the
    denominator counting accepted files only. *)
Definition progress (files : list string) : list Z :=
  let total_accepted := length (filter (fun f => ResizeWorker.supported f = true) files) in
  (fun index => percent index total_accepted) <$> seq 0 total_accepted.

End Spec.

(** [z] is the binary64 number [f] with its fractional part dropped: [z] has
    the sign of [f] and [|z| <= |f| < |z| + 1]. *)
Definition is_trunc (f : float) (z : Z) : Prop :=
  match Prim2SF f with
  | S754_zero _ => z = 0
  | S754_finite s m e =>
      (if s then z <= 0 else 0 <= z) /\
      Z.abs z * 2 ^ Z.max (- e) 0 <= Zpos m * 2 ^ Z.max e 0
        < (Z.abs z + 1) * 2 ^ Z.max (- e) 0
  | S754_infinity _ | S754_nan => False
  end.

(** ** A synthetic Pillow for concrete runs *)

Module Synthetic.

(** An image is its dimensions; a file is either not an image ([None]) or
    an image saved at some quality.  [size_of] gives the encoded size. *)
Definition pil (size_of : Z * Z -> Z -> N) : PIL := {|
  image := Z * Z;
  data := option (Z * Z * Z);
  decode := fun d => fst <$> d;
  img_format := fun _ => Some "JPEG"%string;
  img_size := fun i => i;
  img_resize := fun _ wh _ =>
    if (0 <? fst wh) && (0 <? snd wh) then Some wh else None;
  encode := fun i _ q => Some (Some (i, q));
  getsize := fun d =>
    match d with
    | Some (i, q) => size_of i q
    | None => 0%N
    end
|}.

(** A source file holding a [w] x [h] image. *)
Definition photo (w h : Z) : option (Z * Z * Z) := Some (w, h, 90).

(** 1050 KiB at quality 90 and above, 850 KiB below. *)
Definition steep (_ : Z * Z) (q : Z) : N :=
  if 90 <=? q then 1075200%N else 870400%N.

(** Proportional to the pixel count and to the quality. *)
Definition by_area (i : Z * Z) (q : Z) : N :=
  Z.to_N (fst i * snd i * q).

(** The same size whatever the image and the quality. *)
Definition flat (n : N) (_ : Z * Z) (_ : Z) : N := n.

(** A disk holding one [w] x [h] photo at [/in/a.jpg]. *)
Definition one_photo (size_of : Z * Z -> Z -> N) (w h : Z)
    : world (pil size_of) :=
  World (<["/in/a.jpg"%string := photo w h]> ∅) [].

(** A disk holding a photo at [/in/a.jpg] and a file that is not an image at
    [/in/c.png]. *)
Definition photo_and_junk (size_of : Z * Z -> Z -> N)
    : world (pil size_of) :=
  World (<["/in/a.jpg"%string := photo 640 480]>
           (<["/in/c.png"%string := None]> ∅)) [].

End Synthetic.

(** ** What the search has done before it resizes *)

(** In a list of Pillow calls, every [resize] comes after a [save] at
    quality 10. *)
Definition floor_before_resize (l : list pil_call) : Prop :=
  forall i new_width new_height filter,
    l !! i = Some (call_resize new_width new_height filter) ->
    exists j path format,
      (j < i)%nat /\ l !! j = Some (call_save path format 10).

(** The output path line 123 gives a row. *)
Definition row_in_dir (output_dir : string) (r : ResizeWorker.row) : Prop :=
  r.1.1.2 = PosixPath.join output_dir (PosixPath.basename r.1.1.1).

(** ** Python strings: [split], [join], slices from the end, [:.1f] *)

Module PyStr.

Definition nl : ascii := "010"%char.

(** [s.split("\n")] *)
Fixpoint split_nl (s : string) : list string :=
  match s with
  | EmptyString => [EmptyString]
  | String a s' =>
      if Ascii.eqb a nl then EmptyString :: split_nl s'
      else match split_nl s' with
           | h :: t => String a h :: t
           | [] => [String a EmptyString]
           end
  end.

(** ["\n".join(l)] *)
Fixpoint join_nl (l : list string) : string :=
  match l with
  | [] => EmptyString
  | [x] => x
  | x :: l' => x +:+ String nl (join_nl l')
  end.

(** [l[-n:]] for [0 < n] *)
Definition last_n {A} (n : nat) (l : list A) : list A :=
  drop (length l - n) l.

(** [f"{x:.1f}"]: the decimal with one digit after the point that is nearest
    to the exact value of [x], ties to the even digit. *)
Definition format_1f (f : float) : string :=
  match Prim2SF f with
  | S754_nan => "nan"
  | S754_infinity s => if s then "-inf" else "inf"
  | S754_zero s => if s then "-0.0" else "0.0"
  | S754_finite s m e =>
      let tenths :=
        if 0 <=? e then Zpos m * 2 ^ e * 10
        else
          let d := 2 ^ (- e) in
          let n := Zpos m * 10 in
          let q := n / d in
          let r := n mod d in
          if 2 * r <? d then q
          else if d <? 2 * r then q + 1
          else if Z.even q then q else q + 1 in
      (if s then "-" else EmptyString) +:+ pretty (tenths / 10) +:+ "."
      +:+ pretty (tenths mod 10)
  end.

Fixpoint has_nl (s : string) : bool :=
  match s with
  | EmptyString => false
  | String a s' => Ascii.eqb a nl || has_nl s'
  end.

Fixpoint last_char (s : string) : option ascii :=
  match s with
  | EmptyString => None
  | String a s' => match last_char s' with Some c => Some c | None => Some a end
  end.

End PyStr.

(** ** FolderTab (main.py, lines 241-345) *)

Module FolderTab.
Import PyStr.

(** The widgets of the tab that the code writes. *)
Record tab : Type := Tab {
  status_label : string;
  progress_bar : Z;
  log_label : string
}.

(** A [QMessageBox] shown to the user. *)
Inductive message : Type :=
| warning (title text : string)
| information (title text : string).

(** Lines 280-285, over what [os.walk(input_dir)] yields: for each folder its
    path and the names of its files. *)
Fixpoint image_files (walk : list (string * list string)) : list string :=
  match walk with
  | [] => []
  | (root, files) :: walk' =>
      (PosixPath.join root
         <$> filter (fun file => ResizeWorker.supported file = true) files)
      ++ image_files walk'
  end.

(** The whole method.  [input_dir] and [output_dir] are what the two
    dialogs return (the empty string when the user cancels); the result is
    the tab, the message boxes shown, and the worker that is started, if
    any. *)
Definition select_folder (target_size_kb : Z * Z) (input_dir : string)
    (walk : list (string * list string)) (output_dir : string) (t : tab)
    : tab * list message * option ResizeWorker.worker :=
  match input_dir with
  | EmptyString => (t, [], None)
  | _ =>
      let found := image_files walk in
      match found with
      | [] =>
          (t, [warning "No Images"
                 "No image files found in the selected folder."], None)
      | _ =>
          let t1 := Tab ("Found " +:+ pretty (length found) +:+ " images in "
                         +:+ PosixPath.basename input_dir)
                        (progress_bar t) (log_label t) in
          match output_dir with
          | EmptyString => (t1, [], None)
          | _ =>
              (Tab ("Resizing " +:+ pretty (length found) +:+ " images...")
                   0 "Processing images...",
               [],
               Some (ResizeWorker.Worker found output_dir target_size_kb true))
          end
      end
  end.

(** Lines 333-345. *)
Definition success_count (results : list ResizeWorker.row) : nat :=
  length (filter (fun r : ResizeWorker.row => r.1.2 = true) results).

Definition on_resize_completed (target_size_kb : Z * Z)
    (results : list ResizeWorker.row) (t : tab) : tab * list message :=
  let total_count := length results in
  (Tab ("Completed: " +:+ pretty (success_count results) +:+ "/"
        +:+ pretty total_count +:+ " images successfully resized")
       (progress_bar t) (log_label t),
   [information "Processing Complete"
      (pretty (success_count results) +:+ " out of " +:+ pretty total_count
       +:+ " images were successfully resized to the target size range."
       +:+ String "010" (String "010" "Target range: ")
       +:+ pretty target_size_kb.1 +:+ "-" +:+ pretty target_size_kb.2
       +:+ "KB")]).

(** *** FolderTab.on_file_processed (lines 318-331) *)

Definition status_text (success : bool) : string :=
  if success then "Success" else "Warning: Target size not achieved".

(** The f-string of lines 225, 324 and 331. *)
Definition result_line (filename : string) (success : bool)
    (file_size_kb : float) : string :=
  filename +:+ ": " +:+ status_text success +:+ " ("
  +:+ format_1f file_size_kb +:+ "KB)".

(** [file_size / 1024] is [file_size / 2**10]; [None]: the division
    raises. *)
Definition on_file_processed (filename : string) (success : bool)
    (file_size : Z) (t : tab) : option tab :=
  file_size_kb ← Py.truediv_pow2 file_size 10;
  let current_text := log_label t in
  if String.eqb current_text "Processing images..."
     || String.eqb current_text "Results will appear here"
  then Some (Tab (status_label t) (progress_bar t)
               (result_line filename success file_size_kb))
  else
    let current_text :=
      if (12 <? length (split_nl current_text))%nat
      then join_nl (last_n 12 (split_nl current_text))
      else current_text in
    Some (Tab (status_label t) (progress_bar t)
            (current_text +:+ String nl
               (result_line filename success file_size_kb))).

(** The slot called once per [file_processed] signal, in the order the
    signals were emitted. *)
Fixpoint deliver (events : list (string * bool * Z)) (t : tab) : option tab :=
  match events with
  | [] => Some t
  | (filename, success, file_size) :: events' =>
      t' ← on_file_processed filename success file_size t;
      deliver events' t'
  end.

(** The line the log gets for one signal. *)
Definition line_of (ev : string * bool * Z) : option string :=
  file_size_kb ← Py.truediv_pow2 ev.2 10;
  Some (result_line ev.1.1 ev.1.2 file_size_kb).

(** What [os.walk] yields: file names are bare, they hold no separator. *)
Definition bare_names (walk : list (string * list string)) : Prop :=
  forall root names file,
    (root, names) ∈ walk -> file ∈ names -> PosixPath.rfind "/" file = -1.

(** A log made of result lines. *)
Definition log_of (lines : list string) (t : tab) : Prop :=
  match lines with
  | [] => log_label t = "Processing images..."
          \/ log_label t = "Results will appear here"
  | _ => log_label t = join_nl (last_n 13 lines)
  end.

Definition good_line (s : string) : Prop :=
  has_nl s = false /\ last_char s = Some ")"%char.

End FolderTab.

(** ** SingleImageTab.select_image (main.py, lines 181-217) *)

Module SingleImageTab.

Record tab : Type := Tab {
  status_label : string;
  preview_label : option string;  (* the file whose picture is shown *)
  progress_bar : Z;
  result_label : string
}.

(** [file_path] and [save_name] are what the two dialogs return (the empty
    string when the user cancels); [pixmap_ok] tells whether Qt could load
    the picture for the preview. *)
Definition select_image (target_size_kb : Z * Z) (file_path : string)
    (pixmap_ok : bool) (save_name : string) (t : tab)
    : tab * option ResizeWorker.worker :=
  match file_path with
  | EmptyString => (t, None)
  | _ =>
      let t1 := Tab ("Selected: " +:+ PosixPath.basename file_path)
                    (if pixmap_ok then Some file_path else preview_label t)
                    (progress_bar t) (result_label t) in
      match save_name with
      | EmptyString => (t1, None)
      | _ =>
          (Tab ("Resizing " +:+ PosixPath.basename file_path +:+ "...")
               (preview_label t1) 0 EmptyString,
           Some (ResizeWorker.Worker [file_path]
                   (PosixPath.dirname save_name) target_size_kb true))
      end
  end.

End SingleImageTab.

(** ** ImageResizerApp: the two sliders (main.py, lines 347-421) *)

Module ImageResizerApp.

(** A [QSlider], as far as main.py uses it. *)
Record slider : Type := Slider { minimum : Z; maximum : Z; value : Z }.

(** [QAbstractSlider.setValue]: the value is brought into the range
    ([qBound]); the flag tells whether it changed, in which case
    [valueChanged] is emitted. *)
Definition setValue (v : Z) (s : slider) : slider * bool :=
  let v' := Z.max (minimum s) (Z.min (maximum s) v) in
  (Slider (minimum s) (maximum s) v', negb (v' =? value s)).

(** The fields of the main window that [update_target_size] reads or
    writes. *)
Record app : Type := App {
  min_size_slider : slider;
  max_size_slider : slider;
  min_size_label : string;
  max_size_label : string;
  target_size_kb : Z * Z
}.

(** [f'{n}KB'] *)
Definition kb_text (n : Z) : string := pretty n +:+ "KB".

(** Lines 418-421. *)
Definition show_and_store (min_val max_val : Z) (a : app) : app :=
  App (min_size_slider a) (max_size_slider a)
      (kb_text min_val) (kb_text max_val) (min_val, max_val).

(** Lines 409-421.  [update_target_size] is connected to [valueChanged] of
    both sliders, so the [setValue] of line 415 calls it again, before line
    416, when it changes the slider.  [None]: [fuel] nested calls were not
    enough. *)
Fixpoint update_target_size (fuel : nat) (a : app) : option app :=
  match fuel with
  | O => None
  | S fuel' =>
      let min_val := value (min_size_slider a) in
      let max_val := value (max_size_slider a) in
      if max_val <=? min_val then
        let '(s, changed) := setValue (max_val - 100) (min_size_slider a) in
        let a1 := App s (max_size_slider a) (min_size_label a)
                      (max_size_label a) (target_size_kb a) in
        a2 ← (if changed then update_target_size fuel' a1 else Some a1);
        Some (show_and_store (max_val - 100) max_val a2)
      else Some (show_and_store min_val max_val a)
  end.

(** Lines 353 and 369-389: the window as [__init__] leaves it. *)
Definition initial : app :=
  App (Slider 50 900 100) (Slider 100 2048 1024)
      (kb_text 100) (kb_text 1024) (100, 1024).

(** The user moves the left slider to [v]. *)
Definition move_min_slider (fuel : nat) (v : Z) (a : app) : option app :=
  let '(s, changed) := setValue v (min_size_slider a) in
  let a1 := App s (max_size_slider a) (min_size_label a) (max_size_label a)
                (target_size_kb a) in
  if changed then update_target_size fuel a1 else Some a1.

(** The user moves the right slider to [v]. *)
Definition move_max_slider (fuel : nat) (v : Z) (a : app) : option app :=
  let '(s, changed) := setValue v (max_size_slider a) in
  let a1 := App (min_size_slider a) s (min_size_label a) (max_size_label a)
                (target_size_kb a) in
  if changed then update_target_size fuel a1 else Some a1.

(** The states the window goes through as the user moves the sliders. *)
Inductive reachable : app -> Prop :=
| reachable_initial : reachable initial
| reachable_min fuel v a a' :
    reachable a -> move_min_slider fuel v a = Some a' -> reachable a'
| reachable_max fuel v a a' :
    reachable a -> move_max_slider fuel v a = Some a' -> reachable a'.

(** What holds of the window between two events. *)
Definition consistent (a : app) : Prop :=
  let lo := value (min_size_slider a) in
  let hi := value (max_size_slider a) in
  (minimum (min_size_slider a) = 50 /\ maximum (min_size_slider a) = 900 /\
   minimum (max_size_slider a) = 100 /\ maximum (max_size_slider a) = 2048) /\
  (50 <= lo <= 900 /\ 100 <= hi <= 2048) /\
  (target_size_kb a).2 = hi /\
  ((target_size_kb a).1 = lo /\ lo < hi \/
   (target_size_kb a).1 = hi - 100 /\ hi < 150 /\ lo = 50) /\
  min_size_label a = kb_text (target_size_kb a).1 /\
  max_size_label a = kb_text (target_size_kb a).2.

End ImageResizerApp.

(** * Proofs *)

(** ** Binary64 arithmetic: the results that stay finite

    The bounds are crude on purpose: all that is needed is that the numbers
    main.py computes are far from the overflow threshold. *)

Lemma iter_pos_inv {A} (f : A -> A) (I : A -> Prop) :
  (forall x, I x -> I (f x)) -> forall p x, I x -> I (SpecFloat.iter_pos f p x).
Proof.
  intros Hf p. induction p as [p IH|p IH|]; intros x Hx; simpl; auto.
Qed.

Lemma digits2_pos_size p : digits2_pos p = Pos.size p.
Proof. induction p; simpl; congruence. Qed.

Lemma Zdigits2_log2 p : Zdigits2 (Zpos p) = Z.log2 (Zpos p) + 1.
Proof.
  simpl. rewrite digits2_pos_size. destruct p; simpl; lia.
Qed.

Lemma Zdigits2_nonneg m : 0 <= Zdigits2 m.
Proof. destruct m; simpl; lia. Qed.

Lemma Zdigits2_mono a b : 0 <= a <= b -> Zdigits2 a <= Zdigits2 b.
Proof.
  intros [Ha Hab]. destruct a as [|a|a]; [apply Zdigits2_nonneg| |lia].
  destruct b as [|b|b]; try lia.
  rewrite !Zdigits2_log2. pose proof (Z.log2_le_mono (Zpos a) (Zpos b) Hab). lia.
Qed.

Lemma Zdigits2_succ a : 0 <= a -> Zdigits2 (a + 1) <= Zdigits2 a + 1.
Proof.
  intros Ha. destruct a as [|a|a]; [simpl; lia| |lia].
  replace (Zpos a + 1) with (Zpos (a + 1)) by lia.
  rewrite !Zdigits2_log2.
  pose proof (Z.log2_succ_le (Zpos a)) as H.
  replace (Z.succ (Zpos a)) with (Zpos (a + 1)) in H by lia. lia.
Qed.

Lemma shr_1_small D mrs : Py.small D mrs -> Py.small D (shr_1 mrs).
Proof.
  destruct mrs as [m r s]. unfold Py.small. simpl. intros [Hm Hd].
  destruct m as [|[p|p|]|p]; simpl in *; try lia.
Qed.

Lemma shr_record_of_loc_m m l : shr_m (shr_record_of_loc m l) = m.
Proof. destruct l as [|[]]; reflexivity. Qed.

Lemma shr_fexp_small m e l D E :
  0 <= m -> Zdigits2 m <= D -> -1074 <= E -> e <= E ->
  Py.small D (fst (shr_fexp prec emax m e l)) /\
  snd (shr_fexp prec emax m e l) <= Z.max E (D + E - 53).
Proof.
  intros Hm Hd HE He. unfold shr_fexp, shr.
  assert (Hs : Py.small D (shr_record_of_loc m l)).
  { unfold Py.small. rewrite shr_record_of_loc_m. auto. }
  assert (Hf : fexp prec emax (Zdigits2 m + e) <= Z.max E (D + E - 53)).
  { unfold fexp, SpecFloat.emin, prec, emax. lia. }
  destruct (fexp prec emax (Zdigits2 m + e) - e) as [|n|n] eqn:Hn; simpl.
  - split; [auto|lia].
  - split; [apply iter_pos_inv; auto using shr_1_small | lia].
  - split; [auto|lia].
Qed.

Lemma round_nearest_even_small D mrs :
  Py.small D mrs ->
  0 <= round_nearest_even (shr_m mrs) (loc_of_shr_record mrs) /\
  Zdigits2 (round_nearest_even (shr_m mrs) (loc_of_shr_record mrs)) <= D + 1.
Proof.
  intros [Hm Hd].
  assert (H1 : Zdigits2 (shr_m mrs + 1) <= D + 1).
  { pose proof (Zdigits2_succ _ Hm). lia. }
  destruct mrs as [m [] []]; simpl in *; try destruct (Z.even m); split; lia.
Qed.

Lemma binary_round_aux_finite s m e l D E :
  0 <= m -> Zdigits2 m <= D -> -1074 <= E -> e <= E ->
  2 * D + E <= 1000 -> E <= 900 -> 0 <= D ->
  Py.finite_upto (Z.max E (2 * D + E)) (binary_round_aux prec emax s m e l).
Proof.
  intros Hm Hd HE He HB HE' HD. unfold binary_round_aux.
  destruct (shr_fexp_small m e l D E Hm Hd HE He) as [Hs1 He1].
  destruct (shr_fexp prec emax m e l) as [mrs' e']. simpl in Hs1, He1.
  destruct (round_nearest_even_small D mrs' Hs1) as [Hr Hrd].
  set (m1 := round_nearest_even (shr_m mrs') (loc_of_shr_record mrs')) in *.
  assert (HE1 : -1074 <= Z.max E (D + E - 53)) by lia.
  destruct (shr_fexp_small m1 e' loc_Exact (D + 1) _ Hr Hrd HE1 He1) as [[Hs2 _] He2].
  destruct (shr_fexp prec emax m1 e' loc_Exact) as [mrs'' e'']. simpl in Hs2, He2.
  destruct (shr_m mrs'') as [|p|p]; simpl; [trivial| |lia].
  replace (e'' <=? emax - prec) with true; [simpl; lia|].
  symmetry. apply Z.leb_le. unfold emax, prec. lia.
Qed.

Lemma digits2_pos_iter_xO p k :
  Zpos (digits2_pos (Pos.iter xO p k)) = Zpos (digits2_pos p) + Zpos k.
Proof.
  induction k as [|k IH] using Pos.peano_ind.
  - simpl. lia.
  - rewrite Pos.iter_succ. simpl digits2_pos. lia.
Qed.

(** The conversion of a positive integer below [2^53] is exact: a 53-bit
    mantissa and the matching exponent. *)
Lemma binary_normalize_small p :
  Zpos (digits2_pos p) <= 53 ->
  exists m, binary_normalize prec emax (Zpos p) 0 false
            = S754_finite false m (Zpos (digits2_pos p) - 53)
            /\ Zpos (digits2_pos m) = 53.
Proof.
  intros Hd. unfold binary_normalize, binary_round.
  set (d := Zpos (digits2_pos p)) in *.
  assert (Hf : fexp prec emax (d + 0) = d - 53).
  { unfold fexp, SpecFloat.emin, prec, emax. lia. }
  rewrite Hf. unfold shl_align.
  assert (Haux : forall mz, Zpos (digits2_pos mz) = 53 ->
     binary_round_aux prec emax false (Zpos mz) (d - 53) loc_Exact
     = S754_finite false mz (d - 53)).
  { intros mz Hmz. unfold binary_round_aux, shr_fexp. simpl Zdigits2. rewrite Hmz.
    assert (Hf' : fexp prec emax (53 + (d - 53)) - (d - 53) = 0).
    { unfold fexp, SpecFloat.emin, prec, emax. lia. }
    rewrite Hf'. simpl. rewrite Hmz, Hf'. simpl.
    replace (d - 53 <=? emax - prec) with true; [reflexivity|].
    symmetry. apply Z.leb_le. unfold emax, prec. lia. }
  destruct (d - 53 - 0) as [|k|k] eqn:Hk.
  - exists p. replace 0 with (d - 53) at 1 by lia. split; [apply Haux|]; fold d; lia.
  - lia.
  - exists (Pos.iter xO p k).
    assert (Hmz : Zpos (digits2_pos (Pos.iter xO p k)) = 53).
    { rewrite digits2_pos_iter_xO. fold d. lia. }
    split; [apply Haux|]; assumption.
Qed.

Lemma digits2_pos_lt p : Zpos p < 2 ^ 53 -> Zpos (digits2_pos p) <= 53.
Proof.
  intros H. change (Zdigits2 (Zpos p) <= 53). rewrite Zdigits2_log2.
  assert (Z.log2 (Zpos p) < 53) by (apply Z.log2_lt_pow2; lia). lia.
Qed.

Lemma Prim2SF_float_of_Z z :
  0 < z < 2 ^ 53 ->
  exists m e, Prim2SF (Py.float_of_Z z) = S754_finite false m e
              /\ Zpos (digits2_pos m) = 53 /\ -52 <= e <= 0.
Proof.
  intros [H0 H1]. destruct z as [|p|p]; try lia.
  pose proof (digits2_pos_lt p H1) as Hd.
  destruct (binary_normalize_small p Hd) as (m & Hm & Hdm).
  exists m, (Zpos (digits2_pos p) - 53). split; [|split; [assumption|lia]].
  unfold Py.float_of_Z. rewrite Hm. apply Prim2SF_SF2Prim.
  simpl. unfold bounded, canonical_mantissa. rewrite Hdm.
  apply andb_true_intro. split.
  - apply Z.eqb_eq. unfold fexp, SpecFloat.emin, prec, emax. lia.
  - apply Z.leb_le. unfold emax, prec. lia.
Qed.

Lemma SFdiv_finite ma ea mb eb :
  Zpos (digits2_pos ma) = 53 -> Zpos (digits2_pos mb) = 53 ->
  -52 <= ea <= 0 -> -52 <= eb <= 0 ->
  Py.finite_upto 211 (SF64div (S754_finite false ma ea) (S754_finite false mb eb)).
Proof.
  intros Ha Hb Hea Heb. unfold SF64div, SFdiv, SFdiv_core_binary.
  simpl Zdigits2. rewrite Ha, Hb.
  assert (He : Z.min (fexp prec emax (53 + ea - (53 + eb))) (ea - eb) = ea - eb - 53).
  { unfold fexp, SpecFloat.emin, prec, emax. lia. }
  rewrite He. replace (ea - eb - (ea - eb - 53)) with 53 by lia.
  pose proof (Z.div_eucl_eq (Z.shiftl (Zpos ma) 53) (Zpos mb) ltac:(lia)) as Heq.
  pose proof (Z.mod_pos_bound (Z.shiftl (Zpos ma) 53) (Zpos mb) ltac:(lia)) as Hr.
  unfold Z.modulo in Hr.
  assert (Hm' : 0 < Z.shiftl (Zpos ma) 53) by (rewrite Z.shiftl_mul_pow2; lia).
  assert (Hdm' : Zdigits2 (Z.shiftl (Zpos ma) 53) <= 106).
  { destruct (Z.shiftl (Zpos ma) 53) as [|m'|m'] eqn:Hs; try lia.
    rewrite Zdigits2_log2, <- Hs, Z.shiftl_mul_pow2, Z.log2_mul_pow2 by lia.
    change (Zdigits2 (Zpos ma) = 53) in Ha. rewrite Zdigits2_log2 in Ha. lia. }
  destruct (Z.div_eucl (Z.shiftl (Zpos ma) 53) (Zpos mb)) as [q r].
  assert (Hq : 0 <= q <= Z.shiftl (Zpos ma) 53) by nia.
  replace 211 with (Z.max (-1) (2 * 106 + -1)) by reflexivity.
  apply binary_round_aux_finite; try lia.
  pose proof (Zdigits2_mono q _ Hq). lia.
Qed.

Lemma SFmul_finite x mb eb B :
  valid_binary x = true -> Py.finite_upto B x ->
  Zpos (digits2_pos mb) = 53 -> -52 <= eb <= 0 -> 0 <= B <= 700 ->
  Py.finite_upto (2 * 106 + B) (SF64mul x (S754_finite false mb eb)).
Proof.
  intros Hv Hx Hb Heb HB. destruct x as [s|s| |s m e]; simpl in Hx; try contradiction.
  - simpl. trivial.
  - unfold SF64mul, SFmul.
    simpl in Hv. unfold bounded, canonical_mantissa in Hv.
    apply andb_prop in Hv. destruct Hv as [Hc _]. apply Z.eqb_eq in Hc.
    assert (Hdm : Zpos (digits2_pos m) <= 53).
    { unfold fexp, SpecFloat.emin, prec, emax in Hc. lia. }
    assert (Hlow : -1074 <= e).
    { unfold fexp, SpecFloat.emin, prec, emax in Hc. lia. }
    assert (Hd : Zdigits2 (Zpos (m * mb)) <= 106).
    { rewrite Zdigits2_log2. change (Zdigits2 (Zpos m) <= 53) in Hdm.
      change (Zdigits2 (Zpos mb) = 53) in Hb. rewrite Zdigits2_log2 in Hdm, Hb.
      pose proof (Z.log2_mul_above (Zpos m) (Zpos mb) ltac:(lia) ltac:(lia)).
      replace (Zpos (m * mb)) with (Zpos m * Zpos mb) by lia. lia. }
    pose proof (binary_round_aux_finite (xorb s false) (Zpos (m * mb)) (e + eb)
                  loc_Exact 106 (Z.max (e + eb) (-1074))) as H.
    cbv zeta in H.
    assert (H' := H ltac:(lia) Hd ltac:(lia) ltac:(lia) ltac:(lia) ltac:(lia) ltac:(lia)).
    clear H. destruct (binary_round_aux _ _ _ _ _ _); simpl in *; try assumption; lia.
Qed.

Lemma int_of_float_finite f B :
  Py.finite_upto B (Prim2SF f) -> is_Some (Py.int_of_float f).
Proof.
  unfold Py.int_of_float. destruct (Prim2SF f); simpl; intros H; try contradiction; eauto.
Qed.

Lemma progress_of_total i n :
  (i < n)%nat -> Z.of_nat n < 2 ^ 53 -> is_Some (ResizeWorker.progress_of i n).
Proof.
  intros Hi Hn. unfold ResizeWorker.progress_of, Py.truediv.
  destruct (Z.eqb_spec (Z.of_nat n) 0) as [H0|_]; [lia|]. simpl.
  destruct (Prim2SF_float_of_Z (Z.of_nat i + 1) ltac:(lia)) as (ma & ea & Ha & Hda & Hea).
  destruct (Prim2SF_float_of_Z (Z.of_nat n) ltac:(lia)) as (mb & eb & Hb & Hdb & Heb).
  destruct (Prim2SF_float_of_Z 100 ltac:(lia)) as (mc & ec & Hc & Hdc & Hec).
  apply (int_of_float_finite _ (2 * 106 + 211)).
  rewrite mul_spec, Hc. apply SFmul_finite; try assumption; try lia.
  - apply Prim2SF_valid.
  - rewrite div_spec, Ha, Hb. apply SFdiv_finite; assumption.
Qed.

(** A number divided by itself is exactly 1.0. *)
Lemma SFdiv_diag m e :
  Zpos (digits2_pos m) = 53 ->
  SF64div (S754_finite false m e) (S754_finite false m e) = Prim2SF Py.f_1_0.
Proof.
  intros Hd. unfold SF64div, SFdiv, SFdiv_core_binary.
  simpl Zdigits2. rewrite Hd.
  assert (He : Z.min (fexp prec emax (53 + e - (53 + e))) (e - e) = -53).
  { unfold fexp, SpecFloat.emin, prec, emax. lia. }
  rewrite He. replace (e - e - -53) with 53 by lia.
  assert (Hq : Z.shiftl (Zpos m) 53 / Zpos m = 2 ^ 53).
  { rewrite Z.shiftl_mul_pow2, Z.mul_comm by lia. apply Z.div_mul. lia. }
  assert (Hr : Z.shiftl (Zpos m) 53 mod Zpos m = 0).
  { rewrite Z.shiftl_mul_pow2, Z.mul_comm by lia. apply Z.mod_mul. lia. }
  unfold Z.div, Z.modulo in Hq, Hr.
  destruct (Z.div_eucl (Z.shiftl (Zpos m) 53) (Zpos m)) as [q r].
  subst q r.
  assert (Hloc : new_location (Zpos m) 0 = loc_Exact).
  { unfold new_location. destruct (Z.even (Zpos m)); reflexivity. }
  rewrite Hloc. reflexivity.
Qed.

Lemma progress_of_last n :
  (0 < n)%nat -> Z.of_nat n < 2 ^ 53 ->
  ResizeWorker.progress_of (n - 1) n = Some 100.
Proof.
  intros Hn Hb. unfold ResizeWorker.progress_of, Py.truediv.
  replace (Z.of_nat (n - 1) + 1) with (Z.of_nat n) by lia.
  destruct (Z.eqb_spec (Z.of_nat n) 0) as [H0|_]; [lia|]. simpl.
  destruct (Prim2SF_float_of_Z (Z.of_nat n) ltac:(lia)) as (m & e & Hm & Hd & _).
  assert (H1 : (Py.float_of_Z (Z.of_nat n) / Py.float_of_Z (Z.of_nat n))%float
               = Py.f_1_0).
  { rewrite <- (SF2Prim_Prim2SF (_ / _)), div_spec, Hm, (SFdiv_diag m e Hd).
    apply SF2Prim_Prim2SF. }
  rewrite H1. reflexivity.
Qed.

(** ** Binary64 arithmetic: rounding keeps the order *)

Import Round.

Lemma new_location_spec d r :
  0 < d -> 0 <= r < d -> new_location d r = loc_of_rem r d.
Proof.
  intros Hd Hr. unfold new_location.
  destruct (Z.even d) eqn:He;
    unfold new_location_even, new_location_odd, loc_of_rem;
    destruct (Z.eqb_spec r 0) as [->|Hr0]; try reflexivity.
  f_equal.
  assert (Hodd : Z.odd d = true) by (rewrite <- Z.negb_even, He; reflexivity).
  apply Z.odd_spec in Hodd. destruct Hodd as [k Hk].
  destruct (Z.compare_spec (2 * r + 1) d), (Z.compare_spec (2 * r) d);
    try reflexivity; lia.
Qed.

Lemma shr_1_nonneg m r s :
  0 <= m -> shr_1 (Build_shr_record m r s) = Build_shr_record (m / 2) (Z.odd m) (r || s).
Proof.
  intros Hm. rewrite <- Z.div2_div.
  destruct m as [|[p|p|]|p]; try reflexivity. lia.
Qed.

Lemma loc_of_shr_record_of_loc m l :
  loc_of_shr_record (shr_record_of_loc m l) = l.
Proof. destruct l as [|[]]; reflexivity. Qed.

Lemma represents_start n d :
  represents n d (shr_record_of_loc (n / d) (loc_of_rem (n mod d) d)).
Proof. split; [apply shr_record_of_loc_m | apply loc_of_shr_record_of_loc]. Qed.

Lemma represents_step n d mrs :
  0 <= n -> 0 < d -> represents n d mrs -> represents n (d * 2) (shr_1 mrs).
Proof.
  intros Hn Hd [Hm Hl]. destruct mrs as [m rb sb]. simpl in Hm.
  assert (Hm0 : 0 <= m) by (rewrite Hm; apply Z.div_pos; lia).
  rewrite shr_1_nonneg by exact Hm0.
  pose proof (Z.mod_pos_bound n d Hd) as Hr.
  assert (Hs : rb || sb = negb (n mod d =? 0)).
  { unfold loc_of_rem in Hl. destruct (n mod d =? 0); destruct rb, sb;
      simpl in Hl; try discriminate; reflexivity. }
  rewrite Hs. unfold represents. cbn [shr_m].
  assert (Hq : m / 2 = n / (d * 2)).
  { rewrite Hm. apply Z.div_div; lia. }
  assert (Hr2 : n mod (d * 2) = n mod d + d * (m mod 2)).
  { rewrite Hm. apply Z.rem_mul_r; lia. }
  split; [exact Hq|]. rewrite Hr2. rewrite Zodd_mod.
  destruct (Z.eqb_spec (m mod 2) 1) as [H1|H1].
  - rewrite H1. replace (n mod d + d * 1) with (n mod d + d) by lia.
    unfold loc_of_rem.
    destruct (Z.eqb_spec (n mod d + d) 0); [lia|].
    destruct (Z.eqb_spec (n mod d) 0) as [H0|H0]; simpl; f_equal; symmetry.
    + apply Z.compare_eq_iff. lia.
    + apply Z.compare_gt_iff. lia.
  - assert (H2 : m mod 2 = 0) by (pose proof (Z.mod_pos_bound m 2); lia).
    rewrite H2. replace (n mod d + d * 0) with (n mod d) by lia.
    unfold loc_of_rem.
    destruct (Z.eqb_spec (n mod d) 0) as [H0|H0]; simpl; [reflexivity|].
    f_equal. symmetry. apply Z.compare_lt_iff. lia.
Qed.

Lemma iter_pos_nat {A} (f : A -> A) p : forall x,
  SpecFloat.iter_pos f p x = Nat.iter (Pos.to_nat p) f x.
Proof.
  induction p as [p IH|p IH|]; intros x; cbn [SpecFloat.iter_pos].
  - rewrite !IH, Pos2Nat.inj_xI.
    replace (S (2 * Pos.to_nat p)) with (Pos.to_nat p + (Pos.to_nat p + 1))%nat
      by lia.
    rewrite !Nat.iter_add. reflexivity.
  - rewrite !IH, Pos2Nat.inj_xO.
    replace (2 * Pos.to_nat p)%nat with (Pos.to_nat p + Pos.to_nat p)%nat by lia.
    rewrite Nat.iter_add. reflexivity.
  - reflexivity.
Qed.

Lemma represents_iter n d mrs (k : nat) :
  0 <= n -> 0 < d -> represents n d mrs ->
  represents n (d * 2 ^ Z.of_nat k) (Nat.iter k shr_1 mrs).
Proof.
  intros Hn Hd Hr. induction k as [|k IH].
  - simpl. rewrite Z.mul_1_r. exact Hr.
  - rewrite Nat2Z.inj_succ, Z.pow_succ_r by lia. simpl.
    replace (d * (2 * 2 ^ Z.of_nat k)) with (d * 2 ^ Z.of_nat k * 2) by lia.
    apply represents_step; [exact Hn | | exact IH].
    apply Z.mul_pos_pos; [exact Hd | apply Z.pow_pos_nonneg; lia].
Qed.

Lemma represents_shr n d mrs e k :
  0 <= n -> 0 < d -> 0 <= k -> represents n d mrs ->
  represents n (d * 2 ^ k) (shr mrs e k).1 /\ (shr mrs e k).2 = e + k.
Proof.
  intros Hn Hd Hk Hr. unfold shr. destruct k as [|p|p]; try lia.
  - simpl. rewrite Z.mul_1_r, Z.add_0_r. auto.
  - cbn [fst snd]. split; [|reflexivity]. rewrite iter_pos_nat.
    rewrite <- (positive_nat_Z p). apply represents_iter; assumption.
Qed.

Lemma Zdigits2_of_range m k :
  0 < k -> 2 ^ (k - 1) <= m < 2 ^ k -> Zdigits2 m = k.
Proof.
  intros Hk Hm. assert (H0 : 0 < 2 ^ (k - 1)) by (apply Z.pow_pos_nonneg; lia).
  destruct m as [|p|p]; try lia.
  rewrite Zdigits2_log2.
  rewrite (Z.log2_unique (Zpos p) (k - 1)); [lia | lia |].
  replace (Z.succ (k - 1)) with k by lia. exact Hm.
Qed.

Lemma Zdigits2_to_range m k :
  0 < m -> Zdigits2 m = k -> 2 ^ (k - 1) <= m < 2 ^ k.
Proof.
  intros Hm Hd. destruct m as [|p|p]; try lia.
  rewrite Zdigits2_log2 in Hd.
  pose proof (Z.log2_spec (Zpos p) ltac:(lia)) as Hs.
  replace (k - 1) with (Z.log2 (Zpos p)) by lia.
  replace k with (Z.succ (Z.log2 (Zpos p))) by lia. exact Hs.
Qed.

Lemma rne_near n d :
  0 <= n -> 0 < d -> rne n d = n / d \/ rne n d = n / d + 1.
Proof.
  intros Hn Hd. unfold rne, round_nearest_even, loc_of_rem.
  destruct (n mod d =? 0); [left; reflexivity|].
  destruct (2 * (n mod d) ?= d); [destruct (Z.even (n / d))| |]; auto.
Qed.

Lemma fexp_normal x : -1074 <= x - 53 -> fexp prec emax x = x - 53.
Proof. intros H. unfold fexp, SpecFloat.emin, prec, emax. lia. Qed.

(** The rounding step of every operation, on a quotient [n / d] that has
    [53 + k] bits: the mantissa is [n / (d * 2^k)] rounded to nearest even. *)
Lemma binary_round_aux_rne s n d e k :
  0 <= n -> 0 < d -> 0 <= k ->
  2 ^ (52 + k) <= n / d < 2 ^ (53 + k) ->
  -1074 <= e + k <= 970 ->
  binary_round_aux prec emax s (n / d) e (loc_of_rem (n mod d) d)
  = S754_finite s (Z.to_pos (normz (rne n (d * 2 ^ k)) (e + k)).1)
      (normz (rne n (d * 2 ^ k)) (e + k)).2
  /\ normal (normz (rne n (d * 2 ^ k)) (e + k)).
Proof.
  intros Hn Hd Hk Hq He.
  assert (Hpk : 0 < 2 ^ k) by (apply Z.pow_pos_nonneg; lia).
  assert (Hdig : Zdigits2 (n / d) = 53 + k).
  { apply Zdigits2_of_range; [lia|].
    replace (53 + k - 1) with (52 + k) by lia. exact Hq. }
  unfold binary_round_aux, shr_fexp. rewrite Hdig.
  rewrite fexp_normal by lia.
  replace (53 + k + e - 53 - e) with k by lia.
  pose proof (represents_shr n d _ e k Hn Hd Hk (represents_start n d))
    as [[Hm Hl] He1].
  destruct (shr (shr_record_of_loc (n / d) (loc_of_rem (n mod d) d)) e k)
    as [mrs1 e1]. cbn [fst snd] in Hm, Hl, He1. subst e1.
  assert (Hz : round_nearest_even (shr_m mrs1) (loc_of_shr_record mrs1)
               = rne n (d * 2 ^ k)).
  { unfold rne. rewrite Hm, Hl. reflexivity. }
  rewrite Hz. set (z := rne n (d * 2 ^ k)).
  assert (Hm1 : 2 ^ 52 <= n / (d * 2 ^ k) < 2 ^ 53).
  { rewrite <- Z.div_div by lia. split.
    - apply Z.div_le_lower_bound; [lia|].
      rewrite <- Z.pow_add_r by lia. rewrite Z.add_comm. lia.
    - apply Z.div_lt_upper_bound; [lia|].
      rewrite <- Z.pow_add_r by lia. rewrite Z.add_comm. lia. }
  assert (Hzr : 2 ^ 52 <= z <= 2 ^ 53).
  { destruct (rne_near n (d * 2 ^ k) Hn ltac:(lia)) as [H|H]; fold z in H; lia. }
  unfold normz, normal. destruct (Z.eqb_spec z (2 ^ 53)) as [Hz53|Hz53].
  - rewrite Hz53. cbn [fst snd].
    change (Zdigits2 (2 ^ 53)) with 54. rewrite fexp_normal by lia.
    replace (54 + (e + k) - 53 - (e + k)) with 1 by lia.
    cbn [shr shr_record_of_loc SpecFloat.iter_pos].
    change (shr_1 {| shr_m := 2 ^ 53; shr_r := false; shr_s := false |})
      with {| shr_m := 2 ^ 52; shr_r := false; shr_s := false |}.
    cbn [shr_m]. change (2 ^ 52) with (Zpos (Z.to_pos (2 ^ 52))) at 1.
    cbv iota.
    destruct (Z.leb_spec (e + k + 1) (emax - prec)) as [_|Hbad];
      [|unfold emax, prec in Hbad; lia].
    split; [reflexivity | lia].
  - cbn [fst snd].
    assert (Hdz : Zdigits2 z = 53).
    { apply Zdigits2_of_range; [lia|]. change (53 - 1) with 52. lia. }
    rewrite Hdz, fexp_normal by lia.
    replace (53 + (e + k) - 53 - (e + k)) with 0 by lia.
    cbn [shr shr_record_of_loc shr_m].
    destruct z as [|pz|pz]; try lia.
    destruct (Z.leb_spec (e + k) (emax - prec)) as [_|Hbad];
      [|unfold emax, prec in Hbad; lia].
    split; [reflexivity | lia].
Qed.

Lemma rne_spec n d :
  0 <= n -> 0 < d ->
  (2 * rne n d - 1) * d <= 2 * n <= (2 * rne n d + 1) * d /\
  (2 * n = (2 * rne n d + 1) * d -> Z.even (rne n d) = true) /\
  (2 * n = (2 * rne n d - 1) * d -> Z.even (rne n d) = true).
Proof.
  intros Hn Hd.
  pose proof (Z.div_mod n d ltac:(lia)) as Hnd.
  pose proof (Z.mod_pos_bound n d Hd) as Hr.
  unfold rne, round_nearest_even, loc_of_rem.
  set (q := n / d) in *. set (r := n mod d) in *.
  destruct (Z.eqb_spec r 0) as [H0|H0]; [nia|].
  destruct (Z.compare_spec (2 * r) d) as [He|Hl|Hg].
  - destruct (Z.even q) eqn:Hev.
    + split; [nia|]. split; [auto | intros; nia].
    + split; [nia|]. split; [intros; nia|]. intros _.
      rewrite Z.add_1_r, Z.even_succ, <- Z.negb_even, Hev. reflexivity.
  - split; [nia|]. split; intros; nia.
  - split; [nia|]. split; intros; nia.
Qed.

Lemma rne_mono n d n' d' :
  0 <= n -> 0 < d -> 0 <= n' -> 0 < d' ->
  n * d' <= n' * d -> rne n d <= rne n' d'.
Proof.
  intros Hn Hd Hn' Hd' Hle.
  destruct (rne_spec n d Hn Hd) as ((Hlo & _) & _ & Hev).
  destruct (rne_spec n' d' Hn' Hd') as ((_ & Hhi') & Hev' & _).
  set (z := rne n d) in *. set (z' := rne n' d') in *.
  destruct (Z.le_gt_cases z z') as [|Hgt]; [assumption|exfalso].
  assert (H1 : (2 * z - 1) * d * d' <= 2 * n * d') by nia.
  assert (H2 : 2 * n' * d <= (2 * z' + 1) * d' * d) by nia.
  assert (H3 : (2 * z - 1) * (d * d') <= (2 * z' + 1) * (d * d')) by nia.
  assert (Hdd : 0 < d * d') by nia.
  assert (H4 : 2 * z - 1 <= 2 * z' + 1).
  { apply (Z.mul_le_mono_pos_r _ _ (d * d')); assumption. }
  assert (Hz : z = z' + 1) by lia.
  assert (E1 : 2 * n = (2 * z - 1) * d) by nia.
  assert (E2 : 2 * n' = (2 * z' + 1) * d') by nia.
  specialize (Hev E1). specialize (Hev' E2).
  rewrite Hz, Z.add_1_r, Z.even_succ, <- Z.negb_even, Hev' in Hev. discriminate.
Qed.

Lemma Zpos_iter_xO p k : Zpos (Pos.iter xO p k) = Zpos p * 2 ^ Zpos k.
Proof.
  induction k as [|k IH] using Pos.peano_ind.
  - simpl. lia.
  - rewrite Pos.iter_succ, Pos2Z.inj_succ, Z.pow_succ_r by lia.
    rewrite Pos2Z.inj_xO, IH. lia.
Qed.

(** The conversion of a positive integer below [2^53], scaled by [2^e], is
    exact. *)
Lemma binary_normalize_exact p e :
  let d := Zpos (digits2_pos p) in
  d <= 53 -> -1074 <= d + e - 53 <= 970 ->
  binary_normalize prec emax (Zpos p) e false
  = S754_finite false (Z.to_pos (Zpos p * 2 ^ (53 - d))) (d + e - 53)
  /\ Zpos (digits2_pos (Z.to_pos (Zpos p * 2 ^ (53 - d)))) = 53.
Proof.
  intros d Hd He. unfold binary_normalize, binary_round. fold d.
  rewrite fexp_normal by lia. unfold shl_align.
  assert (Haux : forall mz, Zpos (digits2_pos mz) = 53 ->
     binary_round_aux prec emax false (Zpos mz) (d + e - 53) loc_Exact
     = S754_finite false mz (d + e - 53)).
  { intros mz Hmz. unfold binary_round_aux, shr_fexp. simpl Zdigits2. rewrite Hmz.
    rewrite fexp_normal by lia.
    replace (53 + (d + e - 53) - 53 - (d + e - 53)) with 0 by lia.
    simpl. rewrite Hmz, fexp_normal by lia.
    replace (53 + (d + e - 53) - 53 - (d + e - 53)) with 0 by lia. simpl.
    replace (d + e - 53 <=? emax - prec) with true; [reflexivity|].
    symmetry. apply Z.leb_le. unfold emax, prec. lia. }
  destruct (d + e - 53 - e) as [|k|k] eqn:Hk.
  - assert (Hd53 : d = 53) by lia. rewrite Hd53 in *.
    change (2 ^ (53 - 53)) with 1. rewrite Z.mul_1_r. cbn [Z.to_pos].
    split; [|exact Hd53].
    replace e with (53 + e - 53) at 1 by lia. apply Haux. exact Hd53.
  - lia.
  - assert (Hk' : 53 - d = Zpos k) by lia. rewrite Hk'.
    rewrite <- Zpos_iter_xO. cbn [Z.to_pos].
    assert (Hmz : Zpos (digits2_pos (Pos.iter xO p k)) = 53).
    { rewrite digits2_pos_iter_xO. fold d. lia. }
    split; [apply Haux|]; assumption.
Qed.

Lemma rne_range n d k :
  0 <= n -> 0 < d -> 0 <= k ->
  2 ^ (52 + k) <= n / d < 2 ^ (53 + k) ->
  2 ^ 52 <= rne n (d * 2 ^ k) <= 2 ^ 53.
Proof.
  intros Hn Hd Hk Hq.
  assert (Hpk : 0 < 2 ^ k) by (apply Z.pow_pos_nonneg; lia).
  assert (Hm1 : 2 ^ 52 <= n / (d * 2 ^ k) < 2 ^ 53).
  { rewrite <- Z.div_div by lia. split.
    - apply Z.div_le_lower_bound; [lia|].
      rewrite <- Z.pow_add_r by lia. rewrite Z.add_comm. lia.
    - apply Z.div_lt_upper_bound; [lia|].
      rewrite <- Z.pow_add_r by lia. rewrite Z.add_comm. lia. }
  destruct (rne_near n (d * 2 ^ k) Hn ltac:(lia)) as [H|H]; lia.
Qed.

Lemma normz_lex z c z' c' :
  2 ^ 52 <= z <= 2 ^ 53 -> 2 ^ 52 <= z' <= 2 ^ 53 ->
  c < c' \/ (c = c' /\ z <= z') ->
  fle (normz z c) (normz z' c').
Proof.
  intros Hz Hz' H. unfold fle, normz.
  destruct (Z.eqb_spec z (2 ^ 53)), (Z.eqb_spec z' (2 ^ 53)); cbn [fst snd]; lia.
Qed.

Lemma fle_refl f : fle f f.
Proof. unfold fle. lia. Qed.

Lemma fle_trans f g h : fle f g -> fle g h -> fle f h.
Proof. unfold fle. lia. Qed.

Lemma Prim2SF_float_of_Z_exact z :
  0 < z < 2 ^ 53 ->
  Prim2SF (Py.float_of_Z z) = to_SF (norm_of_Z z) /\ normal (norm_of_Z z) /\
  -52 <= (norm_of_Z z).2 <= 0.
Proof.
  intros [H0 H1]. destruct z as [|p|p]; try lia.
  pose proof (digits2_pos_lt p H1) as Hd.
  assert (Hd1 : 1 <= Zpos (digits2_pos p)) by lia.
  destruct (binary_normalize_exact p 0 Hd ltac:(lia)) as [Hm Hdm].
  unfold norm_of_Z, to_SF, normal. cbn [fst snd Zdigits2].
  split; [|split; [|lia]].
  - unfold Py.float_of_Z. rewrite Hm.
    replace (Zpos (digits2_pos p) + 0 - 53) with (Zpos (digits2_pos p) - 53) by lia.
    apply Prim2SF_SF2Prim.
    simpl. unfold bounded, canonical_mantissa. rewrite Hdm.
    apply andb_true_intro. split.
    + apply Z.eqb_eq. unfold fexp, SpecFloat.emin, prec, emax. lia.
    + apply Z.leb_le. unfold emax, prec. lia.
  - assert (Hpos : 0 < Zpos p * 2 ^ (53 - Zpos (digits2_pos p))).
    { apply Z.mul_pos_pos; [lia | apply Z.pow_pos_nonneg; lia]. }
    pose proof (Zdigits2_to_range (Zpos (Z.to_pos (Zpos p * 2 ^ (53 - Zpos (digits2_pos p))))) 53
                  ltac:(lia) Hdm) as Hr.
    rewrite Z2Pos.id in Hr by exact Hpos. exact Hr.
Qed.

Lemma norm_of_Z_mono a b :
  0 < a <= b -> b < 2 ^ 53 -> fle (norm_of_Z a) (norm_of_Z b).
Proof.
  intros Ha Hb. unfold fle, norm_of_Z. cbn [fst snd].
  assert (Hda : Zdigits2 a <= Zdigits2 b) by (apply Zdigits2_mono; lia).
  destruct (Z.eq_dec (Zdigits2 a) (Zdigits2 b)) as [He|Hne]; [right|left; lia].
  rewrite He. split; [reflexivity|].
  apply Z.mul_le_mono_nonneg_r; [|lia].
  apply Z.pow_nonneg. lia.
Qed.

Lemma SF64div_exact a b :
  normal a -> normal b -> -1000 <= a.2 - b.2 <= 1000 ->
  SF64div (to_SF a) (to_SF b) = to_SF (div_norm a b) /\ normal (div_norm a b).
Proof.
  intros Ha Hb He. destruct a as [ma ea], b as [mb eb].
  unfold normal, to_SF, div_norm in *. cbn [fst snd] in *.
  destruct ma as [|pa|pa]; try lia. destruct mb as [|pb|pb]; try lia.
  cbn [Z.to_pos].
  assert (Hda : Zpos (digits2_pos pa) = 53).
  { apply (Zdigits2_of_range (Zpos pa) 53); [lia | exact Ha]. }
  assert (Hdb : Zpos (digits2_pos pb) = 53).
  { apply (Zdigits2_of_range (Zpos pb) 53); [lia | exact Hb]. }
  unfold SF64div, SFdiv, SFdiv_core_binary. simpl Zdigits2. rewrite Hda, Hdb.
  assert (He' : Z.min (fexp prec emax (53 + ea - (53 + eb))) (ea - eb) = ea - eb - 53).
  { unfold fexp, SpecFloat.emin, prec, emax. lia. }
  rewrite He'. replace (ea - eb - (ea - eb - 53)) with 53 by lia.
  cbv iota. rewrite Z.shiftl_mul_pow2 by lia.
  set (n := Zpos pa * 2 ^ 53). set (d := Zpos pb).
  assert (Hqr : Z.div_eucl n d = (n / d, n mod d)).
  { unfold Z.div, Z.modulo. destruct (Z.div_eucl n d); reflexivity. }
  rewrite Hqr.
  rewrite new_location_spec by (unfold d; try apply Z.mod_pos_bound; lia).
  set (k := if Zpos pa <? Zpos pb then 0 else 1).
  assert (Hk : 0 <= k <= 1) by (unfold k; destruct (Zpos pa <? Zpos pb); lia).
  assert (Hq : 2 ^ (52 + k) <= n / d < 2 ^ (53 + k)).
  { unfold k, n, d. destruct (Z.ltb_spec (Zpos pa) (Zpos pb)).
    - split; [apply Z.div_le_lower_bound | apply Z.div_lt_upper_bound]; simpl; lia.
    - split; [apply Z.div_le_lower_bound | apply Z.div_lt_upper_bound]; simpl; lia. }
  apply (binary_round_aux_rne false n d (ea - eb - 53) k);
    [unfold n; lia | unfold d; lia | lia | exact Hq | lia].
Qed.

Lemma SF64mul_exact a c :
  normal a -> normal c -> -1000 <= a.2 + c.2 <= 900 ->
  SF64mul (to_SF a) (to_SF c) = to_SF (mul_norm a c) /\ normal (mul_norm a c).
Proof.
  intros Ha Hc He. destruct a as [ma ea], c as [mc ec].
  unfold normal, to_SF, mul_norm in *. cbn [fst snd] in *.
  destruct ma as [|pa|pa]; try lia. destruct mc as [|pc|pc]; try lia.
  cbn [Z.to_pos]. unfold SF64mul, SFmul. cbn [xorb].
  rewrite Pos2Z.inj_mul.
  set (n := Zpos pa * Zpos pc).
  set (k := if n <? 2 ^ 105 then 52 else 53).
  assert (Hn : 2 ^ 104 <= n < 2 ^ 106) by (unfold n; nia).
  assert (Hk : 52 <= k <= 53) by (unfold k; destruct (n <? 2 ^ 105); lia).
  assert (Hq : 2 ^ (52 + k) <= n / 1 < 2 ^ (53 + k)).
  { rewrite Z.div_1_r. unfold k. destruct (Z.ltb_spec n (2 ^ 105)); simpl; lia. }
  pose proof (binary_round_aux_rne false n 1 (ea + ec) k ltac:(lia) ltac:(lia)
                ltac:(lia) Hq ltac:(lia)) as H.
  rewrite Z.div_1_r, Z.mod_1_r in H. exact H.
Qed.

Lemma div_quot_range a b :
  normal a -> normal b ->
  let k := if a.1 <? b.1 then 0 else 1 in
  2 ^ (52 + k) <= a.1 * 2 ^ 53 / b.1 < 2 ^ (53 + k).
Proof.
  unfold normal. intros Ha Hb. cbv zeta.
  destruct (Z.ltb_spec a.1 b.1).
  - split; [apply Z.div_le_lower_bound | apply Z.div_lt_upper_bound]; simpl; lia.
  - split; [apply Z.div_le_lower_bound | apply Z.div_lt_upper_bound]; simpl; lia.
Qed.

(** Division by a fixed normal number keeps the order. *)
Lemma div_norm_mono a a' b :
  normal a -> normal a' -> normal b -> fle a a' ->
  fle (div_norm a b) (div_norm a' b).
Proof.
  intros Ha Ha' Hb Hle.
  pose proof (div_quot_range a b Ha Hb) as Hq.
  pose proof (div_quot_range a' b Ha' Hb) as Hq'.
  unfold div_norm. cbv zeta in Hq, Hq'.
  unfold normal in Ha, Ha', Hb.
  set (k := if a.1 <? b.1 then 0 else 1) in *.
  set (k' := if a'.1 <? b.1 then 0 else 1) in *.
  assert (Hk : 0 <= k <= 1) by (unfold k; destruct (a.1 <? b.1); lia).
  assert (Hk' : 0 <= k' <= 1) by (unfold k'; destruct (a'.1 <? b.1); lia).
  apply normz_lex.
  - apply rne_range; lia.
  - apply rne_range; lia.
  - destruct Hle as [Hlt | [Heq Hm]].
    + destruct (Z.eq_dec (a.2 - b.2 - 53 + k) (a'.2 - b.2 - 53 + k')) as [E|E];
        [right | left; lia].
      split; [exact E|].
      assert (k = 1 /\ k' = 0) as [-> ->] by lia.
      apply rne_mono; try lia. change (2 ^ 1) with 2. change (2 ^ 0) with 1. nia.
    + unfold k, k'.
      destruct (Z.ltb_spec a.1 b.1), (Z.ltb_spec a'.1 b.1); cbv iota; try lia.
      * right. split; [lia|]. apply rne_mono; try lia. nia.
      * right. split; [lia|]. apply rne_mono; try lia. nia.
Qed.

(** Multiplication by a fixed normal number keeps the order. *)
Lemma mul_norm_mono a a' c :
  normal a -> normal a' -> normal c -> fle a a' ->
  fle (mul_norm a c) (mul_norm a' c).
Proof.
  unfold normal. intros Ha Ha' Hc Hle. unfold mul_norm.
  set (n := a.1 * c.1). set (n' := a'.1 * c.1).
  assert (Hn : 2 ^ 104 <= n < 2 ^ 106) by (unfold n; nia).
  assert (Hn' : 2 ^ 104 <= n' < 2 ^ 106) by (unfold n'; nia).
  set (k := if n <? 2 ^ 105 then 52 else 53).
  set (k' := if n' <? 2 ^ 105 then 52 else 53).
  assert (Hq : 2 ^ (52 + k) <= n / 1 < 2 ^ (53 + k)).
  { rewrite Z.div_1_r. unfold k. destruct (Z.ltb_spec n (2 ^ 105)); simpl; lia. }
  assert (Hq' : 2 ^ (52 + k') <= n' / 1 < 2 ^ (53 + k')).
  { rewrite Z.div_1_r. unfold k'. destruct (Z.ltb_spec n' (2 ^ 105)); simpl; lia. }
  assert (Hk : 52 <= k <= 53) by (unfold k; destruct (n <? 2 ^ 105); lia).
  assert (Hk' : 52 <= k' <= 53) by (unfold k'; destruct (n' <? 2 ^ 105); lia).
  apply normz_lex.
  - apply rne_range; lia.
  - apply rne_range; lia.
  - destruct Hle as [Hlt | [Heq Hm]].
    + destruct (Z.eq_dec (a.2 + c.2 + k) (a'.2 + c.2 + k')) as [E|E];
        [right | left; lia].
      split; [exact E|].
      assert (k = 53 /\ k' = 52) as [-> ->] by lia.
      apply rne_mono; try lia. unfold n, n'. nia.
    + assert (Hnn : n <= n') by (unfold n, n'; nia).
      unfold k, k'.
      destruct (Z.ltb_spec n (2 ^ 105)), (Z.ltb_spec n' (2 ^ 105)); cbv iota; try lia.
      * right. split; [lia|]. apply rne_mono; first [lia | nia].
      * right. split; [lia|]. apply rne_mono; first [lia | nia].
Qed.

Lemma trunc_finite_shiftl m e : Py.trunc_finite false m e = Z.shiftl (Zpos m) e.
Proof. destruct e; reflexivity. Qed.

Lemma shiftl_scaled m e :
  0 <= m -> -1100 <= e -> Z.shiftl m e = m * 2 ^ (e + 1100) / 2 ^ 1100.
Proof.
  intros Hm He. destruct (Z.le_gt_cases 0 e) as [H0|H0].
  - rewrite Z.shiftl_mul_pow2 by lia. rewrite Z.pow_add_r by lia.
    rewrite Z.mul_assoc, Z.div_mul by lia. reflexivity.
  - rewrite Z.shiftl_div_pow2 by lia.
    replace (2 ^ 1100) with (2 ^ (- e) * 2 ^ (e + 1100))
      by (rewrite <- Z.pow_add_r by lia; f_equal; lia).
    rewrite Z.div_mul_cancel_r; [reflexivity | |];
      apply Z.pow_nonzero; lia.
Qed.

(** Truncation keeps the order. *)
Lemma trunc_mono f g :
  normal f -> normal g -> -1100 <= f.2 -> fle f g ->
  Z.shiftl f.1 f.2 <= Z.shiftl g.1 g.2.
Proof.
  unfold normal, fle. intros Hf Hg He Hle.
  rewrite !shiftl_scaled by lia.
  apply Z.div_le_mono; [lia|].
  destruct Hle as [Hlt | [-> Hm]].
  - assert (H1 : f.1 * 2 ^ (f.2 + 1100) <= 2 ^ 53 * 2 ^ (f.2 + 1100)).
    { apply Z.mul_le_mono_nonneg_r; [apply Z.pow_nonneg|]; lia. }
    assert (H2 : 2 ^ 53 * 2 ^ (f.2 + 1100) = 2 ^ 52 * 2 ^ (f.2 + 1 + 1100)).
    { replace (f.2 + 1 + 1100) with (Z.succ (f.2 + 1100)) by lia.
      rewrite Z.pow_succ_r by lia. lia. }
    assert (H3 : 2 ^ (f.2 + 1 + 1100) <= 2 ^ (g.2 + 1100)).
    { apply Z.pow_le_mono_r; lia. }
    assert (H4 : 2 ^ 52 * 2 ^ (g.2 + 1100) <= g.1 * 2 ^ (g.2 + 1100)).
    { apply Z.mul_le_mono_nonneg_r; [apply Z.pow_nonneg|]; lia. }
    nia.
  - apply Z.mul_le_mono_nonneg_r; [apply Z.pow_nonneg|]; lia.
Qed.

(** The percentage of line 134 in closed form. *)
Lemma progress_of_exact i n :
  (i < n)%nat -> Z.of_nat n < 2 ^ 53 ->
  let q := div_norm (norm_of_Z (Z.of_nat i + 1)) (norm_of_Z (Z.of_nat n)) in
  let p := mul_norm q (norm_of_Z 100) in
  ResizeWorker.progress_of i n = Some (Z.shiftl p.1 p.2) /\
  normal q /\ normal p /\ -200 <= p.2.
Proof.
  intros Hi Hn q p. unfold ResizeWorker.progress_of, Py.truediv.
  destruct (Z.eqb_spec (Z.of_nat n) 0) as [H0|_]; [lia|]. simpl.
  destruct (Prim2SF_float_of_Z_exact (Z.of_nat i + 1) ltac:(lia)) as (Ha & Hna & Hea).
  destruct (Prim2SF_float_of_Z_exact (Z.of_nat n) ltac:(lia)) as (Hb & Hnb & Heb).
  destruct (Prim2SF_float_of_Z_exact 100 ltac:(lia)) as (Hc & Hnc & Hec).
  destruct (SF64div_exact _ _ Hna Hnb ltac:(lia)) as [Hdiv Hnq]. fold q in Hdiv, Hnq.
  assert (Heq : -107 <= q.2 <= 53).
  { unfold q, div_norm, normz.
    destruct (_ =? 2 ^ 53); destruct (_ <? _); cbn [fst snd]; lia. }
  destruct (SF64mul_exact q _ Hnq Hnc ltac:(lia)) as [Hmul Hnp]. fold p in Hmul, Hnp.
  assert (Hep : -200 <= p.2).
  { unfold p, mul_norm, normz.
    destruct (_ =? 2 ^ 53); destruct (_ <? _); cbn [fst snd]; lia. }
  split; [|auto].
  unfold Py.int_of_float. rewrite mul_spec, div_spec, Ha, Hb, Hc, Hdiv, Hmul.
  unfold to_SF. rewrite trunc_finite_shiftl.
  rewrite Z2Pos.id by (unfold normal in Hnp; lia). reflexivity.
Qed.

(** The percentages do not go down along the list, and stay in [0, 100]. *)
Lemma progress_of_mono i j n p q :
  (i <= j < n)%nat -> Z.of_nat n < 2 ^ 53 ->
  ResizeWorker.progress_of i n = Some p ->
  ResizeWorker.progress_of j n = Some q ->
  p <= q.
Proof.
  intros Hij Hn Hp Hq.
  destruct (progress_of_exact i n ltac:(lia) Hn) as (Hp' & Hqi & Hpi & Hei).
  destruct (progress_of_exact j n ltac:(lia) Hn) as (Hq' & Hqj & Hpj & Hej).
  cbv zeta in *. rewrite Hp' in Hp. rewrite Hq' in Hq.
  injection Hp as <-. injection Hq as <-.
  destruct (Prim2SF_float_of_Z_exact (Z.of_nat i + 1) ltac:(lia)) as (_ & Hna & _).
  destruct (Prim2SF_float_of_Z_exact (Z.of_nat j + 1) ltac:(lia)) as (_ & Hna' & _).
  destruct (Prim2SF_float_of_Z_exact (Z.of_nat n) ltac:(lia)) as (_ & Hnb & _).
  destruct (Prim2SF_float_of_Z_exact 100 ltac:(lia)) as (_ & Hnc & _).
  apply trunc_mono; [assumption | assumption | lia |].
  apply mul_norm_mono; [assumption | assumption | assumption |].
  apply div_norm_mono; [assumption | assumption | assumption |].
  apply norm_of_Z_mono; lia.
Qed.

Lemma progress_of_range i n p :
  (i < n)%nat -> Z.of_nat n < 2 ^ 53 ->
  ResizeWorker.progress_of i n = Some p -> 0 <= p <= 100.
Proof.
  intros Hi Hn Hp. split.
  - destruct (progress_of_exact i n Hi Hn) as (Hp' & _ & Hnp & _).
    cbv zeta in Hp'. rewrite Hp' in Hp. injection Hp as <-.
    apply Z.shiftl_nonneg. unfold normal in Hnp. lia.
  - apply (progress_of_mono i (n - 1) n p 100); [lia | exact Hn | exact Hp |].
    apply progress_of_last; lia.
Qed.

Import ImageResizer.
Import ResizeWorker.
Import Synthetic.

(** ** The search loop *)

Lemma scale_level_range k :
  (k <= 11)%nat ->
  (0 <? scale_level k)%float = true /\ (scale_level k <=? Py.f_1_0)%float = true.
Proof.
  intros Hk. do 12 (destruct k as [|k]; [vm_compute; auto|]). lia.
Qed.

Lemma scale_level_floor k :
  (k <= 11)%nat ->
  (scale_level (S k) <? Py.f_0_3)%float = false -> (S k <= 11)%nat.
Proof.
  intros Hk. do 11 (destruct k as [|k]; [lia|]).
  destruct k as [|k]; [|lia]. vm_compute. discriminate.
Qed.

Lemma scale_level_below k :
  (k < 11)%nat -> (scale_level (S k) <? Py.f_0_3)%float = false.
Proof.
  intros Hk. do 11 (destruct k as [|k]; [reflexivity|]). lia.
Qed.

Lemma scale_level_12 : (scale_level 12 <? Py.f_0_3)%float = true.
Proof. reflexivity. Qed.

Section Loop.
Context (P : PIL) (img : image P) (format : string) (width height : Z).
Context (min_size_bytes max_size_bytes : Z) (output_path : string).

Abbreviation body := (loop_body P img format width height min_size_bytes
                    max_size_bytes output_path).
Abbreviation go := (reaches P img format width height min_size_bytes
                  max_size_bytes output_path).
Abbreviation att := (attempt P img format width height output_path).

Lemma within_limits_initial : within_limits initial.
Proof.
  split; [split; [simpl; lia | reflexivity] | exists 0%nat; split; [lia | reflexivity]].
Qed.

Lemma loop_body_within_limits s w s' w' :
  within_limits s -> body s w = Continue s' w' -> within_limits s'.
Proof.
  intros [[Hq Hm] (k & Hk & Hs)]. unfold loop_body, min_quality.
  destruct (att s w) as [?|[d w3]]; [discriminate|].
  destruct (_ && _); [discriminate|].
  destruct (Z.ltb_spec max_size_bytes (Z.of_N (getsize P d))).
  - destruct (Z.ltb_spec 10 (quality s)).
    + intros [= <- _]. split; [|exists k; auto]. simpl.
      rewrite Zminus_mod, Hm. split; [|reflexivity].
      assert (quality s = 5 * (quality s / 5)) by (apply Z_div_exact_full_2; lia). lia.
    + destruct (_ <? Py.f_0_3)%float eqn:Hlt; [discriminate|].
      intros [= <- _]. split; [auto|]. simpl. exists (S k).
      rewrite Hs in *. split; [|reflexivity]. apply scale_level_floor; assumption.
  - destruct (Z.ltb_spec (quality s) 95); [|discriminate].
    intros [= <- _]. split; [|exists k; auto]. simpl.
    rewrite Zplus_mod, Hm. split; [|reflexivity].
    assert (quality s = 5 * (quality s / 5)) by (apply Z_div_exact_full_2; lia). lia.
Qed.

Lemma reaches_within_limits s w s' w' :
  go s w s' w' -> within_limits s -> within_limits s'.
Proof.
  induction 1 as [|s w s1 w1 s2 w2 Hb _ IH]; [auto|].
  intros Hs. apply IH. eapply loop_body_within_limits; eassumption.
Qed.


Abbreviation loop := (fun fuel => while_true P fuel img format width height
                      min_size_bytes max_size_bytes output_path).

Lemma while_true_return s w s' w' r w'' :
  go s w s' w' -> body s' w' = Return r w'' ->
  exists k, forall fuel, (k <= fuel)%nat -> loop fuel s w = Some (Return r w'').
Proof.
  intros Hgo Hret. induction Hgo as [s w|s w s1 w1 s2 w2 Hb _ IH].
  - exists 1%nat. intros [|fuel] Hf; [lia|]. simpl. rewrite Hret. reflexivity.
  - destruct (IH Hret) as [k Hk]. exists (S k). intros [|fuel] Hf; [lia|].
    simpl. rewrite Hb. apply Hk. lia.
Qed.

Lemma while_true_left fuel s w r :
  loop fuel s w = Some r ->
  exists s' w', go s w s' w' /\ body s' w' = r /\
                match r with Continue _ _ => False | _ => True end.
Proof.
  revert s w. induction fuel as [|fuel IH]; intros s w; simpl; [discriminate|].
  destruct (body s w) as [s1 w1| |] eqn:Hb.
  - intros H. destruct (IH _ _ H) as (s' & w' & Hgo & Hr).
    exists s', w'. split; [|exact Hr]. eapply reaches_pass; eassumption.
  - intros [= <-]. exists s, w. split; [constructor|]. rewrite Hb. auto.
  - intros [= <-]. exists s, w. split; [constructor|]. rewrite Hb. auto.
Qed.

(** The ways a pass can end in [return True, file_size]. *)
Lemma loop_body_true s w sz w' :
  quality s <= 95 ->
  body s w = Return (true, sz) w' ->
  exists d w3, att s w = inr (d, w3) /\ sz = Z.of_N (getsize P d) /\
    w' = move (temp_of output_path) output_path w3 /\
    ((min_size_bytes <= sz <= max_size_bytes) \/
     (sz < min_size_bytes /\ quality s = 95)).
Proof.
  intros Hq. unfold loop_body, min_quality.
  destruct (att s w) as [?|[d w3]]; [discriminate|].
  destruct (Z.leb_spec min_size_bytes (Z.of_N (getsize P d)));
    destruct (Z.leb_spec (Z.of_N (getsize P d)) max_size_bytes); simpl;
    try (intros [= <- <-]; exists d, w3; repeat split; auto; left; lia);
    destruct (Z.ltb_spec max_size_bytes (Z.of_N (getsize P d))); try lia;
    repeat match goal with
           | |- context [if ?c then _ else _] => destruct c eqn:?
           end; try discriminate;
    intros [= <- <-]; exists d, w3; repeat split; auto; right; lia.
Qed.

(** A pass whose file is in the band, or under it at quality 95, returns
    [True] and moves the file to the output path. *)
Lemma loop_body_achieved s w d w3 :
  min_size_bytes <= max_size_bytes ->
  att s w = inr (d, w3) ->
  (min_size_bytes <= Z.of_N (getsize P d) <= max_size_bytes) \/
  (Z.of_N (getsize P d) < min_size_bytes /\ quality s = 95) ->
  body s w = Return (true, Z.of_N (getsize P d))
               (move (temp_of output_path) output_path w3).
Proof.
  intros Hband Hatt Hsz. unfold loop_body. rewrite Hatt.
  destruct (Z.leb_spec min_size_bytes (Z.of_N (getsize P d)));
    destruct (Z.leb_spec (Z.of_N (getsize P d)) max_size_bytes); simpl;
    try reflexivity; try lia.
  destruct (Z.ltb_spec max_size_bytes (Z.of_N (getsize P d))); [lia|].
  destruct Hsz as [?|[_ ->]]; [lia|]. reflexivity.
Qed.

(** What [attempt] leaves on disk. *)
Lemma attempt_writes s w d w3 :
  att s w = inr (d, w3) -> fs w3 !! temp_of output_path = Some d.
Proof.
  unfold attempt. destruct (resized_img _ _ _ _ _ _) as [[buf|] w1]; [|discriminate].
  destruct (encode P buf format (quality s)); [|discriminate].
  intros [= <- <-]. simpl. apply lookup_insert_eq.
Qed.

Lemma move_lookup (src dst : string) (w : world P) d :
  fs w !! src = Some d -> fs (move src dst w) !! dst = Some d.
Proof. intros H. unfold move. rewrite H. simpl. apply lookup_insert_eq. Qed.

End Loop.

Lemma resize_image_decoded (P : PIL) fuel input_path output_path band w img :
  fs w !! input_path ≫= decode P = Some img ->
  resize_image P fuel input_path output_path band w =
    match while_true P fuel img (format_or_jpeg (img_format P img))
            (img_size P img).1 (img_size P img).2
            (band.1 * 1024) (band.2 * 1024) output_path initial
            (log (call_open input_path) w) with
    | None | Some (Continue _ _) => None
    | Some (Return r w') => Some (r, w')
    | Some (Raise w') => Some ((false, 0), w')
    end.
Proof.
  intros Hd. unfold resize_image. rewrite Hd.
  destruct (img_size P img) as [width height]. reflexivity.
Qed.

(** C5.  With [min <= max]: whenever a pass of the search produces a file
    that is in the band, or one strictly under the minimum while quality is
    95, [resize_image] moves that file to the output path and returns
    [(True, size)]; and these are the only two ways it returns [True]. *)
Theorem achieved_iff_in_band_or_under_min_at_95
    (P : PIL) (input_path output_path : string) (band : Z * Z)
    (w : world P) (img : image P) :
  band.1 <= band.2 ->
  fs w !! input_path ≫= decode P = Some img ->
  let format := format_or_jpeg (img_format P img) in
  let width := (img_size P img).1 in
  let height := (img_size P img).2 in
  let seen := reaches P img format width height (band.1 * 1024)
                (band.2 * 1024) output_path initial
                (log (call_open input_path) w) in
  (forall s w1 d w3,
      seen s w1 ->
      attempt P img format width height output_path s w1 = inr (d, w3) ->
      (band.1 * 1024 <= Z.of_N (getsize P d) <= band.2 * 1024) \/
      (Z.of_N (getsize P d) < band.1 * 1024 /\ quality s = 95) ->
      exists k, forall fuel, (k <= fuel)%nat ->
        exists w', resize_image P fuel input_path output_path band w
                   = Some ((true, Z.of_N (getsize P d)), w')
                   /\ fs w' !! output_path = Some d)
  /\
  (forall fuel sz w',
      resize_image P fuel input_path output_path band w = Some ((true, sz), w') ->
      exists s w1 d w3,
        seen s w1 /\
        attempt P img format width height output_path s w1 = inr (d, w3) /\
        sz = Z.of_N (getsize P d) /\
        fs w' !! output_path = Some d /\
        ((band.1 * 1024 <= sz <= band.2 * 1024) \/
         (sz < band.1 * 1024 /\ quality s = 95))).
Proof.
  intros Hband Hdec format width height seen. split.
  - intros s w1 d w3 Hgo Hatt Hsz.
    assert (Hb := loop_body_achieved P img format width height (band.1 * 1024)
                    (band.2 * 1024) output_path s w1 d w3 ltac:(lia) Hatt Hsz).
    destruct (while_true_return _ _ _ _ _ _ _ _ _ _ _ _ _ _ Hgo Hb) as [k Hk].
    exists k. intros fuel Hf. eexists. split.
    + rewrite (resize_image_decoded _ _ _ _ _ _ _ Hdec).
      fold format width height. rewrite (Hk fuel Hf). reflexivity.
    + apply move_lookup. eapply attempt_writes. eassumption.
  - intros fuel sz w' Hres.
    rewrite (resize_image_decoded _ _ _ _ _ _ _ Hdec) in Hres.
    fold format width height in Hres.
    destruct (while_true _ _ _ _ _ _ _ _ _ _ _) as [[| r w2 |]|] eqn:Hw;
      try discriminate.
    injection Hres as -> ->.
    destruct (while_true_left _ _ _ _ _ _ _ _ _ _ _ _ Hw) as (s & w1 & Hgo & Hb & _).
    assert (Hlim : within_limits s).
    { eapply reaches_within_limits; [exact Hgo | apply within_limits_initial]. }
    destruct (loop_body_true _ _ _ _ _ _ _ _ _ _ _ _ ltac:(apply Hlim) Hb)
      as (d & w3 & Hatt & -> & -> & Hcase).
    exists s, w1, d, w3. repeat split; auto.
    apply move_lookup. eapply attempt_writes. eassumption.
Qed.

(** C9.  At every pass of the search, quality is a multiple of 5 in
    [[10, 95]] and scale is in [(0, 1]]. *)
Theorem quality_and_scale_stay_in_range
    (P : PIL) (img : image P) (format : string) (width height : Z)
    (min_size_bytes max_size_bytes : Z) (output_path : string)
    (w : world P) (s : search) (w' : world P) :
  reaches P img format width height min_size_bytes max_size_bytes output_path
    initial w s w' ->
  (10 <= quality s <= 95 /\ quality s mod 5 = 0) /\
  (0 <? scale_factor s)%float = true /\
  (scale_factor s <=? Py.f_1_0)%float = true.
Proof.
  intros Hgo.
  destruct (reaches_within_limits _ _ _ _ _ _ _ _ _ _ _ _ Hgo within_limits_initial)
    as [Hq (k & Hk & ->)].
  split; [exact Hq | apply scale_level_range; exact Hk].
Qed.

Lemma attempt_unscaled (P : PIL) img format width height output_path s (w : world P) :
  (scale_factor s <? Py.f_1_0)%float = false ->
  attempt P img format width height output_path s w =
    match encode P img format (quality s) with
    | None => inl (log (call_save (temp_of output_path) format (quality s)) w)
    | Some d =>
        inr (d, write_file (temp_of output_path) d
                  (log (call_save (temp_of output_path) format (quality s)) w))
    end.
Proof. intros H. unfold attempt, resized_img. rewrite H. reflexivity. Qed.

(** C7.  When the file encoded from the decoded image at quality 90 is in
    the band, [resize_image] returns [(True, its size)] after that one pass:
    the only Pillow calls are the [open] and the one [save], no [resize], and
    the file is at the output path. *)
Theorem first_attempt_in_band_needs_no_resampling
    (P : PIL) (fuel : nat) (input_path output_path : string) (band : Z * Z)
    (w : world P) (img : image P) (d : data P) :
  fs w !! input_path ≫= decode P = Some img ->
  encode P img (format_or_jpeg (img_format P img)) 90 = Some d ->
  band.1 * 1024 <= Z.of_N (getsize P d) <= band.2 * 1024 ->
  exists w',
    resize_image P (S fuel) input_path output_path band w
    = Some ((true, Z.of_N (getsize P d)), w') /\
    calls w' = calls w ++
      [call_open input_path;
       call_save (temp_of output_path) (format_or_jpeg (img_format P img)) 90] /\
    fs w' !! output_path = Some d.
Proof.
  intros Hdec Henc Hsz.
  set (format := format_or_jpeg (img_format P img)) in *.
  set (temp := temp_of output_path).
  set (w3 := write_file temp d (log (call_save temp format 90)
                                  (log (call_open input_path) w))).
  exists (move temp output_path w3).
  assert (Hatt : attempt P img format (img_size P img).1 (img_size P img).2
                   output_path initial (log (call_open input_path) w)
                 = inr (d, w3)).
  { rewrite attempt_unscaled by reflexivity. simpl. rewrite Henc. reflexivity. }
  split; [|split].
  - rewrite (resize_image_decoded _ _ _ _ _ _ _ Hdec). fold format. simpl.
    assert (Hband : band.1 * 1024 <= band.2 * 1024) by lia.
    rewrite (loop_body_achieved _ _ _ _ _ _ _ _ _ _ d w3 Hband Hatt);
      [reflexivity | left; lia].
  - unfold move, w3. simpl. rewrite lookup_insert_eq. simpl.
    rewrite <- app_assoc. reflexivity.
  - apply move_lookup. eapply attempt_writes. exact Hatt.
Qed.

(** *** The search can go on for ever *)

Lemma steep_oscillates fuel :
  forall (w : world (Synthetic.pil Synthetic.steep)) q,
    q = 90 \/ q = 85 ->
    while_true (Synthetic.pil Synthetic.steep) fuel (4000, 3000) "JPEG"
      4000 3000 (900 * 1024) (1000 * 1024) "/out/a.jpg" (Search q Py.f_1_0) w
    = None.
Proof.
  induction fuel as [|fuel IH]; intros w q Hq; [reflexivity|].
  simpl. unfold loop_body. rewrite attempt_unscaled by reflexivity.
  destruct Hq as [-> | ->]; simpl; apply IH; auto.
Qed.

(** C1.  A 4000 x 3000 photo whose file is 1050 KiB at quality 90 and
    850 KiB at quality 85, with the band 900-1000 KiB: the search never
    returns, whatever number of passes it is given.  Quality goes 90, 85,
    90, 85, ... *)
Theorem search_can_alternate_for_ever (fuel : nat) :
  resize_image (Synthetic.pil Synthetic.steep) fuel "/in/a.jpg" "/out/a.jpg"
    (900, 1000) (Synthetic.one_photo Synthetic.steep 4000 3000)
  = None.
Proof.
  rewrite (resize_image_decoded (Synthetic.pil Synthetic.steep) _ _ _ _ _
             (4000, 3000)) by reflexivity.
  match goal with
  | |- match ?x with _ => _ end = _ =>
      replace x with (@None (flow (Synthetic.pil Synthetic.steep)))
  end; [reflexivity|].
  symmetry. apply (steep_oscillates fuel _ 90). left. reflexivity.
Qed.

(** *** The ceiling cannot be met *)

Section Loop2.
Context (P : PIL) (img : image P) (format : string) (width height : Z).
Context (min_size_bytes max_size_bytes : Z) (output_path : string).

Abbreviation body2 := (loop_body P img format width height min_size_bytes
                    max_size_bytes output_path).
Abbreviation att2 := (attempt P img format width height output_path).
Abbreviation loop2 := (fun fuel => while_true P fuel img format width height
                      min_size_bytes max_size_bytes output_path).

Lemma loop_body_too_large s w d w3 :
  att2 s w = inr (d, w3) ->
  max_size_bytes < Z.of_N (getsize P d) ->
  body2 s w =
    if 10 <? quality s then
      Continue (Search (quality s - 5) (scale_factor s))
               (remove_if_exists (temp_of output_path) w3)
    else if (scale_factor s * Py.f_0_9 <? Py.f_0_3)%float then
      Return (false, Z.of_N (getsize P d))
             (move (temp_of output_path) output_path w3)
    else
      Continue (Search (quality s) (scale_factor s * Py.f_0_9)%float)
               (remove_if_exists (temp_of output_path) w3).
Proof.
  intros Hatt Hsz. unfold loop_body, min_quality. rewrite Hatt.
  rewrite (proj2 (Z.leb_gt _ _) Hsz), andb_false_r.
  rewrite (proj2 (Z.ltb_lt _ _) Hsz). reflexivity.
Qed.

Hypothesis too_large : forall s w, within_limits s ->
  exists d w3, att2 s w = inr (d, w3) /\ max_size_bytes < Z.of_N (getsize P d).

Lemma within_limits_at (j k : nat) :
  (j <= 17)%nat -> (k <= 11)%nat ->
  within_limits (Search (10 + 5 * Z.of_nat j) (scale_level k)).
Proof.
  intros Hj Hk. split; [split; simpl; [lia|] | exists k; auto].
  replace (10 + 5 * Z.of_nat j) with (10 + Z.of_nat j * 5) by lia.
  rewrite Z_mod_plus_full. reflexivity.
Qed.

Lemma while_true_S fuel s w :
  loop2 (S fuel) s w =
    match body2 s w with
    | Continue s' w' => loop2 fuel s' w'
    | r => Some r
    end.
Proof. reflexivity. Qed.

Lemma descend n : forall (j k : nat) w,
  (j <= 17)%nat -> (k <= 11)%nat -> n = (j + (11 - k))%nat ->
  exists d wl w3,
    att2 (Search 10 (scale_level 11)) wl = inr (d, w3) /\
    max_size_bytes < Z.of_N (getsize P d) /\
    forall fuel, (S n <= fuel)%nat ->
      loop2 fuel (Search (10 + 5 * Z.of_nat j) (scale_level k)) w
      = Some (Return (false, Z.of_N (getsize P d))
                (move (temp_of output_path) output_path w3)).
Proof.
  induction n as [|n IH]; intros j k w Hj Hk Hn.
  - assert (j = 0%nat) by lia. assert (k = 11%nat) by lia. subst j k.
    destruct (too_large _ w (within_limits_at 0 11 Hj Hk)) as (d & w3 & Hatt & Hsz).
    exists d, w, w3. split; [exact Hatt|]. split; [exact Hsz|].
    intros [|fuel] Hf; [lia|].
    rewrite while_true_S, (loop_body_too_large _ _ _ _ Hatt Hsz).
    cbn [quality scale_factor].
    change (scale_level 11 * Py.f_0_9)%float with (scale_level 12).
    rewrite scale_level_12. reflexivity.
  - destruct (too_large _ w (within_limits_at j k Hj Hk)) as (d & w3 & Hatt & Hsz).
    destruct j as [|j].
    + assert (Hk' : (k < 11)%nat) by lia.
      destruct (IH 0%nat (S k) (remove_if_exists (temp_of output_path) w3)
                  ltac:(lia) ltac:(lia) ltac:(lia)) as (d' & wl & w3' & Ha & Hs & Hrun).
      exists d', wl, w3'. split; [exact Ha|]. split; [exact Hs|].
      intros [|fuel] Hf; [lia|].
      rewrite while_true_S, (loop_body_too_large _ _ _ _ Hatt Hsz).
      cbn [quality scale_factor].
      change (scale_level k * Py.f_0_9)%float with (scale_level (S k)).
      rewrite (scale_level_below k Hk').
      change (10 <? 10 + 5 * Z.of_nat 0) with false. cbv iota.
      apply Hrun. lia.
    + destruct (IH j k (remove_if_exists (temp_of output_path) w3)
                  ltac:(lia) ltac:(lia) ltac:(lia)) as (d' & wl & w3' & Ha & Hs & Hrun).
      exists d', wl, w3'. split; [exact Ha|]. split; [exact Hs|].
      intros [|fuel] Hf; [lia|].
      rewrite while_true_S, (loop_body_too_large _ _ _ _ Hatt Hsz).
      cbn [quality scale_factor].
      destruct (Z.ltb_spec 10 (10 + 5 * Z.of_nat (S j))); [|lia].
      replace (10 + 5 * Z.of_nat (S j) - 5) with (10 + 5 * Z.of_nat j) by lia.
      apply Hrun. lia.
Qed.

End Loop2.

(** C6 (as the code has it).  If every attempt the search can make on the
    image resamples and encodes without raising, and gives a file larger
    than [max], the search ends after 28 passes, when scale has dropped
    below 0.3: it returns [(False, size)] for the file encoded last (quality
    10, scale [0.9^11]), and that non-empty file is at the output path. *)
Theorem ceiling_out_of_reach_returns_false_and_keeps_last_file
    (P : PIL) (input_path output_path : string) (band : Z * Z)
    (w : world P) (img : image P) :
  0 <= band.2 ->
  fs w !! input_path ≫= decode P = Some img ->
  let format := format_or_jpeg (img_format P img) in
  let width := (img_size P img).1 in
  let height := (img_size P img).2 in
  (forall s w1, within_limits s ->
     exists d w3,
       attempt P img format width height output_path s w1 = inr (d, w3) /\
       band.2 * 1024 < Z.of_N (getsize P d)) ->
  exists d w1 w3,
    attempt P img format width height output_path
      (Search 10 (scale_level 11)) w1 = inr (d, w3) /\
    0 < Z.of_N (getsize P d) /\
    forall fuel, (28 <= fuel)%nat ->
      exists w',
        resize_image P fuel input_path output_path band w
        = Some ((false, Z.of_N (getsize P d)), w') /\
        fs w' !! output_path = Some d.
Proof.
  intros Hmax Hdec format width height Hbig.
  destruct (descend P img format width height (band.1 * 1024) (band.2 * 1024)
              output_path Hbig 27 16 0 (log (call_open input_path) w)
              ltac:(lia) ltac:(lia) ltac:(lia))
    as (d & wl & w3 & Hatt & Hsz & Hrun).
  exists d, wl, w3. split; [exact Hatt|]. split; [lia|].
  intros fuel Hf. eexists. split.
  - rewrite (resize_image_decoded _ _ _ _ _ _ _ Hdec).
    fold format width height.
    change initial with (Search (10 + 5 * Z.of_nat 16) (scale_level 0)).
    rewrite (Hrun fuel Hf). reflexivity.
  - apply move_lookup. eapply attempt_writes. exact Hatt.
Qed.

(** *** Where the search does end *)

Section NeverUnder.
Context (P : PIL) (img : image P) (format : string) (width height : Z).
Context (min_size_bytes max_size_bytes : Z) (output_path : string).

Hypothesis never_under : forall s w d w3,
  within_limits s ->
  attempt P img format width height output_path s w = inr (d, w3) ->
  min_size_bytes <= Z.of_N (getsize P d).



End NeverUnder.


(** *** Resampling *)

Lemma int_of_float_is_trunc f z : Py.int_of_float f = Some z -> is_trunc f z.
Proof.
  unfold Py.int_of_float, is_trunc, Py.trunc_finite.
  destruct (Prim2SF f) as [s|s| |s m e]; try discriminate; intros [= <-]; [reflexivity|].
  assert (Ha : exists a, 0 <= a /\
                 a = match e with
                     | Zneg p => Z.shiftr (Zpos m) (Zpos p)
                     | _ => Z.shiftl (Zpos m) e
                     end /\
                 a * 2 ^ Z.max (- e) 0 <= Zpos m * 2 ^ Z.max e 0
                   < (a + 1) * 2 ^ Z.max (- e) 0).
  { eexists. split; [|split; [reflexivity|]].
    - destruct e; [apply Z.shiftl_nonneg | apply Z.shiftl_nonneg
                  | apply Z.shiftr_nonneg]; lia.
    - destruct e as [|p|p].
      + rewrite Z.shiftl_0_r. change (Z.max (- 0) 0) with 0.
        change (Z.max 0 0) with 0. rewrite Z.pow_0_r. lia.
      + rewrite Z.shiftl_mul_pow2 by lia.
        replace (Z.max (- Zpos p) 0) with 0 by lia.
        replace (Z.max (Zpos p) 0) with (Zpos p) by lia. lia.
      + rewrite Z.shiftr_div_pow2 by lia.
        replace (Z.max (- Zneg p) 0) with (Zpos p) by lia.
        replace (Z.max (Zneg p) 0) with 0 by lia.
        assert (Hp : 0 < 2 ^ Zpos p) by (apply Z.pow_pos_nonneg; lia).
        pose proof (Z.div_mod (Zpos m) (2 ^ Zpos p) ltac:(lia)).
        pose proof (Z.mod_pos_bound (Zpos m) (2 ^ Zpos p) Hp).
        nia. }
  destruct Ha as (a & Ha0 & <- & Hb).
  destruct s.
  - rewrite Z.abs_opp, Z.abs_eq by lia. split; [lia | exact Hb].
  - rewrite Z.abs_eq by lia. split; [lia | exact Hb].
Qed.

Section Calls.
Context (P : PIL) (img : image P) (format : string) (width height : Z).
Context (min_size_bytes max_size_bytes : Z) (output_path : string).

Lemma calls_move (src dst : string) (w : world P) : calls (move src dst w) = calls w.
Proof. unfold move. destruct (fs w !! src); reflexivity. Qed.

(** Every step after [attempt] leaves the call history alone. *)
Lemma loop_body_calls s w :
  calls (world_of (loop_body P img format width height min_size_bytes
                     max_size_bytes output_path s w))
  = match attempt P img format width height output_path s w with
    | inl w' => calls w'
    | inr (_, w3) => calls w3
    end.
Proof.
  unfold loop_body.
  destruct (attempt _ _ _ _ _ _ _ _) as [w'|[d w3]]; [reflexivity|].
  repeat match goal with
         | |- context [if ?c then _ else _] => destruct c
         end; simpl; rewrite ?calls_move; reflexivity.
Qed.

End Calls.

(** C4 (as the code has it).  In a pass where [scale_factor < 1.0] the image
    is resampled with the Lanczos filter to
    [(int(width * scale), int(height * scale))]: each dimension is the
    product with its fractional part dropped, not rounded; that [resize] is
    the first Pillow call of the pass.  In a pass where [scale_factor] is not
    below 1.0 the decoded image itself is encoded and the only Pillow call is
    the [save]. *)
Theorem resample_dims_are_truncated
    (P : PIL) (img : image P) (format : string) (width height : Z)
    (min_size_bytes max_size_bytes : Z) (output_path : string)
    (s : search) (w : world P) :
  let pass := loop_body P img format width height min_size_bytes
                max_size_bytes output_path s w in
  if (scale_factor s <? Py.f_1_0)%float then
    forall new_width new_height,
      Py.int_of_float (Py.float_of_Z width * scale_factor s) = Some new_width ->
      Py.int_of_float (Py.float_of_Z height * scale_factor s) = Some new_height ->
      is_trunc (Py.float_of_Z width * scale_factor s) new_width /\
      is_trunc (Py.float_of_Z height * scale_factor s) new_height /\
      resized_img P img width height s w
      = (img_resize P img (new_width, new_height) LANCZOS,
         log (call_resize new_width new_height LANCZOS) w) /\
      exists rest,
        calls_since w pass = call_resize new_width new_height LANCZOS :: rest
  else
    resized_img P img width height s w = (Some img, w) /\
    exists rest,
      calls_since w pass
      = call_save (temp_of output_path) format (quality s) :: rest.
Proof.
  intros pass. unfold calls_since, pass. rewrite loop_body_calls.
  unfold attempt, resized_img.
  destruct (scale_factor s <? Py.f_1_0)%float.
  - intros nw nh Hw Hh. rewrite Hw, Hh.
    split; [apply int_of_float_is_trunc; exact Hw|].
    split; [apply int_of_float_is_trunc; exact Hh|].
    split; [reflexivity|].
    destruct (img_resize P img (nw, nh) LANCZOS) as [buf|].
    + destruct (encode P buf format (quality s)); simpl;
        rewrite <- app_assoc, drop_app_length; eexists; reflexivity.
    + simpl. rewrite drop_app_length. eexists; reflexivity.
  - split; [reflexivity|].
    destruct (encode P img format (quality s)); simpl;
      rewrite drop_app_length; eexists; reflexivity.
Qed.

(** C4, as stated, fails: an 11 x 11 image at scale 0.9 is resampled to
    9 x 9, where rounding 9.9 gives 10 x 10. *)
Lemma resample_dims_are_not_rounded :
  let P := Synthetic.pil Synthetic.by_area in
  let w := Synthetic.one_photo Synthetic.by_area 11 11 in
  calls_since w (loop_body P (11, 11) "JPEG" 11 11 0 0 "/out/a.jpg"
                   (Search 10 (scale_level 1)) w)
  = [call_resize 9 9 LANCZOS; call_save "/out/a.jpg.temp" "JPEG" 10] /\
  Spec.resample_dims 11 11 (scale_level 1) = Some (10, 10).
Proof. split; reflexivity. Qed.

(** C6, as stated, fails on an image with a side of 3 pixels or less.
    Every file the search encodes is larger than max, but at scale [0.9^11]
    the side becomes [int(3 * 0.3138...) = 0], [img.resize] raises, and
    [resize_image] returns [(False, 0)] with no file at the output path. *)
Lemma tiny_image_leaves_no_output_file :
  let P := Synthetic.pil Synthetic.by_area in
  let w := Synthetic.one_photo Synthetic.by_area 3 3 in
  (forall i q, 0 < i.1 -> 0 < i.2 -> 0 < q ->
     (0, 0).2 * 1024 < Z.of_N (Synthetic.by_area i q)) /\
  exists w',
    resize_image P 28 "/in/a.jpg" "/out/a.jpg" (0, 0) w
    = Some ((false, 0), w') /\
    fs w' !! "/out/a.jpg"%string = None /\
    last (calls w') = Some (call_resize 0 0 LANCZOS).
Proof.
  split.
  - intros [wd ht] q Hw Hh Hq. unfold Synthetic.by_area. simpl in *.
    rewrite Z2N.id by nia. nia.
  - eexists. split; [vm_compute; reflexivity|]. split; reflexivity.
Qed.

(** *** Concrete runs *)


Lemma first_attempt_in_band_run :
  exists w',
    resize_image (pil (flat 1500)) 1 "/in/a.jpg" "/out/a.jpg" (1, 2)
      (one_photo (flat 1500) 640 480)
    = Some ((true, 1500), w') /\
    calls w' = [call_open "/in/a.jpg"; call_save "/out/a.jpg.temp" "JPEG" 90] /\
    fs w' !! "/out/a.jpg"%string = Some (Some (640, 480, 90)).
Proof.
  apply (first_attempt_in_band_needs_no_resampling (pil (flat 1500)) 0
           "/in/a.jpg" "/out/a.jpg" (1, 2) (one_photo (flat 1500) 640 480)
           (640, 480) (Some (640, 480, 90))).
  - reflexivity.
  - reflexivity.
  - simpl. lia.
Defined.

Lemma second_pass_in_range :
  (10 <= 85 <= 95 /\ 85 mod 5 = 0) /\
  (0 <? Py.f_1_0)%float = true /\ (Py.f_1_0 <=? Py.f_1_0)%float = true.
Proof.
  eapply (quality_and_scale_stay_in_range (pil by_area) (11, 11) "JPEG" 11 11
            0 0 "/out/a.jpg" (one_photo by_area 11 11) (Search 85 Py.f_1_0)).
  eapply reaches_pass; [|apply reaches_here]. reflexivity.
Defined.

Lemma under_minimum_at_95_run :
  exists k, forall fuel, (k <= fuel)%nat ->
    exists w',
      resize_image (pil by_area) fuel "/in/a.jpg" "/out/a.jpg" (20, 30)
        (one_photo by_area 11 11)
      = Some ((true, 11495), w') /\
      fs w' !! "/out/a.jpg"%string = Some (Some (11, 11, 95)).
Proof.
  eapply (proj1 (achieved_iff_in_band_or_under_min_at_95 (pil by_area)
                   "/in/a.jpg" "/out/a.jpg" (20, 30) (one_photo by_area 11 11)
                   (11, 11) ltac:(simpl; lia) eq_refl)
            (Search 95 Py.f_1_0) _ (Some (11, 11, 95))).
  - eapply reaches_pass; [|apply reaches_here]. reflexivity.
  - reflexivity.
  - right. simpl. split; [lia | reflexivity].
Defined.

Ltac eval_floats :=
  repeat match goal with
         | |- context [Py.int_of_float ?f] =>
             let v := eval vm_compute in (Py.int_of_float f) in
             change (Py.int_of_float f) with v
         | |- context [PrimFloat.ltb ?a ?b] =>
             let v := eval vm_compute in (PrimFloat.ltb a b) in
             change (PrimFloat.ltb a b) with v
         end.

Lemma by_area_never_fits s (w1 : world (pil by_area)) :
  within_limits s ->
  exists d w3,
    attempt (pil by_area) (11, 11) "JPEG" 11 11 "/out/a.jpg" s w1 = inr (d, w3) /\
    0 * 1024 < Z.of_N (getsize (pil by_area) d).
Proof.
  destruct s as [q sc]. intros [[Hq _] (k & Hk & Hs)]. simpl in Hq, Hs. subst sc.
  unfold attempt, resized_img. cbn [scale_factor quality].
  do 12 (destruct k as [|k];
         [eval_floats; eexists; eexists; split; [reflexivity|];
          simpl; unfold by_area; simpl; rewrite Z2N.id by lia; lia|]).
  lia.
Qed.

Lemma ceiling_out_of_reach_run :
  exists d w1 w3,
    attempt (pil by_area) (11, 11) "JPEG" 11 11 "/out/a.jpg"
      (Search 10 (scale_level 11)) w1 = inr (d, w3) /\
    0 < Z.of_N (getsize (pil by_area) d) /\
    forall fuel, (28 <= fuel)%nat ->
      exists w',
        resize_image (pil by_area) fuel "/in/a.jpg" "/out/a.jpg" (0, 0)
          (one_photo by_area 11 11)
        = Some ((false, Z.of_N (getsize (pil by_area) d)), w') /\
        fs w' !! "/out/a.jpg"%string = Some d.
Proof.
  apply (ceiling_out_of_reach_returns_false_and_keeps_last_file (pil by_area)
           "/in/a.jpg" "/out/a.jpg" (0, 0) (one_photo by_area 11 11) (11, 11)).
  - simpl. lia.
  - reflexivity.
  - intros s w1 Hs. apply by_area_never_fits. exact Hs.
Defined.

Lemma resample_dims_run :
  is_trunc (Py.float_of_Z 11 * scale_level 1) 9 /\
  is_trunc (Py.float_of_Z 11 * scale_level 1) 9 /\
  resized_img (pil by_area) (11, 11) 11 11 (Search 10 (scale_level 1))
    (one_photo by_area 11 11)
  = (Some (9, 9), log (call_resize 9 9 LANCZOS) (one_photo by_area 11 11)) /\
  exists rest,
    calls_since (one_photo by_area 11 11)
      (loop_body (pil by_area) (11, 11) "JPEG" 11 11 0 0 "/out/a.jpg"
         (Search 10 (scale_level 1)) (one_photo by_area 11 11))
    = call_resize 9 9 LANCZOS :: rest.
Proof.
  apply (resample_dims_are_truncated (pil by_area) (11, 11) "JPEG" 11 11 0 0
           "/out/a.jpg" (Search 10 (scale_level 1)) (one_photo by_area 11 11)
           9 9); reflexivity.
Defined.

(** ** The batch loop *)

Lemma opens_app l1 l2 : opens (l1 ++ l2) = opens l1 ++ opens l2.
Proof. unfold opens. apply omap_app. Qed.

Section Opens.
Context (P : PIL) (img : image P) (format : string) (width height : Z).
Context (min_size_bytes max_size_bytes : Z) (output_path : string).

Lemma attempt_opens s (w : world P) :
  opens (match attempt P img format width height output_path s w with
         | inl w' => calls w'
         | inr (_, w3) => calls w3
         end) = opens (calls w).
Proof.
  unfold attempt, resized_img.
  destruct (scale_factor s <? Py.f_1_0)%float.
  - destruct (Py.int_of_float _) as [nw|]; [|reflexivity].
    destruct (Py.int_of_float _) as [nh|]; [|reflexivity].
    destruct (img_resize P img (nw, nh) LANCZOS) as [buf|].
    + destruct (encode P buf format (quality s)); simpl;
        rewrite !opens_app; simpl; rewrite !app_nil_r; reflexivity.
    + simpl. rewrite opens_app. simpl. rewrite app_nil_r. reflexivity.
  - destruct (encode P img format (quality s)); simpl;
      rewrite opens_app; simpl; rewrite app_nil_r; reflexivity.
Qed.

Lemma while_true_opens fuel : forall s (w : world P) f,
  while_true P fuel img format width height min_size_bytes max_size_bytes
    output_path s w = Some f ->
  opens (calls (world_of f)) = opens (calls w).
Proof.
  induction fuel as [|fuel IH]; intros s w f; simpl; [discriminate|].
  pose proof (loop_body_calls P img format width height min_size_bytes
                max_size_bytes output_path s w) as Hc.
  pose proof (attempt_opens s w) as Ho. rewrite <- Hc in Ho.
  destruct (loop_body _ _ _ _ _ _ _ _ _ _) as [s' w'|r w'|w'] eqn:Hb.
  - intros H. rewrite (IH _ _ _ H). exact Ho.
  - intros [= <-]. exact Ho.
  - intros [= <-]. exact Ho.
Qed.

End Opens.

Lemma resize_image_opens (P : PIL) fuel input_path output_path band
    (w : world P) r w' :
  resize_image P fuel input_path output_path band w = Some (r, w') ->
  opens (calls w') = opens (calls w) ++ [input_path].
Proof.
  unfold resize_image.
  destruct (fs w !! input_path ≫= decode P) as [img|].
  - destruct (img_size P img) as [width height].
    destruct (while_true _ _ _ _ _ _ _ _ _ _ _) as [f|] eqn:Hw; [|discriminate].
    apply while_true_opens in Hw. simpl in Hw. rewrite opens_app in Hw.
    destruct f; try discriminate; intros [= <- <-]; exact Hw.
  - intros [= <- <-]. simpl. apply opens_app.
Qed.

Lemma resize_image_undecodable (P : PIL) fuel input_path output_path band
    (w : world P) :
  fs w !! input_path ≫= decode P = None ->
  resize_image P fuel input_path output_path band w
  = Some ((false, 0), log (call_open input_path) w).
Proof. intros H. unfold resize_image. rewrite H. reflexivity. Qed.

Section Batch.
Context (P : PIL) (fuel : nat) (stops : nat -> bool).

Abbreviation iterate := (for_files P fuel stops).

Lemma observe_quiet i (st : state P) : stops i = false -> observe P stops i st = st.
Proof. intros H. unfold observe. rewrite H. reflexivity. Qed.

(** With no file passing the extension test, the loop changes nothing in
    what it has built up. *)
Lemma for_files_none_supported rest : forall i (st : state P),
  Forall (fun f => supported f = false) rest ->
  exists st', iterate i rest st = Some (Finished st') /\
    results st' = results st /\ emitted st' = emitted st /\
    outside st' = outside st.
Proof.
  induction rest as [|f rest IH]; intros i st Hall.
  - exists st. auto.
  - inversion Hall as [|? ? Hf Hrest]; subst. simpl.
    assert (Hobs : results (observe P stops i st) = results st /\
                   emitted (observe P stops i st) = emitted st /\
                   outside (observe P stops i st) = outside st).
    { unfold observe. destruct (stops i); auto. }
    destruct Hobs as (Hr & He & Ho).
    destruct (running (self (observe P stops i st))); simpl.
    + rewrite Hf. simpl.
      destruct (IH (S i) (observe P stops i st) Hrest) as (st' & Hrun & Hr' & He' & Ho').
      exists st'. rewrite Hrun. repeat split; congruence.
    + eexists. split; [reflexivity|]. auto.
Qed.

(** One iteration on a file that passes the extension test. *)
Lemma for_files_supported i f rest (st : state P) success file_size w' progress :
  running (self st) = true -> stops i = false -> supported f = true ->
  resize_image P fuel f (PosixPath.join (output_dir (self st)) (PosixPath.basename f))
    (target_size_kb (self st)) (outside st) = Some ((success, file_size), w') ->
  progress_of i (length (files (self st))) = Some progress ->
  iterate i (f :: rest) st =
  iterate (S i) rest
    (State (self st)
       (results st ++ [(f, PosixPath.join (output_dir (self st)) (PosixPath.basename f),
                        success, file_size)])
       (emitted st ++ [progress_updated progress;
                       file_processed (PosixPath.basename f) success file_size])
       w').
Proof.
  intros Hrun Hstop Hsup Hres Hprog. simpl.
  rewrite (observe_quiet _ _ Hstop), Hrun, Hsup. simpl.
  rewrite Hres, Hprog. reflexivity.
Qed.

Lemma for_files_unsupported i f rest (st : state P) :
  running (self st) = true -> stops i = false -> supported f = false ->
  iterate i (f :: rest) st = iterate (S i) rest st.
Proof.
  intros Hrun Hstop Hsup. simpl.
  rewrite (observe_quiet _ _ Hstop), Hrun, Hsup. reflexivity.
Qed.


Lemma supported_from_length rest : forall i,
  length (supported_from i rest) = length (filter (fun f => supported f = true) rest).
Proof.
  induction rest as [|f rest IH]; intros i; [reflexivity|]. simpl.
  destruct (supported f) eqn:Hf.
  - rewrite filter_cons_True by exact Hf. simpl. rewrite IH. reflexivity.
  - rewrite filter_cons_False by congruence. apply IH.
Qed.

(** A stretch of the loop during which [stop()] is not called: every file is
    looked at, and what the loop has built up grows by one row, two signals
    and one [Image.open] per file that passes the extension test. *)
Lemma for_files_uninterrupted rest : forall i (st : state P) e,
  running (self st) = true ->
  (forall j, (i <= j < i + length rest)%nat -> stops j = false) ->
  (i + length rest <= length (files (self st)))%nat ->
  Z.of_nat (length (files (self st))) < 2 ^ 53 ->
  iterate i rest st = Some e ->
  exists st' rows ps,
    e = Finished st' /\ self st' = self st /\
    results st' = results st ++ rows /\
    (fun r : row => r.1.1.1) <$> rows = filter (fun f => supported f = true) rest /\
    Some <$> ps = (fun j => progress_of j (length (files (self st))))
                    <$> supported_from i rest /\
    emitted st' = emitted st ++ concat (zip_with signals_of ps rows) /\
    opens (calls (outside st'))
    = opens (calls (outside st)) ++ filter (fun f => supported f = true) rest.
Proof.
  induction rest as [|f rest IH]; intros i st e Hrun Hstops Hlen Hbound Hit.
  - simpl in Hit. injection Hit as <-. exists st, [], [].
    simpl. rewrite !app_nil_r. repeat split; reflexivity.
  - simpl in Hlen.
    assert (Hstop : stops i = false) by (apply Hstops; simpl; lia).
    assert (Hstops' : forall j, (S i <= j < S i + length rest)%nat -> stops j = false).
    { intros j Hj. apply Hstops. simpl. lia. }
    assert (Hlen' : (S i + length rest <= length (files (self st)))%nat) by lia.
    assert (Hi : (i < length (files (self st)))%nat) by lia.
    destruct (supported f) eqn:Hf.
    + destruct (resize_image P fuel f
                  (PosixPath.join (output_dir (self st)) (PosixPath.basename f))
                  (target_size_kb (self st)) (outside st))
        as [[[success file_size] w']|] eqn:Hres.
      2:{ simpl in Hit. rewrite (observe_quiet _ _ Hstop), Hrun, Hf in Hit.
          simpl in Hit. rewrite Hres in Hit. discriminate. }
      destruct (progress_of_total i (length (files (self st))) Hi Hbound)
        as [progress Hprog].
      rewrite (for_files_supported _ _ _ _ _ _ _ _ Hrun Hstop Hf Hres Hprog) in Hit.
      destruct ((fun H1 H2 H3 H4 => IH _ _ _ H1 H2 H3 H4 Hit) Hrun Hstops' Hlen' Hbound)
        as (st' & rows & ps & -> & Hself & Hrows & Hpaths & Hps & Hem & Hop).
      cbn [self results emitted outside] in Hself, Hrows, Hps, Hem, Hop.
      eexists st', (_ :: rows), (progress :: ps).
      split; [reflexivity|]. split; [exact Hself|].
      split; [rewrite Hrows, <- app_assoc; reflexivity|].
      split; [rewrite filter_cons_True by exact Hf; rewrite fmap_cons, Hpaths;
              reflexivity|].
      split; [cbn [supported_from]; rewrite Hf, !fmap_cons, Hps, Hprog;
              reflexivity|].
      split; [rewrite Hem, <- app_assoc; reflexivity|].
      rewrite Hop, (resize_image_opens _ _ _ _ _ _ _ _ Hres), <- app_assoc.
      rewrite filter_cons_True by exact Hf. reflexivity.
    + rewrite (for_files_unsupported _ _ _ _ Hrun Hstop Hf) in Hit.
      destruct ((fun H1 H2 H3 H4 => IH _ _ _ H1 H2 H3 H4 Hit) Hrun Hstops' Hlen' Hbound)
        as (st' & rows & ps & -> & Hself & Hrows & Hpaths & Hps & Hem & Hop).
      exists st', rows, ps.
      rewrite filter_cons_False by congruence. cbn [supported_from]. rewrite Hf.
      repeat split; assumption.
Qed.

(** If every search returns within the fuel, so does such a stretch. *)
Lemma for_files_returns rest : forall i (st : state P),
  running (self st) = true ->
  (forall j, (i <= j < i + length rest)%nat -> stops j = false) ->
  (i + length rest <= length (files (self st)))%nat ->
  Z.of_nat (length (files (self st))) < 2 ^ 53 ->
  (forall input_path output_path w,
     is_Some (resize_image P fuel input_path output_path
                (target_size_kb (self st)) w)) ->
  is_Some (iterate i rest st).
Proof.
  induction rest as [|f rest IH]; intros i st Hrun Hstops Hlen Hbound Hret.
  - simpl. eauto.
  - simpl in Hlen.
    assert (Hstop : stops i = false) by (apply Hstops; simpl; lia).
    assert (Hstops' : forall j, (S i <= j < S i + length rest)%nat -> stops j = false).
    { intros j Hj. apply Hstops. simpl. lia. }
    assert (Hlen' : (S i + length rest <= length (files (self st)))%nat) by lia.
    assert (Hi : (i < length (files (self st)))%nat) by lia.
    destruct (supported f) eqn:Hf.
    + destruct (Hret f (PosixPath.join (output_dir (self st)) (PosixPath.basename f))
                  (outside st)) as [[[success file_size] w'] Hres].
      destruct (progress_of_total i (length (files (self st))) Hi Hbound)
        as [progress Hprog].
      rewrite (for_files_supported _ _ _ _ _ _ _ _ Hrun Hstop Hf Hres Hprog).
      apply IH; auto.
    + rewrite (for_files_unsupported _ _ _ _ Hrun Hstop Hf).
      apply IH; auto.
Qed.

(** When [stop()] is called right after the files [pre] have been handled,
    the loop ends there, whatever files follow. *)
Lemma for_files_stopped pre : forall i (st : state P) post e,
  running (self st) = true ->
  (forall j, (i <= j < i + length pre)%nat -> stops j = false) ->
  stops (i + length pre)%nat = true ->
  (i + length pre <= length (files (self st)))%nat ->
  Z.of_nat (length (files (self st))) < 2 ^ 53 ->
  iterate i pre st = Some e ->
  exists st', iterate i (pre ++ post) st = Some (Finished st') /\
    results st' = results (state_of e) /\
    emitted st' = emitted (state_of e) /\
    outside st' = outside (state_of e).
Proof.
  induction pre as [|f pre IH]; intros i st post e Hrun Hstops Hstop' Hlen Hbound Hit.
  - simpl in Hit. injection Hit as <-.
    replace (i + length (@nil string))%nat with i in Hstop' by (simpl; lia).
    destruct post as [|g post]; simpl.
    + exists st. auto.
    + unfold observe. rewrite Hstop'. simpl. eexists. split; [reflexivity|]. auto.
  - simpl in Hlen.
    assert (Hstop : stops i = false) by (apply Hstops; simpl; lia).
    assert (Hstops' : forall j, (S i <= j < S i + length pre)%nat -> stops j = false).
    { intros j Hj. apply Hstops. simpl. lia. }
    assert (Hlen' : (S i + length pre <= length (files (self st)))%nat) by lia.
    assert (Hi : (i < length (files (self st)))%nat) by lia.
    assert (Hstop'' : stops (S i + length pre)%nat = true).
    { replace (S i + length pre)%nat with (i + length (f :: pre))%nat by (simpl; lia).
      exact Hstop'. }
    rewrite <- app_comm_cons.
    destruct (supported f) eqn:Hf.
    + destruct (resize_image P fuel f
                  (PosixPath.join (output_dir (self st)) (PosixPath.basename f))
                  (target_size_kb (self st)) (outside st))
        as [[[success file_size] w']|] eqn:Hres.
      2:{ simpl in Hit. rewrite (observe_quiet _ _ Hstop), Hrun, Hf in Hit.
          simpl in Hit. rewrite Hres in Hit. discriminate. }
      destruct (progress_of_total i (length (files (self st))) Hi Hbound)
        as [progress Hprog].
      rewrite (for_files_supported _ _ _ _ _ _ _ _ Hrun Hstop Hf Hres Hprog) in Hit.
      rewrite (for_files_supported _ _ _ _ _ _ _ _ Hrun Hstop Hf Hres Hprog).
      apply ((fun H1 H2 H3 H4 H5 => IH _ _ post e H1 H2 H3 H4 H5 Hit)
               Hrun Hstops' Hstop'' Hlen' Hbound).
    + rewrite (for_files_unsupported _ _ _ _ Hrun Hstop Hf) in Hit.
      rewrite (for_files_unsupported _ _ _ _ Hrun Hstop Hf).
      apply ((fun H1 H2 H3 H4 H5 => IH _ _ post e H1 H2 H3 H4 H5 Hit)
               Hrun Hstops' Hstop'' Hlen' Hbound).
Qed.

End Batch.

Lemma progress_values_app l1 l2 :
  progress_values (l1 ++ l2) = progress_values l1 ++ progress_values l2.
Proof. unfold progress_values. apply omap_app. Qed.

Lemma completions_app l1 l2 :
  completions (l1 ++ l2) = completions l1 ++ completions l2.
Proof. unfold completions. apply omap_app. Qed.

Lemma progress_values_signals ps : forall rows : list row,
  length ps = length rows ->
  progress_values (concat (zip_with signals_of ps rows)) = ps.
Proof.
  induction ps as [|p ps IH]; intros [|[[[path out] ok] sz] rows] Hlen;
    try discriminate; [reflexivity|].
  simpl. rewrite IH by (simpl in Hlen; lia). reflexivity.
Qed.

Lemma completions_signals ps : forall rows : list row,
  completions (concat (zip_with signals_of ps rows)) = [].
Proof.
  induction ps as [|p ps IH]; intros [|[[[path out] ok] sz] rows];
    try reflexivity.
  simpl. apply IH.
Qed.

Lemma supported_from_last rest : forall i f,
  last rest = Some f -> supported f = true ->
  last (supported_from i rest) = Some (i + length rest - 1)%nat.
Proof.
  induction rest as [|g rest IH]; intros i f Hlast Hf; [discriminate|].
  destruct rest as [|h rest].
  - simpl in Hlast. injection Hlast as ->. simpl. rewrite Hf. simpl.
    f_equal. lia.
  - change (last (g :: h :: rest)) with (last (h :: rest)) in Hlast.
    specialize (IH (S i) f Hlast Hf).
    cbn [supported_from] in *. destruct (supported g).
    + destruct (supported h);
        (rewrite last_cons, IH; f_equal; simpl; lia).
    + rewrite IH. f_equal. simpl. lia.
Qed.

Lemma results_grow (P : PIL) fuel stops rest : forall i (st : state P) e,
  for_files P fuel stops i rest st = Some e ->
  results st `prefix_of` results (state_of e).
Proof.
  induction rest as [|f rest IH]; intros i st e; simpl.
  - intros [= <-]. reflexivity.
  - assert (Hobs : results (observe P stops i st) = results st).
    { unfold observe. destruct (stops i); reflexivity. }
    destruct (running (self (observe P stops i st))); simpl.
    + destruct (supported f); simpl.
      * destruct (resize_image _ _ _ _ _ _) as [[[success file_size] w']|];
          [|discriminate].
        destruct (progress_of _ _).
        -- intros H. apply IH in H. simpl in H. rewrite Hobs in H.
           etransitivity; [|exact H]. apply prefix_app_r. reflexivity.
        -- intros [= <-]. simpl. rewrite Hobs. apply prefix_app_r. reflexivity.
      * intros H. apply IH in H. rewrite Hobs in H. exact H.
    + intros [= <-]. simpl. rewrite Hobs. reflexivity.
Qed.

(** C10.  When no file passes the extension test (the list may be empty),
    [run] emits [resize_completed] with an empty list and nothing else, and
    touches neither Pillow nor the disk. *)
Theorem no_supported_file_only_completion
    (P : PIL) (fuel : nat) (stops : nat -> bool) (files : list string)
    (output_dir : string) (band : Z * Z) (running : bool) (o : world P) :
  Forall (fun f => supported f = false) files ->
  exists st,
    run P fuel stops (Worker files output_dir band running) o
    = Some (Finished st) /\
    results st = [] /\
    emitted st = [resize_completed []] /\
    outside st = o.
Proof.
  intros Hall. unfold run.
  destruct (for_files_none_supported P fuel stops files 0
              (State (Worker files output_dir band running) [] [] o) Hall)
    as (st' & Hrun & Hr & He & Ho).
  eexists. split; [unfold run; cbn [ResizeWorker.files]; rewrite Hrun; reflexivity|].
  simpl. rewrite Hr, He, Ho. auto.
Qed.

Lemma supported_from_bounds rest : forall i k j,
  supported_from i rest !! k = Some j -> (i <= j < i + length rest)%nat.
Proof.
  induction rest as [|f rest IH]; intros i k j; simpl; [discriminate|].
  destruct (supported f).
  - destruct k as [|k]; simpl.
    + intros [= <-]. lia.
    + intros H. apply IH in H. lia.
  - intros H. apply IH in H. lia.
Qed.

Lemma supported_from_increasing rest : forall i k1 k2 j1 j2,
  (k1 <= k2)%nat ->
  supported_from i rest !! k1 = Some j1 ->
  supported_from i rest !! k2 = Some j2 ->
  (j1 <= j2)%nat.
Proof.
  induction rest as [|f rest IH]; intros i k1 k2 j1 j2 Hk; simpl; [discriminate|].
  destruct (supported f); [|apply IH; exact Hk].
  destruct k1 as [|k1], k2 as [|k2]; simpl; try lia.
  - intros [= <-] [= <-]. lia.
  - intros [= <-] H. apply supported_from_bounds in H. lia.
  - apply IH. lia.
Qed.

(** The percentages of the files that pass the extension test: in the order
    of the list they do not go down, and each lies between 0 and 100. *)
Lemma progress_values_ordered (paths : list string) (ps : list Z) :
  Z.of_nat (length paths) < 2 ^ 53 ->
  Some <$> ps = (fun i => progress_of i (length paths)) <$> supported_from 0 paths ->
  (forall k1 k2 p1 p2, (k1 <= k2)%nat ->
     ps !! k1 = Some p1 -> ps !! k2 = Some p2 -> p1 <= p2) /\
  (forall k p, ps !! k = Some p -> 0 <= p <= 100).
Proof.
  intros Hbound Hps.
  assert (Hat : forall k p, ps !! k = Some p ->
            exists j, supported_from 0 paths !! k = Some j /\
                      progress_of j (length paths) = Some p).
  { intros k p Hk.
    assert (H : (Some <$> ps) !! k = Some (Some p))
      by (rewrite list_lookup_fmap, Hk; reflexivity).
    rewrite Hps, list_lookup_fmap in H.
    destruct (supported_from 0 paths !! k) as [j|]; [|discriminate].
    simpl in H. exists j. split; [reflexivity | congruence]. }
  split.
  - intros k1 k2 p1 p2 Hk H1 H2.
    destruct (Hat _ _ H1) as (j1 & Hj1 & Hp1).
    destruct (Hat _ _ H2) as (j2 & Hj2 & Hp2).
    pose proof (supported_from_increasing _ _ _ _ _ _ Hk Hj1 Hj2) as Hj.
    pose proof (supported_from_bounds _ _ _ _ Hj2) as Hb.
    apply (progress_of_mono j1 j2 (length paths)); [lia | assumption..].
  - intros k p Hk. destruct (Hat _ _ Hk) as (j & Hj & Hp).
    pose proof (supported_from_bounds _ _ _ _ Hj) as Hb.
    apply (progress_of_range j (length paths)); [lia | assumption..].
Qed.

(** C2 (as the code has it).  If [stop()] is never called and the batch
    comes to its end (every search of the batch returns), [run] returns and
    has emitted [progress_updated] once per file that passes the extension
    test, right before that file's [file_processed]; the value for the file
    at index [i] of the whole list is [int((i + 1) / len(files) * 100)], the
    denominator counting every file of the list; the values do not go down
    along the batch and lie between 0 and 100; and the value is 100 for the
    last file of the list. *)
Theorem progress_follows_position_in_whole_list
    (P : PIL) (fuel : nat) (stops : nat -> bool) (files : list string)
    (output_dir : string) (band : Z * Z) (o : world P) (e : ending P) :
  Z.of_nat (length files) < 2 ^ 53 ->
  (forall j, stops j = false) ->
  run P fuel stops (Worker files output_dir band true) o = Some e ->
  exists st,
    e = Finished st /\
    length (progress_values (emitted st))
    = length (filter (fun f => supported f = true) files) /\
    Some <$> progress_values (emitted st)
    = (fun i => progress_of i (length files)) <$> supported_from 0 files /\
    (fun r : row => r.1.1.1) <$> results st
    = filter (fun f => supported f = true) files /\
    emitted st
    = concat (zip_with signals_of (progress_values (emitted st)) (results st))
      ++ [resize_completed (results st)] /\
    (forall k1 k2 p1 p2, (k1 <= k2)%nat ->
       progress_values (emitted st) !! k1 = Some p1 ->
       progress_values (emitted st) !! k2 = Some p2 -> p1 <= p2) /\
    (forall k p, progress_values (emitted st) !! k = Some p -> 0 <= p <= 100) /\
    (forall f, last files = Some f -> supported f = true ->
       last (progress_values (emitted st)) = Some 100).
Proof.
  intros Hbound Hstops Hrun. unfold run in Hrun. cbn [ResizeWorker.files] in Hrun.
  set (st0 := State (Worker files output_dir band true) [] [] o) in Hrun.
  destruct (for_files P fuel stops 0 files st0) as [e'|] eqn:He; [|discriminate].
  destruct (for_files_uninterrupted P fuel stops files 0 st0 e' eq_refl
              (fun j _ => Hstops j) (le_n _) Hbound He)
    as (st' & rows & ps & -> & _ & Hrows & Hpaths & Hps & Hem & _).
  simpl in Hrows, Hps, Hem. injection Hrun as <-.
  assert (Hlen : length ps = length rows).
  { apply (f_equal length) in Hps. apply (f_equal length) in Hpaths.
    rewrite !length_fmap in Hps. rewrite length_fmap in Hpaths.
    rewrite Hps, Hpaths. apply supported_from_length. }
  assert (Hpv : progress_values
                  (concat (zip_with signals_of ps rows) ++ [resize_completed rows])
                = ps).
  { rewrite progress_values_app, progress_values_signals by exact Hlen.
    apply app_nil_r. }
  destruct (progress_values_ordered files ps Hbound Hps) as [Hord Hrange].
  eexists. split; [reflexivity|].
  cbn [emitted results]. rewrite Hrows, Hem, Hpv.
  split; [rewrite Hlen, <- Hpaths, length_fmap; reflexivity|].
  split; [exact Hps|]. split; [exact Hpaths|]. split; [reflexivity|].
  split; [exact Hord|]. split; [exact Hrange|].
  intros f Hlast Hf.
  pose proof (supported_from_last files 0 f Hlast Hf) as Hsl.
  apply (f_equal last) in Hps. rewrite !fmap_last, Hsl in Hps.
  assert (Hn : (0 < length files)%nat).
  { destruct files; [discriminate | simpl; lia]. }
  replace (0 + length files - 1)%nat with (length files - 1)%nat in Hps by lia.
  cbn [fmap option_fmap option_map] in Hps.
  rewrite (progress_of_last _ Hn Hbound) in Hps.
  destruct (last ps); cbn in Hps; congruence.
Qed.

(** C3 (as the code has it).  A file that passes the extension test but
    cannot be decoded is not skipped: it gets the row
    [(file_path, output_path, False, 0)] in [results] and its two signals,
    and the loop goes on with the files that follow. *)
Theorem undecodable_file_is_reported_and_batch_continues
    (P : PIL) (fuel : nat) (stops : nat -> bool) (i : nat)
    (file_path : string) (rest : list string) (st : state P) :
  running (self st) = true ->
  stops i = false ->
  supported file_path = true ->
  fs (outside st) !! file_path ≫= decode P = None ->
  (i < length (files (self st)))%nat ->
  Z.of_nat (length (files (self st))) < 2 ^ 53 ->
  let file_name := PosixPath.basename file_path in
  let output_path := PosixPath.join (output_dir (self st)) file_name in
  exists progress,
    progress_of i (length (files (self st))) = Some progress /\
    for_files P fuel stops i (file_path :: rest) st
    = for_files P fuel stops (S i) rest
        (State (self st)
           (results st ++ [(file_path, output_path, false, 0)])
           (emitted st ++ [progress_updated progress;
                           file_processed file_name false 0])
           (log (call_open file_path) (outside st))) /\
    forall e, for_files P fuel stops i (file_path :: rest) st = Some e ->
              (file_path, output_path, false, 0) ∈ results (state_of e).
Proof.
  intros Hrun Hstop Hsup Hdec Hi Hbound file_name output_path.
  destruct (progress_of_total i _ Hi Hbound) as [progress Hprog].
  exists progress. split; [exact Hprog|].
  pose proof (resize_image_undecodable P fuel file_path output_path
                (target_size_kb (self st)) (outside st) Hdec) as Hres.
  pose proof (for_files_supported P fuel stops i file_path rest st false 0 _
                progress Hrun Hstop Hsup Hres Hprog) as Hstep.
  split; [exact Hstep|].
  intros e He. rewrite Hstep in He. apply results_grow in He.
  cbn [results] in He. destruct He as [more ->].
  rewrite <- app_assoc. apply elem_of_app. right. apply elem_of_app. left.
  apply list_elem_of_singleton. reflexivity.
Qed.

(** C8.  If [stop()] is called once the files [pre] have been handled and
    before the test for the next file, [run] opens no file after [pre] and
    emits [resize_completed] once, with the rows of the files of [pre] that
    pass the extension test. *)
Theorem stop_between_files_ends_the_batch
    (P : PIL) (fuel : nat) (stops : nat -> bool) (pre post : list string)
    (output_dir : string) (band : Z * Z) (o : world P) (e : ending P) :
  Z.of_nat (length (pre ++ post)) < 2 ^ 53 ->
  (forall j, (j < length pre)%nat -> stops j = false) ->
  stops (length pre) = true ->
  for_files P fuel stops 0 pre
    (State (Worker (pre ++ post) output_dir band true) [] [] o) = Some e ->
  exists st,
    run P fuel stops (Worker (pre ++ post) output_dir band true) o
    = Some (Finished st) /\
    results st = results (state_of e) /\
    outside st = outside (state_of e) /\
    (fun r : row => r.1.1.1) <$> results st
    = filter (fun f => supported f = true) pre /\
    opens (calls (outside st))
    = opens (calls o) ++ filter (fun f => supported f = true) pre /\
    emitted st = emitted (state_of e) ++ [resize_completed (results st)] /\
    completions (emitted st) = [results st].
Proof.
  intros Hbound Hstops Hstop He.
  set (st0 := State (Worker (pre ++ post) output_dir band true) [] [] o) in *.
  assert (Hlen : (0 + length pre <= length (files (self st0)))%nat).
  { simpl. rewrite length_app. lia. }
  assert (Hstops' : forall j, (0 <= j < 0 + length pre)%nat -> stops j = false).
  { intros j Hj. apply Hstops. lia. }
  destruct (for_files_stopped P fuel stops pre 0 st0 post e eq_refl Hstops'
              Hstop Hlen Hbound He) as (st' & Hrun & Hr & Hem & Ho).
  destruct (for_files_uninterrupted P fuel stops pre 0 st0 e eq_refl Hstops'
              Hlen Hbound He)
    as (st1 & rows & ps & -> & _ & Hrows & Hpaths & _ & Hem1 & Hop).
  cbn [state_of] in *. simpl in Hrows, Hem1, Hop.
  eexists. split.
  { unfold run. cbn [files]. fold st0. rewrite Hrun. reflexivity. }
  cbn [results emitted outside].
  split; [exact Hr|]. split; [exact Ho|].
  split; [rewrite Hr, Hrows; exact Hpaths|].
  split; [rewrite Ho; exact Hop|].
  split; [rewrite Hem; reflexivity|].
  rewrite completions_app, Hem, Hem1, completions_signals. reflexivity.
Qed.

(** *** Concrete batches *)


(** C2, as stated, fails: with one image file and one text file the only
    percentage emitted is 50, where the spec's formula gives 100; and with
    100 files the 28th and the 29th both get 28. *)
Lemma progress_is_not_over_accepted_files :
  let paths := ["/in/a.jpg"; "/in/b.txt"]%string in
  exists st,
    run (pil (flat 1500)) 1 (fun _ => false) (Worker paths "/out" (1, 2) true)
      (one_photo (flat 1500) 640 480) = Some (Finished st) /\
    progress_values (emitted st) = [50] /\
    Spec.progress paths = [100] /\
    last (progress_values (emitted st)) <> Some 100 /\
    progress_of 27 100 = Some 28 /\ progress_of 28 100 = Some 28.
Proof.
  eexists. split; [reflexivity|].
  repeat split; try reflexivity. discriminate.
Qed.

(** C3, as stated, fails: the file that cannot be decoded has a row in the
    results. *)
Lemma undecodable_file_is_in_results :
  exists st,
    run (pil (flat 1500)) 1 (fun _ => false)
      (Worker ["/in/c.png"; "/in/a.jpg"]%string "/out" (1, 2) true)
      (photo_and_junk (flat 1500)) = Some (Finished st) /\
    results st = [("/in/c.png", "/out/c.png", false, 0);
                  ("/in/a.jpg", "/out/a.jpg", true, 1500)]%string.
Proof. eexists. split; reflexivity. Qed.

Lemma no_supported_file_run :
  exists st,
    run (pil (flat 1500)) 1 (fun _ => false)
      (Worker ["/in/b.txt"; "notes"]%string "/out" (1, 2) true)
      (one_photo (flat 1500) 640 480) = Some (Finished st) /\
    results st = [] /\
    emitted st = [resize_completed []] /\
    outside st = one_photo (flat 1500) 640 480.
Proof.
  apply (no_supported_file_only_completion (pil (flat 1500)) 1 (fun _ => false)
           ["/in/b.txt"; "notes"]%string "/out" (1, 2) true).
  repeat constructor.
Defined.

Lemma progress_run :
  exists st,
    run (pil (flat 1500)) 1 (fun _ => false)
      (Worker ["/in/a.jpg"; "/in/b.txt"; "/in/c.png"]%string "/out" (1, 2) true)
      (photo_and_junk (flat 1500)) = Some (Finished st) /\
    length (progress_values (emitted st)) = 2%nat /\
    progress_values (emitted st) = [33; 100] /\
    last (progress_values (emitted st)) = Some 100.
Proof.
  destruct (progress_follows_position_in_whole_list (pil (flat 1500)) 1
              (fun _ => false) ["/in/a.jpg"; "/in/b.txt"; "/in/c.png"]%string
              "/out" (1, 2) (photo_and_junk (flat 1500)) _
              ltac:(simpl; lia) ltac:(reflexivity) eq_refl)
    as (st & Hst & Hlen & _ & _ & _ & _ & _ & Hlast).
  exists st. split; [rewrite <- Hst; reflexivity|]. split; [exact Hlen|].
  split; [injection Hst as <-; reflexivity|].
  apply (Hlast "/in/c.png"%string); reflexivity.
Defined.

Lemma undecodable_file_run :
  exists progress,
    progress_of 0 2 = Some progress /\
    for_files (pil (flat 1500)) 1 (fun _ => false) 0
      ["/in/c.png"; "/in/a.jpg"]%string
      (State (Worker ["/in/c.png"; "/in/a.jpg"]%string "/out" (1, 2) true)
         [] [] (photo_and_junk (flat 1500)))
    = for_files (pil (flat 1500)) 1 (fun _ => false) 1 ["/in/a.jpg"]%string
        (State (Worker ["/in/c.png"; "/in/a.jpg"]%string "/out" (1, 2) true)
           [("/in/c.png", "/out/c.png", false, 0)]%string
           [progress_updated progress; file_processed "c.png" false 0]
           (log (call_open "/in/c.png") (photo_and_junk (flat 1500)))).
Proof.
  destruct (undecodable_file_is_reported_and_batch_continues (pil (flat 1500)) 1
              (fun _ => false) 0 "/in/c.png" ["/in/a.jpg"]%string
              (State (Worker ["/in/c.png"; "/in/a.jpg"]%string "/out" (1, 2) true)
                 [] [] (photo_and_junk (flat 1500))))
    as (progress & Hp & Hstep & _).
  - reflexivity.
  - reflexivity.
  - reflexivity.
  - reflexivity.
  - simpl. lia.
  - simpl. lia.
  - exists progress. split; [exact Hp | exact Hstep].
Defined.

Lemma stop_after_first_file_run :
  exists st,
    run (pil (flat 1500)) 1 (Nat.eqb 1)
      (Worker (["/in/a.jpg"%string] ++ ["/in/c.png"%string]) "/out" (1, 2) true)
      (photo_and_junk (flat 1500)) = Some (Finished st) /\
    (fun r : row => r.1.1.1) <$> results st = ["/in/a.jpg"%string] /\
    opens (calls (outside st)) = ["/in/a.jpg"%string] /\
    completions (emitted st) = [results st].
Proof.
  destruct (stop_between_files_ends_the_batch (pil (flat 1500)) 1 (Nat.eqb 1)
              ["/in/a.jpg"%string] ["/in/c.png"%string] "/out" (1, 2)
              (photo_and_junk (flat 1500)) _
              ltac:(simpl; lia)
              ltac:(intros [|j] Hj; [reflexivity | simpl in Hj; lia])
              eq_refl eq_refl)
    as (st & Hrun & _ & _ & Hrows & Hop & _ & Hc).
  exists st. split; [exact Hrun|]. split; [exact Hrows|]. split; [exact Hop|].
  exact Hc.
Defined.

(** * Further properties *)

(** ** More on the search: what it leaves on disk *)

Lemma string_length_app (a b : string) :
  String.length (a +:+ b) = (String.length a + String.length b)%nat.
Proof. induction a as [|c a IH]; simpl; [reflexivity | rewrite IH; reflexivity]. Qed.

Lemma temp_of_ne output_path : temp_of output_path <> output_path.
Proof.
  unfold temp_of. intros H. apply (f_equal String.length) in H.
  rewrite string_length_app in H. simpl in H. lia.
Qed.

Section Disk.
Context (P : PIL) (img : image P) (format : string) (width height : Z).
Context (min_size_bytes max_size_bytes : Z) (output_path : string).

Abbreviation temp := (temp_of output_path).

Lemma attempt_fs s (w : world P) :
  match attempt P img format width height output_path s w with
  | inl w' => fs w' = fs w
  | inr (d, w3) => fs w3 = <[temp := d]> (fs w)
  end.
Proof.
  unfold attempt, resized_img.
  destruct (scale_factor s <? Py.f_1_0)%float.
  - destruct (Py.int_of_float _) as [nw|]; [|reflexivity].
    destruct (Py.int_of_float _) as [nh|]; [|reflexivity].
    destruct (img_resize P img (nw, nh) LANCZOS) as [buf|]; [|reflexivity].
    destruct (encode P buf format (quality s)); reflexivity.
  - destruct (encode P img format (quality s)); reflexivity.
Qed.

(** What one pass does to the disk. *)
Lemma loop_body_fs s (w : world P) :
  match loop_body P img format width height min_size_bytes max_size_bytes
          output_path s w with
  | Continue _ w' => fs w' = delete temp (fs w)
  | Return r w' =>
      exists d, fs w' = <[output_path := d]> (delete temp (fs w)) /\
                r.2 = Z.of_N (getsize P d) /\
                (r.1 = false -> max_size_bytes < r.2)
  | Raise w' => fs w' = fs w
  end.
Proof.
  unfold loop_body. pose proof (attempt_fs s w) as Hatt.
  destruct (attempt _ _ _ _ _ _ _ _) as [w'|[d w3]]; [exact Hatt|].
  assert (Hmove : fs (move temp output_path w3)
                  = <[output_path := d]> (delete temp (fs w))).
  { unfold move. rewrite Hatt, lookup_insert_eq. simpl.
    rewrite delete_insert_eq. reflexivity. }
  assert (Hrem : fs (remove_if_exists temp w3) = delete temp (fs w)).
  { simpl. rewrite Hatt, delete_insert_eq. reflexivity. }
  destruct (_ && _).
  { exists d. split; [exact Hmove|]. split; [reflexivity | discriminate]. }
  destruct (Z.ltb_spec max_size_bytes (Z.of_N (getsize P d))).
  - destruct (_ <? _); [exact Hrem|].
    destruct (_ <? _)%float; [|exact Hrem].
    exists d. split; [exact Hmove|]. split; [reflexivity | intros _; assumption].
  - destruct (_ <? _); [exact Hrem|].
    exists d. split; [exact Hmove|]. split; [reflexivity | discriminate].
Qed.

(** What the whole loop does to the disk, from a disk [m]. *)
Lemma while_true_fs fuel : forall s (w : world P) m f,
  fs w = m \/ fs w = delete temp m ->
  while_true P fuel img format width height min_size_bytes max_size_bytes
    output_path s w = Some f ->
  match f with
  | Continue _ _ => False
  | Return r w' =>
      exists d, fs w' = <[output_path := d]> (delete temp m) /\
                r.2 = Z.of_N (getsize P d) /\
                (r.1 = false -> max_size_bytes < r.2)
  | Raise w' => fs w' = m \/ fs w' = delete temp m
  end.
Proof.
  induction fuel as [|fuel IH]; intros s w m f Hw; simpl; [discriminate|].
  pose proof (loop_body_fs s w) as Hb.
  destruct (loop_body _ _ _ _ _ _ _ _ _ _) as [s' w'|r w'|w'].
  - apply IH. right. rewrite Hb. destruct Hw as [-> | ->];
      [reflexivity | apply delete_delete_eq].
  - intros [= <-]. destruct Hb as (d & Hfs & Hsz). exists d. split; [|exact Hsz].
    rewrite Hfs. destruct Hw as [-> | ->]; [reflexivity|].
    rewrite delete_delete_eq. reflexivity.
  - intros [= <-]. rewrite Hb. exact Hw.
Qed.

End Disk.

(** X2.  What a returned pair says about the disk. *)
Theorem returned_pair_describes_the_output_file
    (P : PIL) (fuel : nat) (input_path output_path : string) (band : Z * Z)
    (w : world P) (success : bool) (file_size : Z) (w' : world P) :
  0 <= band.2 ->
  resize_image P fuel input_path output_path band w
  = Some ((success, file_size), w') ->
  (success = false /\ file_size = 0 /\
   fs w' !! output_path = fs w !! output_path) \/
  (exists d,
     fs w' !! output_path = Some d /\
     file_size = Z.of_N (getsize P d) /\
     fs w' !! temp_of output_path = None /\
     (success = false -> band.2 * 1024 < file_size)).
Proof.
  intros Hmax. unfold resize_image.
  destruct (fs w !! input_path ≫= decode P) as [img|].
  2:{ intros [= <- <- <-]. left. auto. }
  destruct (img_size P img) as [width height].
  destruct (while_true _ _ _ _ _ _ _ _ _ _ _) as [f|] eqn:Hw; [|discriminate].
  apply (while_true_fs _ _ _ _ _ _ _ _ _ _ _ (fs w)) in Hw; [|left; reflexivity].
  pose proof (temp_of_ne output_path) as Hne.
  destruct f as [s1 w1|r w1|w1]; [contradiction| |].
  - intros [= -> <-]. right. destruct Hw as (d & Hfs & Hsz & Hfalse).
    exists d. rewrite Hfs. split; [apply lookup_insert_eq|].
    split; [exact Hsz|]. split; [|exact Hfalse].
    rewrite lookup_insert_ne by congruence. apply lookup_delete_eq.
  - intros [= <- <- <-]. left. split; [reflexivity|]. split; [reflexivity|].
    destruct Hw as [-> | ->]; [reflexivity|]. apply lookup_delete_ne. exact Hne.
Qed.

Lemma resize_image_frame
    (P : PIL) (fuel : nat) (input_path output_path : string) (band : Z * Z)
    (w : world P) (r : bool * Z) (w' : world P) (path : string) :
  resize_image P fuel input_path output_path band w = Some (r, w') ->
  path <> output_path -> path <> temp_of output_path ->
  fs w' !! path = fs w !! path.
Proof.
  unfold resize_image. intros Hres Hout Htemp.
  destruct (fs w !! input_path ≫= decode P) as [img|].
  2:{ injection Hres as <- <-. reflexivity. }
  destruct (img_size P img) as [width height].
  destruct (while_true _ _ _ _ _ _ _ _ _ _ _) as [f|] eqn:Hw; [|discriminate].
  apply (while_true_fs _ _ _ _ _ _ _ _ _ _ _ (fs w)) in Hw; [|left; reflexivity].
  destruct f as [s1 w1|r1 w1|w1]; [contradiction| |].
  - injection Hres as <- <-. destruct Hw as (d & -> & _).
    rewrite lookup_insert_ne by congruence. apply lookup_delete_ne. congruence.
  - injection Hres as <- <-.
    destruct Hw as [-> | ->]; [reflexivity|]. apply lookup_delete_ne. congruence.
Qed.

(** X3.  The only paths [resize_image] touches are the output path and the
    temporary path beside it. *)
Theorem resize_image_touches_only_output_and_temp
    (P : PIL) (fuel : nat) (input_path output_path : string) (band : Z * Z)
    (w : world P) (r : bool * Z) (w' : world P) (path : string) :
  resize_image P fuel input_path output_path band w = Some (r, w') ->
  path <> output_path -> path <> temp_of output_path ->
  fs w' !! path = fs w !! path.
Proof. apply resize_image_frame. Qed.

(** The first pass already fits the band. *)
Lemma resize_image_in_band_at_once
    (P : PIL) (fuel : nat) (input_path output_path : string) (band : Z * Z)
    (w : world P) (img : image P) (d : data P) :
  fs w !! input_path ≫= decode P = Some img ->
  encode P img (format_or_jpeg (img_format P img)) 90 = Some d ->
  band.1 * 1024 <= Z.of_N (getsize P d) <= band.2 * 1024 ->
  resize_image P (S fuel) input_path output_path band w
  = Some ((true, Z.of_N (getsize P d)),
          move (temp_of output_path) output_path
            (write_file (temp_of output_path) d
               (log (call_save (temp_of output_path)
                       (format_or_jpeg (img_format P img)) 90)
                  (log (call_open input_path) w)))).
Proof.
  intros Hdec Henc Hsz.
  rewrite (resize_image_decoded _ _ _ _ _ _ _ Hdec). rewrite while_true_S.
  assert (Hband : band.1 * 1024 <= band.2 * 1024) by lia.
  erewrite loop_body_achieved; [reflexivity | exact Hband | | left; exact Hsz].
  rewrite attempt_unscaled by reflexivity. cbn [quality initial]. rewrite Henc.
  reflexivity.
Qed.

(** ** More on the search: quality goes to the floor before any resize *)

Section History.
Context (P : PIL) (img : image P) (format : string) (width height : Z).
Context (min_size_bytes max_size_bytes : Z) (output_path : string).

Lemma loop_body_history s (w : world P) :
  within_limits s ->
  exists X,
    calls (world_of (loop_body P img format width height min_size_bytes
                       max_size_bytes output_path s w)) = calls w ++ X /\
    ((scale_factor s <? Py.f_1_0)%float = false ->
     forall i nw nh f, X !! i <> Some (call_resize nw nh f)) /\
    (forall s' w',
       loop_body P img format width height min_size_bytes max_size_bytes
         output_path s w = Continue s' w' ->
       scale_factor s' = scale_factor s \/
       exists j path fmt, X !! j = Some (call_save path fmt 10)).
Proof.
  intros Hs.
  assert (Hq : 10 <= quality s) by (destruct Hs as [[[? ?] _] _]; assumption).
  rewrite loop_body_calls. unfold loop_body, attempt, resized_img, min_quality.
  destruct (scale_factor s <? Py.f_1_0)%float eqn:Hlt.
  - destruct (Py.int_of_float _) as [nw|].
    2:{ exists []. rewrite app_nil_r. split; [reflexivity|].
        split; [discriminate | discriminate]. }
    destruct (Py.int_of_float _) as [nh|].
    2:{ exists []. rewrite app_nil_r. split; [reflexivity|].
        split; [discriminate | discriminate]. }
    destruct (img_resize P img (nw, nh) LANCZOS) as [buf|].
    2:{ eexists [_]. split; [reflexivity|]. split; discriminate. }
    destruct (encode P buf format (quality s)) as [d|].
    2:{ eexists [_; _]. simpl. rewrite <- app_assoc. split; [reflexivity|].
        split; discriminate. }
    eexists [_; _]. simpl. rewrite <- app_assoc. split; [reflexivity|].
    split; [discriminate|]. intros s' w'.
    destruct (_ && _); [discriminate|].
    destruct (_ <? Z.of_N _).
    + destruct (Z.ltb_spec 10 (quality s)).
      * intros [= <- _]. left. reflexivity.
      * destruct (_ <? Py.f_0_3)%float; [discriminate|]. intros _. right.
        exists 1%nat, (temp_of output_path), format.
        replace 10 with (quality s) by lia.
        reflexivity.
    + destruct (_ <? 95); [|discriminate]. intros [= <- _]. left. reflexivity.
  - destruct (encode P img format (quality s)) as [d|].
    2:{ eexists [_]. split; [reflexivity|]. split; [|discriminate].
        intros _ [|[|i]] nw nh f; discriminate. }
    eexists [_]. split; [reflexivity|].
    split; [intros _ [|[|i]] nw nh f; discriminate|].
    intros s' w'.
    destruct (_ && _); [discriminate|].
    destruct (_ <? Z.of_N _).
    + destruct (Z.ltb_spec 10 (quality s)).
      * intros [= <- _]. left. reflexivity.
      * destruct (_ <? Py.f_0_3)%float; [discriminate|]. intros _. right.
        exists 0%nat, (temp_of output_path), format.
        replace 10 with (quality s) by lia.
        reflexivity.
    + destruct (_ <? 95); [|discriminate]. intros [= <- _]. left. reflexivity.
Qed.

Lemma floor_before_resize_app l X :
  floor_before_resize l ->
  (forall i nw nh f, X !! i = Some (call_resize nw nh f) ->
     exists j path fmt, l !! j = Some (call_save path fmt 10)) ->
  floor_before_resize (l ++ X).
Proof.
  intros Hl HX i nw nh f Hi.
  destruct (lookup_app_Some l X i (call_resize nw nh f)) as [Hcase _].
  destruct (Hcase Hi) as [Hin | [Hge Hin]].
  - destruct (Hl _ _ _ _ Hin) as (j & p & fmt & Hj & Hsave).
    exists j, p, fmt. split; [exact Hj|]. apply lookup_app_l_Some. exact Hsave.
  - destruct (HX _ _ _ _ Hin) as (j & p & fmt & Hsave).
    exists j, p, fmt. split.
    + apply lookup_lt_Some in Hsave. lia.
    + apply lookup_app_l_Some. exact Hsave.
Qed.

Lemma while_true_history fuel : forall s (w : world P) l0 l f,
  calls w = l0 ++ l ->
  within_limits s ->
  floor_before_resize l ->
  (scale_factor s = Py.f_1_0 \/
   exists j path fmt, l !! j = Some (call_save path fmt 10)) ->
  while_true P fuel img format width height min_size_bytes max_size_bytes
    output_path s w = Some f ->
  exists l', calls (world_of f) = l0 ++ l' /\ floor_before_resize l'.
Proof.
  induction fuel as [|fuel IH]; intros s w l0 l f Hc Hs Hl Hscale; simpl;
    [discriminate|].
  destruct (loop_body_history s w Hs) as (X & HX & Hno & Hnext).
  assert (Hl' : floor_before_resize (l ++ X)).
  { apply (floor_before_resize_app l X Hl). intros i nw nh f' Hi.
    destruct Hscale as [H1 | H]; [|exact H].
    exfalso. apply (Hno ltac:(rewrite H1; reflexivity) i nw nh f'). exact Hi. }
  assert (Hc' : calls (world_of (loop_body P img format width height
                                   min_size_bytes max_size_bytes output_path s w))
                = l0 ++ (l ++ X)).
  { rewrite HX, Hc, <- app_assoc. reflexivity. }
  destruct (loop_body _ _ _ _ _ _ _ _ _ _) as [s' w'|r w'|w'] eqn:Hb.
  - apply (IH s' w' l0 (l ++ X)); [exact Hc' | | exact Hl' |].
    + eapply loop_body_within_limits; eassumption.
    + destruct (Hnext s' w' eq_refl) as [Heq | (j & p & fmt & Hj)].
      * destruct Hscale as [H1 | (j & p & fmt & Hj)].
        -- left. congruence.
        -- right. exists j, p, fmt. apply lookup_app_l_Some. exact Hj.
      * right. exists (length l + j)%nat, p, fmt.
        rewrite lookup_app_r by lia.
        replace (length l + j - length l)%nat with j by lia. exact Hj.
  - intros [= <-]. exists (l ++ X). auto.
  - intros [= <-]. exists (l ++ X). auto.
Qed.

End History.

(** X4.  Quality has been taken down to 10 before the image is ever resized.
    In the Pillow calls of one [resize_image], after the [open], every
    [resize] comes after a [save] at quality 10. *)
Theorem quality_floor_before_any_resize
    (P : PIL) (fuel : nat) (input_path output_path : string) (band : Z * Z)
    (w : world P) (r : bool * Z) (w' : world P) :
  resize_image P fuel input_path output_path band w = Some (r, w') ->
  exists l,
    calls w' = calls w ++ call_open input_path :: l /\
    floor_before_resize l.
Proof.
  unfold resize_image.
  destruct (fs w !! input_path ≫= decode P) as [img|].
  2:{ intros [= <- <-]. exists []. split; [reflexivity|].
      intros i nw nh f Hi. discriminate. }
  destruct (img_size P img) as [width height].
  destruct (while_true _ _ _ _ _ _ _ _ _ _ _) as [f|] eqn:Hw; [|discriminate].
  apply (while_true_history _ _ _ _ _ _ _ _ _ _ _ (calls w ++ [call_open input_path]) [])
    in Hw.
  - destruct Hw as (l & Hl & HQ). rewrite <- app_assoc in Hl.
    destruct f as [s1 w1|r1 w1|w1]; try discriminate;
      intros [= <- <-]; exists l; auto.
  - simpl. rewrite app_nil_r. reflexivity.
  - apply within_limits_initial.
  - intros i nw nh f' Hi. discriminate.
  - left. reflexivity.
Qed.

Import PosixPath.

(** ** Paths: an extension survives [os.path.join] *)

Lemma rfind_from_range c s : forall i,
  0 <= i ->
  rfind_from c s i = -1 \/ i <= rfind_from c s i < i + Z.of_nat (String.length s).
Proof.
  induction s as [|a s IH]; intros i Hi; simpl; [left; reflexivity|].
  destruct (IH (i + 1) ltac:(lia)) as [-> | Hr].
  - simpl. destruct (Ascii.eqb a c); [right; lia | left; reflexivity].
  - destruct (Z.leb_spec 0 (rfind_from c s (i + 1))); [right; lia | lia].
Qed.

Lemma rfind_from_shift c s : forall i,
  0 <= i ->
  rfind_from c s i = if 0 <=? rfind_from c s 0 then i + rfind_from c s 0 else -1.
Proof.
  induction s as [|a s IH]; intros i Hi; simpl; [reflexivity|].
  rewrite (IH (i + 1)) by lia. rewrite (IH (0 + 1)) by lia.
  destruct (rfind_from_range c s 0 ltac:(lia)) as [-> | Hr].
  - simpl. destruct (Ascii.eqb a c); simpl; [f_equal; lia | reflexivity].
  - destruct (Z.leb_spec 0 (rfind_from c s 0)); [|lia].
    destruct (Z.leb_spec 0 (i + 1 + rfind_from c s 0)); [|lia].
    destruct (Z.leb_spec 0 (0 + 1 + rfind_from c s 0)); [|lia].
    destruct (Z.leb_spec 0 (0 + 1 + rfind_from c s 0)); lia.
Qed.

Lemma rfind_from_app c a : forall b i,
  0 <= i ->
  rfind_from c (a +:+ b) i =
    if 0 <=? rfind_from c b (i + Z.of_nat (String.length a))
    then rfind_from c b (i + Z.of_nat (String.length a))
    else rfind_from c a i.
Proof.
  induction a as [|x a IH]; intros b i Hi.
  - change (EmptyString +:+ b) with b.
    change (Z.of_nat (String.length EmptyString)) with 0. rewrite Z.add_0_r.
    destruct (rfind_from_range c b i Hi) as [-> | Hr]; [reflexivity|].
    destruct (Z.leb_spec 0 (rfind_from c b i)); [reflexivity | lia].
  - change (String x a +:+ b) with (String x (a +:+ b)).
    cbn [rfind_from]. rewrite IH by lia.
    replace (i + 1 + Z.of_nat (String.length a))
      with (i + Z.of_nat (String.length (String x a))) by (simpl; lia).
    set (rb := rfind_from c b (i + Z.of_nat (String.length (String x a)))).
    destruct (Z.leb_spec 0 rb) as [Hb|Hb].
    + destruct (Z.leb_spec 0 rb); [reflexivity | lia].
    + reflexivity.
Qed.

Lemma substring_app_skip a : forall b n m,
  String.substring (String.length a + n) m (a +:+ b) = String.substring n m b.
Proof. induction a as [|x a IH]; intros b n m; simpl; [reflexivity | apply IH]. Qed.

Lemma endswith_sep_rfind_from s : forall i,
  0 <= i -> endswith_sep s = true ->
  rfind_from "/" s i = i + Z.of_nat (String.length s) - 1.
Proof.
  induction s as [|a s IH]; intros i Hi He; [discriminate|].
  destruct s as [|b s].
  - simpl in *. rewrite He. lia.
  - change (endswith_sep (String a (String b s)))
      with (endswith_sep (String b s)) in He.
    specialize (IH (i + 1) ltac:(lia) He).
    change (rfind_from "/" (String a (String b s)) i)
      with (let j := rfind_from "/" (String b s) (i + 1) in
            if 0 <=? j then j else if Ascii.eqb a "/" then i else -1).
    cbv zeta. rewrite IH.
    change (String.length (String a (String b s)))
      with (S (String.length (String b s))).
    destruct (Z.leb_spec 0 (i + 1 + Z.of_nat (String.length (String b s)) - 1));
      lia.
Qed.

Lemma endswith_sep_rfind s :
  endswith_sep s = true -> rfind "/" s = Z.of_nat (String.length s) - 1.
Proof.
  intros He. unfold rfind. rewrite endswith_sep_rfind_from by (lia || exact He).
  lia.
Qed.

(** A name with no separator keeps its extension behind a prefix that is
    empty or ends with a separator. *)
Lemma splitext_behind_prefix pre file :
  rfind "/" file = -1 ->
  pre = EmptyString \/ endswith_sep pre = true ->
  (splitext (pre +:+ file)).2 = (splitext file).2.
Proof.
  intros Hnosep Hpre. unfold splitext.
  set (n := String.length pre).
  assert (Hsep : rfind "/" (pre +:+ file) = Z.of_nat n - 1).
  { unfold rfind. rewrite rfind_from_app by lia.
    rewrite (rfind_from_shift "/" file) by lia. fold (rfind "/" file).
    rewrite Hnosep. simpl.
    destruct Hpre as [-> | He]; [reflexivity|]. apply endswith_sep_rfind. exact He. }
  assert (Hdot : rfind "." (pre +:+ file) =
                 if 0 <=? rfind "." file then Z.of_nat n + rfind "." file
                 else rfind "." pre).
  { unfold rfind. rewrite rfind_from_app by lia.
    rewrite (rfind_from_shift "." file (0 + Z.of_nat (String.length pre))) by lia.
    fold n. destruct (Z.leb_spec 0 (rfind_from "." file 0)) as [H|H].
    - destruct (Z.leb_spec 0 (0 + Z.of_nat n + rfind_from "." file 0)); lia.
    - reflexivity. }
  rewrite Hsep, Hdot, Hnosep. clear Hsep Hdot.
  destruct (rfind_from_range "." file 0 ltac:(lia)) as [Hd | Hd];
    fold (rfind "." file) in Hd.
  - rewrite Hd. simpl.
    destruct (rfind_from_range "." pre 0 ltac:(lia)) as [Hp | Hp];
      fold (rfind "." pre) in Hp; fold n in Hp.
    + rewrite Hp. destruct (Z.ltb_spec (Z.of_nat n - 1) (-1)); [lia|]. reflexivity.
    + destruct (Z.ltb_spec (Z.of_nat n - 1) (rfind "." pre)); [lia|]. reflexivity.
  - set (j := rfind "." file) in *.
    destruct (Z.leb_spec 0 j); [|lia].
    destruct (Z.ltb_spec (Z.of_nat n - 1) (Z.of_nat n + j)); [|lia].
    destruct (Z.ltb_spec (-1) j); [|lia].
    assert (Hslice : slice (Z.of_nat n - 1 + 1) (Z.of_nat n + j) (pre +:+ file)
                     = slice (-1 + 1) j file).
    { unfold slice.
      replace (Z.to_nat (Z.of_nat n - 1 + 1)) with (n + 0)%nat by lia.
      replace (Z.to_nat (Z.of_nat n + j - (Z.of_nat n - 1 + 1)))
        with (Z.to_nat (j - (-1 + 1))) by lia.
      unfold n. rewrite substring_app_skip. reflexivity. }
    rewrite Hslice.
    destruct (all_dots _); simpl; [reflexivity|].
    unfold slice_from.
    replace (Z.to_nat (Z.of_nat n + j)) with (n + Z.to_nat j)%nat by lia.
    rewrite string_length_app. fold n.
    replace (n + String.length file - (n + Z.to_nat j))%nat
      with (String.length file - Z.to_nat j)%nat by lia.
    unfold n. apply substring_app_skip.
Qed.

Lemma no_sep_startswith file : rfind "/" file = -1 -> startswith_sep file = false.
Proof.
  unfold rfind. destruct file as [|a file]; [reflexivity|]. simpl.
  destruct (rfind_from_range "/" file (0 + 1) ltac:(lia)) as [-> | Hr].
  - simpl. destruct (Ascii.eqb a "/"); [discriminate | reflexivity].
  - destruct (Z.leb_spec 0 (rfind_from "/" file (0 + 1))); lia.
Qed.

Lemma endswith_sep_app_sep s : endswith_sep (s +:+ "/") = true.
Proof.
  induction s as [|a s IH]; [reflexivity|].
  change (String a s +:+ "/") with (String a (s +:+ "/")).
  destruct (s +:+ "/") eqn:Hs.
  - destruct s; discriminate.
  - exact IH.
Qed.

Lemma string_app_assoc (a b c : string) : (a +:+ b) +:+ c = a +:+ (b +:+ c).
Proof.
  induction a as [|x a IH]; [reflexivity|].
  change ((String x a +:+ b) +:+ c) with (String x ((a +:+ b) +:+ c)).
  rewrite IH. reflexivity.
Qed.

(** [splitext(join(root, file))[1] = splitext(file)[1]] for a bare file
    name. *)
Lemma splitext_join root file :
  rfind "/" file = -1 ->
  (splitext (join root file)).2 = (splitext file).2.
Proof.
  intros Hnosep. unfold join. rewrite (no_sep_startswith file Hnosep).
  destruct ((String.length root =? 0)%nat || endswith_sep root) eqn:Hc.
  - apply splitext_behind_prefix; [exact Hnosep|].
    apply orb_true_iff in Hc. destruct Hc as [H|H]; [left | right; exact H].
    apply Nat.eqb_eq in H. destruct root; [reflexivity | discriminate].
  - rewrite <- string_app_assoc.
    apply splitext_behind_prefix; [exact Hnosep|]. right.
    apply endswith_sep_app_sep.
Qed.

Lemma supported_join root file :
  rfind "/" file = -1 ->
  ResizeWorker.supported (join root file) = ResizeWorker.supported file.
Proof.
  intros H. unfold ResizeWorker.supported. rewrite (splitext_join root file H).
  reflexivity.
Qed.

(** ** More on the batch loop: any schedule of [stop()] *)

Section AnySchedule.
Context (P : PIL) (fuel : nat) (stops : nat -> bool).

Lemma observe_keeps i (st : state P) :
  files (self (observe P stops i st)) = files (self st) /\
  output_dir (self (observe P stops i st)) = output_dir (self st) /\
  target_size_kb (self (observe P stops i st)) = target_size_kb (self st) /\
  results (observe P stops i st) = results st /\
  emitted (observe P stops i st) = emitted st /\
  outside (observe P stops i st) = outside st.
Proof. unfold observe. destruct (stops i); simpl; auto 10. Qed.

Lemma for_files_shape rest : forall i (st : state P) e,
  (i + length rest <= length (files (self st)))%nat ->
  Z.of_nat (length (files (self st))) < 2 ^ 53 ->
  for_files P fuel stops i rest st = Some e ->
  exists st' rows ps,
    e = Finished st' /\
    results st' = results st ++ rows /\
    (fun r : row => r.1.1.1) <$> rows
      `prefix_of` filter (fun f => supported f = true) rest /\
    Forall (row_in_dir (output_dir (self st))) rows /\
    length ps = length rows /\
    emitted st' = emitted st ++ concat (zip_with signals_of ps rows) /\
    opens (calls (outside st'))
    = opens (calls (outside st)) ++ ((fun r : row => r.1.1.1) <$> rows).
Proof.
  induction rest as [|f rest IH]; intros i st e Hlen Hbound.
  - simpl. intros [= <-]. exists st, [], []. simpl. rewrite !app_nil_r.
    repeat split; auto. 
  - simpl in Hlen. cbn [for_files].
    destruct (observe_keeps i st) as (Hf & Hd & Ht & Hr & He & Ho).
    set (st1 := observe P stops i st) in *.
    destruct (running (self st1)); cbn [negb].
    2:{ intros [= <-]. exists st1, [], []. simpl. rewrite !app_nil_r, Hr, He, Ho.
        repeat split; auto. apply prefix_nil. }
    destruct (supported f) eqn:Hsup; cbn [negb].
    + destruct (resize_image _ _ _ _ _ _) as [[[success file_size] w']|] eqn:Hres;
        [|discriminate].
      destruct (progress_of_total i (length (files (self st1))))
        as [progress Hprog]; [rewrite Hf; lia | rewrite Hf; exact Hbound |].
      rewrite Hprog. intros Hit.
      apply IH in Hit; [| simpl; rewrite Hf; lia | simpl; rewrite Hf; exact Hbound].
      destruct Hit as (st' & rows & ps & -> & Hrows & Hpre & Hdir & Hlen' & Hem & Hop).
      cbn [results emitted outside self] in *.
      eexists st', (_ :: rows), (progress :: ps).
      split; [reflexivity|].
      split; [rewrite Hrows, Hr, <- app_assoc; reflexivity|].
      split; [rewrite filter_cons_True by exact Hsup; rewrite fmap_cons;
              apply prefix_cons; exact Hpre|].
      split; [constructor; [unfold row_in_dir; simpl; rewrite Hd; reflexivity
                           | rewrite <- Hd; exact Hdir]|].
      split; [simpl; rewrite Hlen'; reflexivity|].
      split; [rewrite Hem, He, <- app_assoc; reflexivity|].
      rewrite Hop, (resize_image_opens _ _ _ _ _ _ _ _ Hres), Ho, <- app_assoc.
      reflexivity.
    + intros Hit. apply IH in Hit; [| rewrite Hf; lia | rewrite Hf; exact Hbound].
      destruct Hit as (st' & rows & ps & -> & Hrows & Hpre & Hdir & Hlen' & Hem & Hop).
      exists st', rows, ps. rewrite filter_cons_False by congruence.
      rewrite <- Hr, <- He, <- Ho, <- Hd. repeat split; assumption.
Qed.

End AnySchedule.

(** X5.  The percentage of line 134 never raises.  Whatever the schedule of
    [stop()], [run] on fewer than [2^53] files does not end in an exception:
    when it ends, it has returned. *)
Theorem run_never_dies_computing_progress
    (P : PIL) (fuel : nat) (stops : nat -> bool) (paths : list string)
    (output_dir : string) (band : Z * Z) (running : bool) (o : world P)
    (e : ending P) :
  Z.of_nat (length paths) < 2 ^ 53 ->
  run P fuel stops (Worker paths output_dir band running) o = Some e ->
  exists st, e = Finished st.
Proof.
  intros Hbound. unfold run. cbn [files].
  destruct (for_files P fuel stops 0 paths _) as [e'|] eqn:Hit; [|discriminate].
  apply for_files_shape in Hit; [| simpl; lia | exact Hbound].
  destruct Hit as (st' & rows & ps & -> & _). intros [= <-]. eauto.
Qed.

(** X6.  Whatever the schedule of [stop()], when [run] returns the rows are
    those of the first so many files that pass the extension test, in the
    order of the list; each row's output path is the output directory joined
    with the base name of its file; each row has its [progress_updated] and
    [file_processed] signals; [resize_completed] comes last and once; and
    the files opened are those of the rows. *)
Theorem run_reports_a_prefix_of_the_image_files
    (P : PIL) (fuel : nat) (stops : nat -> bool) (paths : list string)
    (output_dir : string) (band : Z * Z) (running : bool) (o : world P)
    (e : ending P) :
  Z.of_nat (length paths) < 2 ^ 53 ->
  run P fuel stops (Worker paths output_dir band running) o = Some e ->
  exists st ps,
    e = Finished st /\
    (fun r : row => r.1.1.1) <$> results st
      `prefix_of` filter (fun f => supported f = true) paths /\
    Forall (row_in_dir output_dir) (results st) /\
    length ps = length (results st) /\
    emitted st = concat (zip_with signals_of ps (results st))
                 ++ [resize_completed (results st)] /\
    opens (calls (outside st))
    = opens (calls o) ++ ((fun r : row => r.1.1.1) <$> results st).
Proof.
  intros Hbound. unfold run. cbn [files].
  destruct (for_files P fuel stops 0 paths _) as [e'|] eqn:Hit; [|discriminate].
  apply for_files_shape in Hit; [| simpl; lia | exact Hbound].
  destruct Hit as (st' & rows & ps & -> & Hrows & Hpre & Hdir & Hlen & Hem & Hop).
  simpl in Hrows, Hdir, Hem, Hop. intros [= <-].
  eexists _, ps. split; [reflexivity|]. cbn [results emitted outside].
  rewrite Hrows, Hem. auto 10.
Qed.

(** What the loop does to a path that is no output or temporary path of a
    file it handles. *)
Lemma for_files_frame (P : PIL) fuel stops rest : forall i (st : state P) e path,
  (forall f, f ∈ rest -> supported f = true ->
     path <> PosixPath.join (output_dir (self st)) (PosixPath.basename f) /\
     path <> temp_of (PosixPath.join (output_dir (self st)) (PosixPath.basename f))) ->
  for_files P fuel stops i rest st = Some e ->
  fs (outside (state_of e)) !! path = fs (outside st) !! path.
Proof.
  induction rest as [|f rest IH]; intros i st e path Hpath.
  - simpl. intros [= <-]. reflexivity.
  - cbn [for_files].
    destruct (observe_keeps P stops i st) as (Hf & Hd & Ht & Hr & He & Ho).
    set (st1 := observe P stops i st) in *.
    assert (Hrest : forall g, g ∈ rest -> supported g = true ->
              path <> PosixPath.join (output_dir (self st1)) (PosixPath.basename g) /\
              path <> temp_of (PosixPath.join (output_dir (self st1))
                                 (PosixPath.basename g))).
    { intros g Hg Hs. rewrite Hd. apply Hpath; [right; exact Hg | exact Hs]. }
    destruct (running (self st1)); cbn [negb].
    2:{ intros [= <-]. simpl. rewrite Ho. reflexivity. }
    destruct (supported f) eqn:Hsup; cbn [negb].
    + destruct (resize_image _ _ _ _ _ _) as [[[success file_size] w']|] eqn:Hres;
        [|discriminate].
      destruct (Hpath f ltac:(left) Hsup) as [Hne1 Hne2]. rewrite <- Hd in Hne1, Hne2.
      pose proof (resize_image_frame _ _ _ _ _ _ _ _ path Hres Hne1 Hne2) as Hfr.
      destruct (progress_of _ _).
      * intros Hit. apply (IH _ _ _ path) in Hit; [|exact Hrest].
        rewrite Hit. simpl. rewrite Hfr, Ho. reflexivity.
      * intros [= <-]. simpl. rewrite Hfr, Ho. reflexivity.
    + intros Hit. apply (IH _ _ _ path) in Hit; [|exact Hrest].
      rewrite Hit, Ho. reflexivity.
Qed.

(** X7.  [run] leaves alone every path that is neither the output path nor
    the temporary path of a file of the list that passes the extension
    test. *)
Theorem run_touches_only_outputs_and_temps
    (P : PIL) (fuel : nat) (stops : nat -> bool) (paths : list string)
    (output_dir : string) (band : Z * Z) (running : bool) (o : world P)
    (e : ending P) (path : string) :
  (forall f, f ∈ paths -> supported f = true ->
     path <> PosixPath.join output_dir (PosixPath.basename f) /\
     path <> temp_of (PosixPath.join output_dir (PosixPath.basename f))) ->
  run P fuel stops (Worker paths output_dir band running) o = Some e ->
  fs (outside (state_of e)) !! path = fs o !! path.
Proof.
  intros Hpath. unfold run. cbn [files].
  destruct (for_files P fuel stops 0 paths _) as [e'|] eqn:Hit; [|discriminate].
  apply (for_files_frame _ _ _ _ _ _ _ path) in Hit; [|exact Hpath].
  destruct e'; intros [= <-]; exact Hit.
Qed.

(** X8.  Two files with the same base name go to the same output path.  When
    both fit the band at once, both rows say [True], and the output path
    holds the second file's bytes only. *)
Theorem same_base_name_overwrites_the_first_output
    (P : PIL) (fuel : nat) (f1 f2 output_dir : string) (band : Z * Z)
    (o : world P) (img1 img2 : image P) (d1 d2 : data P) :
  let output_path := PosixPath.join output_dir (PosixPath.basename f1) in
  supported f1 = true -> supported f2 = true ->
  PosixPath.basename f1 = PosixPath.basename f2 ->
  f2 <> output_path -> f2 <> temp_of output_path ->
  fs o !! f1 ≫= decode P = Some img1 ->
  fs o !! f2 ≫= decode P = Some img2 ->
  encode P img1 (format_or_jpeg (img_format P img1)) 90 = Some d1 ->
  encode P img2 (format_or_jpeg (img_format P img2)) 90 = Some d2 ->
  band.1 * 1024 <= Z.of_N (getsize P d1) <= band.2 * 1024 ->
  band.1 * 1024 <= Z.of_N (getsize P d2) <= band.2 * 1024 ->
  exists st,
    run P (S fuel) (fun _ => false) (Worker [f1; f2] output_dir band true) o
    = Some (Finished st) /\
    results st = [(f1, output_path, true, Z.of_N (getsize P d1));
                  (f2, output_path, true, Z.of_N (getsize P d2))] /\
    fs (outside st) !! output_path = Some d2.
Proof.
  intros output_path Hs1 Hs2 Hbase Hne1 Hne2 Hdec1 Hdec2 Henc1 Henc2 Hsz1 Hsz2.
  set (wk := Worker [f1; f2] output_dir band true).
  pose proof (resize_image_in_band_at_once P fuel f1 output_path band o img1 d1
                Hdec1 Henc1 Hsz1) as Hres1.
  set (w1 := move _ _ _) in Hres1.
  assert (Hdec2' : fs w1 !! f2 ≫= decode P = Some img2).
  { rewrite (resize_image_frame _ _ _ _ _ _ _ _ f2 Hres1 Hne1 Hne2). exact Hdec2. }
  pose proof (resize_image_in_band_at_once P fuel f2 output_path band w1 img2 d2
                Hdec2' Henc2 Hsz2) as Hres2.
  set (w2 := move _ _ _) in Hres2.
  destruct (progress_of_total 0 2 ltac:(lia) ltac:(simpl; lia)) as [p1 Hp1].
  destruct (progress_of_total 1 2 ltac:(lia) ltac:(simpl; lia)) as [p2 Hp2].
  eexists. split.
  - unfold run. cbn [files wk].
    rewrite (for_files_supported P (S fuel) (fun _ => false) 0 f1 [f2]
               (State wk [] [] o) true _ w1 p1 eq_refl eq_refl Hs1 Hres1 Hp1).
    cbn [self results emitted outside].
    assert (Hres2' : resize_image P (S fuel) f2
                       (PosixPath.join output_dir (PosixPath.basename f2)) band w1
                     = Some ((true, Z.of_N (getsize P d2)), w2)).
    { rewrite <- Hbase. exact Hres2. }
    rewrite (for_files_supported P (S fuel) (fun _ => false) 1 f2 []
               (State wk _ _ w1) true _ w2 p2 eq_refl eq_refl Hs2 Hres2' Hp2).
    reflexivity.
  - cbn [results outside self wk ResizeWorker.output_dir]. rewrite <- Hbase.
    split; [reflexivity|].
    unfold w2. apply move_lookup. simpl. apply lookup_insert_eq.
Qed.

(** ** The folder tab *)

Import FolderTab.

Lemma image_files_supported walk :
  bare_names walk -> Forall (fun f => supported f = true) (image_files walk).
Proof.
  induction walk as [|[root names] walk IH]; intros Hbare; [constructor|].
  simpl. apply Forall_app. split.
  - apply Forall_fmap, Forall_forall. intros file Hin.
    apply list_elem_of_filter in Hin as [Hs Hin]. simpl.
    rewrite supported_join; [exact Hs|].
    apply (Hbare root names file); [left | exact Hin].
  - apply IH. intros r n f Hr Hf. apply (Hbare r n f); [right; exact Hr | exact Hf].
Qed.

Lemma bare_names_Forall walk :
  Forall (fun rn : string * list string =>
            Forall (fun file => PosixPath.rfind "/" file = -1) rn.2) walk ->
  bare_names walk.
Proof.
  intros Hall root names file Hroot Hfile.
  rewrite Forall_forall in Hall. specialize (Hall _ Hroot). simpl in Hall.
  rewrite Forall_forall in Hall. apply Hall. exact Hfile.
Qed.

Lemma filter_all_supported l :
  Forall (fun f => supported f = true) l ->
  filter (fun f => supported f = true) l = l.
Proof.
  induction 1 as [|f l Hf _ IH]; [reflexivity|].
  rewrite filter_cons_True by exact Hf. rewrite IH. reflexivity.
Qed.

Lemma substring_all s : String.substring 0 (String.length s) s = s.
Proof. induction s as [|a s IH]; simpl; [reflexivity | rewrite IH; reflexivity]. Qed.

Lemma rfind_sep_behind_prefix pre file :
  PosixPath.rfind "/" file = -1 ->
  pre = EmptyString \/ PosixPath.endswith_sep pre = true ->
  PosixPath.rfind "/" (pre +:+ file) = Z.of_nat (String.length pre) - 1.
Proof.
  intros Hnosep Hpre. unfold PosixPath.rfind.
  rewrite rfind_from_app by lia.
  rewrite (rfind_from_shift "/" file) by lia. fold (PosixPath.rfind "/" file).
  rewrite Hnosep. simpl.
  destruct Hpre as [-> | He]; [reflexivity|]. apply endswith_sep_rfind. exact He.
Qed.

Lemma basename_behind_prefix pre file :
  PosixPath.rfind "/" file = -1 ->
  pre = EmptyString \/ PosixPath.endswith_sep pre = true ->
  PosixPath.basename (pre +:+ file) = file.
Proof.
  intros Hnosep Hpre. unfold PosixPath.basename.
  rewrite (rfind_sep_behind_prefix pre file Hnosep Hpre).
  unfold PosixPath.slice_from. rewrite string_length_app.
  replace (Z.to_nat (Z.of_nat (String.length pre) - 1 + 1))
    with (String.length pre + 0)%nat by lia.
  replace (String.length pre + String.length file - (String.length pre + 0))%nat
    with (String.length file) by lia.
  rewrite substring_app_skip. apply substring_all.
Qed.

(** [basename(join(root, file)) = file] for a bare file name. *)
Lemma basename_join root file :
  PosixPath.rfind "/" file = -1 ->
  PosixPath.basename (PosixPath.join root file) = file.
Proof.
  intros Hnosep. unfold PosixPath.join. rewrite (no_sep_startswith file Hnosep).
  destruct ((String.length root =? 0)%nat || PosixPath.endswith_sep root) eqn:Hc.
  - apply basename_behind_prefix; [exact Hnosep|].
    apply orb_true_iff in Hc. destruct Hc as [H|H]; [left | right; exact H].
    apply Nat.eqb_eq in H. destruct root; [reflexivity | discriminate].
  - rewrite <- string_app_assoc.
    apply basename_behind_prefix; [exact Hnosep|]. right.
    apply endswith_sep_app_sep.
Qed.

Lemma image_files_from walk f :
  f ∈ image_files walk ->
  exists root names file,
    (root, names) ∈ walk /\ file ∈ names /\ supported file = true /\
    f = PosixPath.join root file.
Proof.
  induction walk as [|[root names] walk IH]; simpl; intros Hin.
  - inversion Hin.
  - apply elem_of_app in Hin as [Hin | Hin].
    + apply list_elem_of_fmap in Hin as (file & -> & Hin).
      apply list_elem_of_filter in Hin as [Hs Hin].
      exists root, names, file. repeat split; [left | exact Hin | exact Hs].
    + destruct (IH Hin) as (r & n & file & Hr & Hn & Hs & ->).
      exists r, n, file. repeat split; [right; exact Hr | exact Hn | exact Hs].
Qed.

(** [run] when [stop()] is never called and the batch comes to its end. *)
Lemma run_uninterrupted (P : PIL) (fuel : nat) (stops : nat -> bool)
    (paths : list string) (dir : string) (band : Z * Z) (o : world P)
    (e : ending P) :
  Z.of_nat (length paths) < 2 ^ 53 ->
  (forall j, stops j = false) ->
  run P fuel stops (Worker paths dir band true) o = Some e ->
  exists st ps,
    e = Finished st /\
    (fun r : row => r.1.1.1) <$> results st
    = filter (fun f => supported f = true) paths /\
    Forall (row_in_dir dir) (results st) /\
    length ps = length (results st) /\
    emitted st = concat (zip_with signals_of ps (results st))
                 ++ [resize_completed (results st)] /\
    progress_values (emitted st) = ps /\
    (forall f, last paths = Some f -> supported f = true -> last ps = Some 100).
Proof.
  intros Hbound Hstops Hrun. unfold run in Hrun. cbn [ResizeWorker.files] in Hrun.
  set (st0 := State (Worker paths dir band true) [] [] o) in Hrun.
  destruct (for_files P fuel stops 0 paths st0) as [e'|] eqn:He; [|discriminate].
  destruct (for_files_uninterrupted P fuel stops paths 0 st0 e' eq_refl
              (fun j _ => Hstops j) (le_n _) Hbound He)
    as (st' & rows & ps & -> & _ & Hrows & Hpaths & Hps & Hem & _).
  destruct (for_files_shape P fuel stops paths 0 st0 _ (le_n _) Hbound He)
    as (st'' & rows' & _ & [= <-] & Hrows' & _ & Hdir & _).
  simpl in Hrows, Hrows', Hps, Hem, Hdir. subst rows'. injection Hrun as <-.
  assert (Hlen : length ps = length rows).
  { apply (f_equal length) in Hps. apply (f_equal length) in Hpaths.
    rewrite !length_fmap in Hps. rewrite length_fmap in Hpaths.
    rewrite Hps, Hpaths. apply supported_from_length. }
  eexists _, ps. split; [reflexivity|].
  cbn [results emitted]. rewrite Hrows, Hem.
  split; [exact Hpaths|].
  split; [rewrite <- Hrows; exact Hdir|].
  split; [exact Hlen|]. split; [reflexivity|].
  split.
  { rewrite progress_values_app, progress_values_signals by exact Hlen.
    apply app_nil_r. }
  intros f Hlast Hf.
  pose proof (supported_from_last paths 0 f Hlast Hf) as Hsl.
  apply (f_equal last) in Hps. rewrite !fmap_last, Hsl in Hps.
  assert (Hn : (0 < length paths)%nat).
  { destruct paths; [discriminate | simpl; lia]. }
  replace (0 + length paths - 1)%nat with (length paths - 1)%nat in Hps by lia.
  cbn [fmap option_fmap option_map] in Hps.
  rewrite (progress_of_last _ Hn Hbound) in Hps.
  destruct (last ps); cbn in Hps; congruence.
Qed.

Lemma select_folder_started band input_dir walk out t t' msgs wk :
  select_folder band input_dir walk out t = (t', msgs, Some wk) ->
  image_files walk <> [] /\
  wk = Worker (image_files walk) out band true /\
  t' = Tab ("Resizing " +:+ pretty (length (image_files walk)) +:+ " images...")
           0 "Processing images..." /\
  msgs = [].
Proof.
  unfold select_folder. destruct input_dir; [discriminate|].
  destruct (image_files walk) eqn:Hfiles; [discriminate|].
  destruct out; [discriminate|]. intros [= <- <- <-]. auto.
Qed.

(** X11.  Folder mode.  Every file the tab collects passes the worker's own
    extension test, so none is skipped: with no [stop()], when the batch
    comes to its end (every search of the batch returns) [run] has returned
    with one row per collected file, in the order collected, the last
    percentage is 100, and the count in the final status line is the count
    announced when the batch was started. *)
Theorem folder_mode_resizes_every_collected_file
    (P : PIL) (fuel : nat) (stops : nat -> bool) (band : Z * Z)
    (input_dir : string) (walk : list (string * list string))
    (output_dir : string) (t t' : tab) (msgs : list message) (wk : worker)
    (o : world P) (e : ending P) :
  bare_names walk ->
  Z.of_nat (length (image_files walk)) < 2 ^ 53 ->
  (forall j, stops j = false) ->
  select_folder band input_dir walk output_dir t = (t', msgs, Some wk) ->
  run P fuel stops wk o = Some e ->
  let n := length (image_files walk) in
  exists st,
    e = Finished st /\
    Forall (fun f => supported f = true) (files wk) /\
    (fun r : row => r.1.1.1) <$> results st = image_files walk /\
    length (progress_values (emitted st)) = n /\
    last (progress_values (emitted st)) = Some 100 /\
    (0 < n)%nat /\
    status_label t' = "Resizing " +:+ pretty n +:+ " images..." /\
    status_label (on_resize_completed band (results st) t').1
    = "Completed: " +:+ pretty (success_count (results st)) +:+ "/"
      +:+ pretty n +:+ " images successfully resized".
Proof.
  intros Hbare Hbound Hstops Hsel Hrun n. subst n.
  apply select_folder_started in Hsel as (Hne & -> & -> & ->).
  pose proof (image_files_supported walk Hbare) as Hall.
  destruct (run_uninterrupted P fuel stops (image_files walk) output_dir band o
              e Hbound Hstops Hrun)
    as (st & ps & -> & Hpaths & _ & Hlen & _ & Hpv & Hlast).
  rewrite (filter_all_supported _ Hall) in Hpaths.
  assert (Hn : length (results st) = length (image_files walk)).
  { rewrite <- Hpaths, length_fmap. reflexivity. }
  exists st.
  split; [reflexivity|]. split; [exact Hall|]. split; [exact Hpaths|].
  split; [rewrite Hpv, Hlen; exact Hn|].
  split.
  { rewrite Hpv. destruct (last (image_files walk)) as [f|] eqn:Hl.
    - apply (Hlast f eq_refl).
      rewrite Forall_forall in Hall. apply Hall.
      apply last_Some in Hl as [l' ->]. apply elem_of_app. right. left.
    - apply last_None in Hl. contradiction. }
  split; [destruct (image_files walk); [contradiction | simpl; lia]|].
  split; [reflexivity|].
  simpl. rewrite Hn. reflexivity.
Qed.

(** X12.  Folder mode flattens the tree.  Whatever the schedule of [stop()],
    each row's file is [join(root, file)] for a file name that [os.walk]
    listed under [root], and its output path is [join(output_dir, file)]:
    the folder the file was found in plays no part in where it is written. *)
Theorem folder_mode_writes_every_file_directly_under_output_dir
    (P : PIL) (fuel : nat) (stops : nat -> bool) (band : Z * Z)
    (input_dir : string) (walk : list (string * list string))
    (output_dir : string) (t t' : tab) (msgs : list message) (wk : worker)
    (o : world P) (e : ending P) (r : row) :
  bare_names walk ->
  Z.of_nat (length (image_files walk)) < 2 ^ 53 ->
  select_folder band input_dir walk output_dir t = (t', msgs, Some wk) ->
  run P fuel stops wk o = Some e ->
  r ∈ results (state_of e) ->
  exists root names file,
    (root, names) ∈ walk /\ file ∈ names /\
    r.1.1.1 = PosixPath.join root file /\
    r.1.1.2 = PosixPath.join output_dir file.
Proof.
  intros Hbare Hbound Hsel Hrun Hr.
  apply select_folder_started in Hsel as (_ & -> & _ & _).
  unfold run in Hrun. cbn [files] in Hrun.
  destruct (for_files P fuel stops 0 (image_files walk) _) as [e'|] eqn:Hit;
    [|discriminate].
  apply for_files_shape in Hit; [| simpl; lia | exact Hbound].
  destruct Hit as (st' & rows & ps & -> & Hrows & Hpre & Hdir & _).
  injection Hrun as <-. simpl in Hr, Hrows, Hdir. rewrite Hrows in Hr.
  assert (Hin : r.1.1.1 ∈ image_files walk).
  { destruct Hpre as [k Hk].
    assert (Hin : r.1.1.1 ∈ (fun r : row => r.1.1.1) <$> rows)
      by (apply list_elem_of_fmap; exists r; auto).
    assert (Hin' : r.1.1.1 ∈ filter (fun f => supported f = true) (image_files walk))
      by (rewrite Hk; apply elem_of_app; left; exact Hin).
    apply list_elem_of_filter in Hin' as [_ Hin']. exact Hin'. }
  destruct (image_files_from walk _ Hin) as (root & names & file & Hroot & Hfile & _ & Hj).
  exists root, names, file. repeat split; [exact Hroot | exact Hfile | exact Hj |].
  rewrite Forall_forall in Hdir. rewrite (Hdir r Hr), Hj.
  rewrite (basename_join root file (Hbare root names file Hroot Hfile)).
  reflexivity.
Qed.

(** ** The single-image tab *)

Lemma substring_prefix a : forall b,
  String.substring 0 (String.length a) (a +:+ b) = a.
Proof. induction a as [|x a IH]; intros b; simpl; [destruct b; reflexivity|].
  rewrite IH. reflexivity. Qed.

Lemma rstrip_sep_app_sep dir :
  endswith_sep dir = false ->
  rstrip_sep (dir +:+ "/") = dir.
Proof.
  induction dir as [|a dir IH]; intros He; [reflexivity|].
  change (String a dir +:+ "/") with (String a (dir +:+ "/")).
  cbn [rstrip_sep].
  destruct dir as [|b dir].
  - simpl in He. simpl. rewrite He. reflexivity.
  - change (endswith_sep (String a (String b dir)))
      with (endswith_sep (String b dir)) in He.
    rewrite (IH He). reflexivity.
Qed.

Lemma all_seps_app_sep dir :
  endswith_sep dir = false -> dir <> EmptyString ->
  all_seps (dir +:+ "/") = false.
Proof.
  induction dir as [|a dir IH]; intros He Hne; [contradiction|].
  change (String a dir +:+ "/") with (String a (dir +:+ "/")).
  cbn [all_seps].
  destruct dir as [|b dir].
  - simpl in He. rewrite He. reflexivity.
  - change (endswith_sep (String a (String b dir)))
      with (endswith_sep (String b dir)) in He.
    rewrite (IH He) by discriminate. apply andb_false_r.
Qed.

(** A path in normal form is put together again from its two halves. *)
Lemma dirname_basename dir name :
  endswith_sep dir = false -> rfind "/" name = -1 ->
  join (dirname (dir +:+ "/" +:+ name)) (basename (dir +:+ "/" +:+ name))
  = dir +:+ "/" +:+ name.
Proof.
  intros He Hname.
  assert (Hb : basename (dir +:+ "/" +:+ name) = name).
  { rewrite <- string_app_assoc. apply basename_behind_prefix; [exact Hname|].
    right. apply endswith_sep_app_sep. }
  assert (Hd : dirname (dir +:+ "/" +:+ name)
               = if (String.length dir =? 0)%nat then "/" else dir).
  { unfold dirname. rewrite <- string_app_assoc.
    rewrite (rfind_sep_behind_prefix (dir +:+ "/") name Hname)
      by (right; apply endswith_sep_app_sep).
    unfold slice.
    replace (Z.to_nat (Z.of_nat (String.length (dir +:+ "/")) - 1 + 1 - 0))
      with (String.length (dir +:+ "/")) by lia.
    change (Z.to_nat 0) with 0%nat. rewrite substring_prefix.
    destruct dir as [|a dir]; [reflexivity|].
    rewrite all_seps_app_sep by (exact He || discriminate).
    rewrite string_length_app. simpl String.length.
    rewrite rstrip_sep_app_sep by exact He. reflexivity. }
  rewrite Hb, Hd. unfold join. rewrite (no_sep_startswith name Hname).
  destruct dir as [|a dir]; [reflexivity|].
  cbn [String.length Nat.eqb]. rewrite He. reflexivity.
Qed.

Lemma select_image_started band file_path pixmap_ok save_name t t' wk :
  SingleImageTab.select_image band file_path pixmap_ok save_name t = (t', Some wk) ->
  wk = Worker [file_path] (dirname save_name) band true.
Proof.
  unfold SingleImageTab.select_image. destruct file_path; [discriminate|].
  destruct save_name; [discriminate|]. intros [= <- <-]. reflexivity.
Qed.

(** X13.  Single mode.  The name typed in the save dialog is not used, only
    its folder: whatever the schedule of [stop()], a row of the results is
    for the selected file and its output path is the folder of the save
    name joined with the base name of the selected file. *)
Theorem single_mode_keeps_the_source_file_name
    (P : PIL) (fuel : nat) (stops : nat -> bool) (band : Z * Z)
    (file_path save_name : string) (pixmap_ok : bool)
    (t t' : SingleImageTab.tab) (wk : worker) (o : world P) (e : ending P)
    (r : row) :
  SingleImageTab.select_image band file_path pixmap_ok save_name t = (t', Some wk) ->
  run P fuel stops wk o = Some e ->
  r ∈ results (state_of e) ->
  r.1.1.1 = file_path /\
  r.1.1.2 = join (dirname save_name) (basename file_path).
Proof.
  intros Hsel Hrun Hr. apply select_image_started in Hsel as ->.
  unfold run in Hrun. cbn [files] in Hrun.
  destruct (for_files P fuel stops 0 [file_path] _) as [e'|] eqn:Hit;
    [|discriminate].
  apply for_files_shape in Hit; [| simpl; lia | simpl; lia].
  destruct Hit as (st' & rows & ps & -> & Hrows & Hpre & Hdir & _).
  injection Hrun as <-. simpl in Hr, Hrows, Hdir. rewrite Hrows in Hr.
  assert (Hin : r.1.1.1 = file_path).
  { destruct Hpre as [k Hk].
    assert (Hin : r.1.1.1 ∈ (fun r : row => r.1.1.1) <$> rows)
      by (apply list_elem_of_fmap; exists r; auto).
    assert (Hin' : r.1.1.1 ∈ filter (fun f => supported f = true) [file_path])
      by (rewrite Hk; apply elem_of_app; left; exact Hin).
    apply list_elem_of_filter in Hin' as [_ Hin'].
    apply list_elem_of_singleton in Hin'. exact Hin'. }
  split; [exact Hin|].
  rewrite Forall_forall in Hdir. rewrite (Hdir r Hr), Hin. reflexivity.
Qed.

(** X14.  Single mode, saving in the folder the dialog opens in.  The save
    dialog starts in the folder of the selected file; when the save name is
    in that folder (whatever name is typed) and the selected path is in
    normal form, the output path is the selected file itself: the source is
    what [resize_image] writes over. *)
Theorem single_mode_in_the_same_folder_writes_over_the_source
    (P : PIL) (fuel : nat) (stops : nat -> bool) (band : Z * Z)
    (dir name save_name : string) (pixmap_ok : bool)
    (t t' : SingleImageTab.tab) (wk : worker) (o : world P) (e : ending P)
    (r : row) :
  let file_path := dir +:+ "/" +:+ name in
  endswith_sep dir = false -> rfind "/" name = -1 ->
  dirname save_name = dirname file_path ->
  SingleImageTab.select_image band file_path pixmap_ok save_name t = (t', Some wk) ->
  run P fuel stops wk o = Some e ->
  r ∈ results (state_of e) ->
  r.1.1.1 = file_path /\ r.1.1.2 = file_path.
Proof.
  intros file_path He Hname Hsame Hsel Hrun Hr.
  apply select_image_started in Hsel as ->.
  unfold run in Hrun. cbn [files] in Hrun.
  destruct (for_files P fuel stops 0 [file_path] _) as [e'|] eqn:Hit;
    [|discriminate].
  apply for_files_shape in Hit; [| simpl; lia | simpl; lia].
  destruct Hit as (st' & rows & ps & -> & Hrows & Hpre & Hdir & _).
  injection Hrun as <-. simpl in Hr, Hrows, Hdir. rewrite Hrows in Hr.
  assert (Hin : r.1.1.1 = file_path).
  { destruct Hpre as [k Hk].
    assert (Hin : r.1.1.1 ∈ (fun r : row => r.1.1.1) <$> rows)
      by (apply list_elem_of_fmap; exists r; auto).
    assert (Hin' : r.1.1.1 ∈ filter (fun f => supported f = true) [file_path])
      by (rewrite Hk; apply elem_of_app; left; exact Hin).
    apply list_elem_of_filter in Hin' as [_ Hin'].
    apply list_elem_of_singleton in Hin'. exact Hin'. }
  split; [exact Hin|].
  rewrite Forall_forall in Hdir. rewrite (Hdir r Hr), Hin, Hsame.
  apply dirname_basename; assumption.
Qed.

(** ** The log of the folder tab *)

Import PyStr.

Lemma has_nl_app a b : has_nl (a +:+ b) = has_nl a || has_nl b.
Proof.
  induction a as [|x a IH]; [reflexivity|].
  change (String x a +:+ b) with (String x (a +:+ b)). simpl.
  rewrite IH. apply orb_assoc.
Qed.

Lemma pretty_N_char_no_nl x : Ascii.eqb (pretty_N_char x) nl = false.
Proof. unfold pretty_N_char. repeat case_match; reflexivity. Qed.

Lemma pretty_N_go_no_nl x : forall s, has_nl (pretty_N_go x s) = has_nl s.
Proof.
  induction (N.lt_wf_0 x) as [x _ IH]. intros s.
  destruct (decide (0 < x)%N) as [Hx|Hx].
  - rewrite pretty_N_go_step by exact Hx.
    rewrite IH by (apply N.div_lt; lia). simpl.
    rewrite pretty_N_char_no_nl. reflexivity.
  - replace x with 0%N by lia. reflexivity.
Qed.

Lemma pretty_N_no_nl (x : N) : has_nl (pretty x) = false.
Proof.
  unfold pretty, pretty_N. destruct (decide (x = 0%N)); [reflexivity|].
  apply pretty_N_go_no_nl.
Qed.

Lemma pretty_Z_no_nl (x : Z) : has_nl (pretty x) = false.
Proof.
  destruct x as [|p|p]; [reflexivity | apply pretty_N_no_nl |].
  unfold pretty, pretty_Z. rewrite has_nl_app.
  unfold pretty, pretty_positive. rewrite pretty_N_no_nl. reflexivity.
Qed.

Lemma format_1f_no_nl f : has_nl (format_1f f) = false.
Proof.
  unfold format_1f. destruct (Prim2SF f) as [s|s| |s m e];
    try (destruct s; reflexivity); try reflexivity.
  rewrite !has_nl_app, !pretty_Z_no_nl. destruct s; reflexivity.
Qed.

Lemma result_line_no_nl filename success kb :
  has_nl filename = false -> has_nl (result_line filename success kb) = false.
Proof.
  intros H. unfold result_line. rewrite !has_nl_app, H, format_1f_no_nl.
  destruct success; reflexivity.
Qed.

Lemma last_char_app a b :
  last_char (a +:+ b)
  = match last_char b with Some c => Some c | None => last_char a end.
Proof.
  induction a as [|x a IH].
  { change (EmptyString +:+ b) with b. simpl. destruct (last_char b); reflexivity. }
  change (String x a +:+ b) with (String x (a +:+ b)). simpl. rewrite IH.
  destruct (last_char b); reflexivity.
Qed.

Lemma result_line_last_char filename success kb :
  last_char (result_line filename success kb) = Some ")"%char.
Proof. unfold result_line. rewrite !last_char_app. reflexivity. Qed.

Lemma split_nl_nonempty s : split_nl s <> [].
Proof.
  destruct s as [|a s]; [discriminate|]. simpl.
  destruct (Ascii.eqb a nl); [discriminate|]. destruct (split_nl s); discriminate.
Qed.

Lemma split_nl_no_nl s : has_nl s = false -> split_nl s = [s].
Proof.
  induction s as [|a s IH]; [reflexivity|]. simpl. intros H.
  apply orb_false_iff in H as [Ha Hs]. rewrite Ha, (IH Hs). reflexivity.
Qed.

Lemma split_nl_app a b :
  split_nl (a +:+ String nl b) = split_nl a ++ split_nl b.
Proof.
  induction a as [|x a IH]; [reflexivity|].
  change (String x a +:+ String nl b) with (String x (a +:+ String nl b)).
  cbn [split_nl]. rewrite IH. destruct (Ascii.eqb x nl); [reflexivity|].
  pose proof (split_nl_nonempty a). destruct (split_nl a); [contradiction|].
  reflexivity.
Qed.

Lemma join_nl_cons x l :
  l <> [] -> join_nl (x :: l) = x +:+ String nl (join_nl l).
Proof. destruct l; [contradiction | reflexivity]. Qed.

Lemma split_join_nl l :
  l <> [] -> Forall (fun s => has_nl s = false) l -> split_nl (join_nl l) = l.
Proof.
  induction l as [|x l IH]; [contradiction|]. intros _ Hall.
  inversion Hall as [|? ? Hx Hl]; subst.
  destruct l as [|y l]; [apply split_nl_no_nl; exact Hx|].
  rewrite join_nl_cons by discriminate.
  rewrite split_nl_app, (split_nl_no_nl x Hx), IH by (discriminate || exact Hl).
  reflexivity.
Qed.

Lemma join_nl_snoc l x :
  l <> [] -> join_nl (l ++ [x]) = join_nl l +:+ String nl x.
Proof.
  induction l as [|y l IH]; [contradiction|]. intros _.
  destruct l as [|z l]; [reflexivity|].
  change ((y :: z :: l) ++ [x]) with (y :: ((z :: l) ++ [x])).
  rewrite (join_nl_cons y ((z :: l) ++ [x])) by (simpl; discriminate).
  rewrite IH by discriminate.
  rewrite (join_nl_cons y (z :: l)) by discriminate.
  rewrite string_app_assoc. reflexivity.
Qed.

Lemma join_nl_last_char l x :
  last l = Some x -> x <> EmptyString -> last_char (join_nl l) = last_char x.
Proof.
  induction l as [|y l IH]; [discriminate|]. intros Hl Hx.
  destruct l as [|z l]; [simpl in Hl; injection Hl as ->; reflexivity|].
  rewrite join_nl_cons by discriminate. rewrite last_char_app.
  change (last (y :: z :: l)) with (last (z :: l)) in Hl.
  cbn [last_char]. rewrite (IH Hl Hx).
  destruct x as [|c x]; [contradiction|]. simpl.
  destruct (last_char x); reflexivity.
Qed.

Lemma last_n_length {A} n (l : list A) : length (last_n n l) = Nat.min n (length l).
Proof. unfold last_n. rewrite length_drop. lia. Qed.

Lemma last_n_all {A} n (l : list A) : (length l <= n)%nat -> last_n n l = l.
Proof.
  intros H. unfold last_n. replace (length l - n)%nat with 0%nat by lia.
  reflexivity.
Qed.

Lemma last_n_snoc {A} n (l : list A) x :
  last_n (S n) (l ++ [x]) = last_n n l ++ [x].
Proof.
  unfold last_n. rewrite length_app. simpl.
  replace (length l + 1 - S n)%nat with (length l - n)%nat by lia.
  rewrite drop_app_le by lia. reflexivity.
Qed.

Lemma last_n_last_n {A} n m (l : list A) :
  (n <= m)%nat -> last_n n (last_n m l) = last_n n l.
Proof.
  intros H. unfold last_n. rewrite length_drop, drop_drop. f_equal. lia.
Qed.

Lemma last_n_subset {A} n (l : list A) (P : A -> Prop) :
  Forall P l -> Forall P (last_n n l).
Proof. apply Forall_drop. Qed.

Lemma good_log_is_no_placeholder l :
  l <> [] -> Forall good_line l ->
  String.eqb (join_nl l) "Processing images..."
  || String.eqb (join_nl l) "Results will appear here" = false.
Proof.
  intros Hne Hall.
  destruct (last l) as [x|] eqn:Hl; [|apply last_None in Hl; contradiction].
  assert (Hx : good_line x).
  { rewrite Forall_forall in Hall. apply Hall.
    apply last_Some in Hl as [l' ->]. apply elem_of_app. right. left. }
  destruct Hx as [_ Hc].
  assert (Hlast : last_char (join_nl l) = Some ")"%char).
  { rewrite (join_nl_last_char l x Hl); [exact Hc|]. intros ->. discriminate. }
  apply orb_false_iff. split; apply String.eqb_neq; intros Heq;
    rewrite Heq in Hlast; discriminate.
Qed.

(** Below [2^53] bytes the size in KB is computed without error. *)
Lemma truediv_pow2_small z :
  0 <= z < 2 ^ 53 -> is_Some (Py.truediv_pow2 z 10).
Proof.
  intros [H0 H1]. unfold Py.truediv_pow2. change (Z.opp 10) with (-10).
  destruct z as [|p|p]; try lia.
  - simpl. eauto.
  - pose proof (digits2_pos_lt p H1) as Hd.
    assert (Hd1 : 1 <= Zpos (digits2_pos p)) by lia.
    destruct (binary_normalize_exact p (-10) Hd ltac:(lia)) as [-> _]. eauto.
Qed.

Lemma on_file_processed_step filename success file_size t lines :
  has_nl filename = false -> 0 <= file_size < 2 ^ 53 ->
  Forall good_line lines -> log_of lines t ->
  exists t' line,
    on_file_processed filename success file_size t = Some t' /\
    line_of (filename, success, file_size) = Some line /\
    good_line line /\
    status_label t' = status_label t /\ progress_bar t' = progress_bar t /\
    log_of (lines ++ [line]) t'.
Proof.
  intros Hname Hsize Hall Hlog. unfold on_file_processed, line_of.
  destruct (truediv_pow2_small file_size Hsize) as [kb Hkb].
  cbn [fst snd]. rewrite Hkb. cbn [mbind option_bind].
  set (line := result_line filename success kb).
  assert (Hgood : good_line line).
  { split; [apply result_line_no_nl; exact Hname | apply result_line_last_char]. }
  assert (Hshape : forall l, log_of (l ++ [line]) {| status_label := status_label t;
            progress_bar := progress_bar t;
            log_label := join_nl (last_n 13 (l ++ [line])) |}).
  { intros l. unfold log_of. destruct (l ++ [line]) eqn:E; [|reflexivity].
    destruct l; discriminate. }
  destruct lines as [|l0 lines0] eqn:Hlines.
  - assert (Hp : String.eqb (log_label t) "Processing images..."
                 || String.eqb (log_label t) "Results will appear here" = true).
    { destruct Hlog as [-> | ->]; reflexivity. }
    rewrite Hp. eexists _, line. split; [reflexivity|]. simpl. auto 10.
  - rewrite <- Hlines in *. assert (Hne : lines <> []) by (subst; discriminate).
    assert (Hlog' : log_label t = join_nl (last_n 13 lines)).
    { subst lines. exact Hlog. }
    set (L := last_n 13 lines) in *.
    assert (HLne : L <> []).
    { intros HL. apply (f_equal length) in HL. unfold L in HL.
      rewrite last_n_length in HL. destruct lines; [contradiction|].
      simpl in HL. lia. }
    assert (HLall : Forall good_line L) by (apply last_n_subset; exact Hall).
    rewrite Hlog', (good_log_is_no_placeholder L HLne HLall).
    rewrite split_join_nl
      by (exact HLne || (eapply Forall_impl; [exact HLall | intros ? [? _]; assumption])).
    eexists _, line. split; [reflexivity|]. cbn [status_label progress_bar].
    split; [reflexivity|]. split; [exact Hgood|].
    split; [reflexivity|]. split; [reflexivity|].
    specialize (Hshape lines). unfold log_of in *.
    destruct (lines ++ [line]) eqn:E; [destruct lines; discriminate|].
    rewrite <- E in *. cbn [log_label] in *.
    rewrite (last_n_snoc 12 lines line).
    assert (H12 : last_n 12 lines <> [] ).
    { intros HL. apply (f_equal length) in HL.
      rewrite last_n_length in HL. destruct lines; [contradiction|].
      simpl in HL. lia. }
    rewrite (join_nl_snoc _ _ H12).
    destruct (Nat.ltb_spec 12 (length L)) as [Hlt|Hle].
    + unfold L. rewrite last_n_last_n by lia. reflexivity.
    + unfold L in *. rewrite last_n_length in Hle.
      assert (Hlen : (length lines <= 12)%nat) by lia.
      rewrite !last_n_all by lia. reflexivity.
Qed.

Lemma deliver_log events : forall t lines,
  Forall (fun ev : string * bool * Z =>
            has_nl ev.1.1 = false /\ 0 <= ev.2 < 2 ^ 53) events ->
  Forall good_line lines -> log_of lines t ->
  exists t' new,
    deliver events t = Some t' /\
    Forall2 (fun ev line => line_of ev = Some line) events new /\
    Forall good_line new /\
    status_label t' = status_label t /\ progress_bar t' = progress_bar t /\
    log_of (lines ++ new) t'.
Proof.
  induction events as [|[[filename success] file_size] events IH];
    intros t lines Hev Hall Hlog.
  - exists t, []. simpl. rewrite app_nil_r. auto 10.
  - inversion Hev as [|? ? [Hname Hsize] Hev']; subst. simpl in Hname, Hsize.
    destruct (on_file_processed_step filename success file_size t lines
                Hname Hsize Hall Hlog)
      as (t1 & line & Hstep & Hline & Hgood & Hs & Hp & Hlog1).
    cbn [deliver]. rewrite Hstep. cbn [mbind option_bind].
    destruct (IH t1 (lines ++ [line]) Hev')
      as (t' & new & Hd & Hnew & Hgnew & Hs' & Hp' & Hlog').
    { apply Forall_app. split; [exact Hall|]. constructor; [exact Hgood|constructor]. }
    { exact Hlog1. }
    exists t', (line :: new). split; [exact Hd|].
    split; [constructor; assumption|]. split; [constructor; assumption|].
    split; [congruence|]. split; [congruence|].
    rewrite <- app_assoc in Hlog'. exact Hlog'.
Qed.

(** X15.  The log of the folder tab.  Starting from the placeholder text, after
    the slot has run for a list of [file_processed] signals whose file names
    hold no line break and whose sizes are below [2^53] bytes, the log shows
    the lines of the last 13 signals (of all of them when there are fewer),
    one per line, oldest first. *)
Theorem log_shows_the_last_13_results
    (events : list (string * bool * Z)) (t : tab) :
  log_label t = "Processing images..." \/ log_label t = "Results will appear here" ->
  Forall (fun ev : string * bool * Z =>
            has_nl ev.1.1 = false /\ 0 <= ev.2 < 2 ^ 53) events ->
  events <> [] ->
  exists t' lines,
    deliver events t = Some t' /\
    Forall2 (fun ev line => line_of ev = Some line) events lines /\
    log_label t' = join_nl (last_n 13 lines) /\
    split_nl (log_label t') = last_n 13 lines /\
    length (split_nl (log_label t')) = Nat.min 13 (length events).
Proof.
  intros Hstart Hev Hne.
  destruct (deliver_log events t [] Hev (Forall_nil_2 _) Hstart)
    as (t' & lines & Hd & Hlines & Hgood & _ & _ & Hlog).
  exists t', lines. split; [exact Hd|]. split; [exact Hlines|].
  simpl in Hlog. unfold log_of in Hlog.
  pose proof (Forall2_length _ _ _ Hlines) as Hlen0.
  destruct lines as [|l0 lines0] eqn:E;
    [destruct events; [contradiction|discriminate]|].
  rewrite <- E in *. rewrite Hlog.
  assert (Hall : Forall (fun s => has_nl s = false) (last_n 13 lines)).
  { apply last_n_subset. eapply Forall_impl; [exact Hgood|].
    intros s [H _]. exact H. }
  assert (Hlen : length (last_n 13 lines) = Nat.min 13 (length events)).
  { rewrite last_n_length, Hlen0. reflexivity. }
  assert (Hne' : last_n 13 lines <> []).
  { intros H0. rewrite H0 in Hlen. destruct events; [contradiction|].
    simpl in Hlen. lia. }
  rewrite (split_join_nl _ Hne' Hall). auto.
Qed.

(** X16.  One call of the slot on any log.  When the file name holds no line
    break and the size is below [2^53] bytes, the call returns, the new log
    has at most 13 lines, and its last line is the line of this call. *)
Theorem log_has_at_most_13_lines_after_each_result
    (filename : string) (success : bool) (file_size : Z) (t : tab) :
  has_nl filename = false ->
  0 <= file_size < 2 ^ 53 ->
  exists t' line,
    on_file_processed filename success file_size t = Some t' /\
    line_of (filename, success, file_size) = Some line /\
    (length (split_nl (log_label t')) <= 13)%nat /\
    last (split_nl (log_label t')) = Some line.
Proof.
  intros Hname Hsize. unfold on_file_processed, line_of.
  destruct (truediv_pow2_small file_size Hsize) as [kb Hkb].
  cbn [fst snd]. rewrite Hkb. cbn [mbind option_bind].
  set (line := result_line filename success kb).
  assert (Hline : has_nl line = false) by (apply result_line_no_nl; exact Hname).
  destruct (_ || _).
  - eexists _, line. split; [reflexivity|]. split; [reflexivity|]. cbn [log_label].
    rewrite (split_nl_no_nl _ Hline). simpl. split; [lia | reflexivity].
  - eexists _, line. split; [reflexivity|]. split; [reflexivity|]. cbn [log_label].
    rewrite split_nl_app, (split_nl_no_nl _ Hline), length_app, last_snoc.
    split; [|reflexivity]. simpl.
    destruct (Nat.ltb_spec 12 (length (split_nl (log_label t)))) as [Hlt|Hle];
      [|lia].
    set (L := last_n 12 (split_nl (log_label t))).
    assert (HL : length L = 12%nat) by (unfold L; rewrite last_n_length; lia).
    assert (Hall : Forall (fun s => has_nl s = false) L).
    { apply last_n_subset. clear. generalize (log_label t). intros s.
      induction s as [|a s IH]; [repeat constructor|]. simpl.
      destruct (Ascii.eqb a nl) eqn:Ha; [constructor; [reflexivity | exact IH]|].
      destruct (split_nl s) as [|h tl]; [repeat constructor; simpl; rewrite Ha; reflexivity|].
      inversion IH; subst. constructor; [simpl; rewrite Ha; assumption | assumption]. }
    rewrite split_join_nl; [lia | | exact Hall].
    intros H0. rewrite H0 in HL. discriminate.
Qed.

(** ** The extension test and letter case *)

Lemma lower_ascii_sep a : Ascii.eqb (lower_ascii a) "/" = Ascii.eqb a "/".
Proof. destruct a as [[] [] [] [] [] [] [] []]; reflexivity. Qed.

Lemma lower_ascii_dot a : Ascii.eqb (lower_ascii a) "." = Ascii.eqb a ".".
Proof. destruct a as [[] [] [] [] [] [] [] []]; reflexivity. Qed.

Lemma lower_ascii_twice a : lower_ascii (lower_ascii a) = lower_ascii a.
Proof. destruct a as [[] [] [] [] [] [] [] []]; reflexivity. Qed.

Lemma lower_twice s : lower (lower s) = lower s.
Proof.
  induction s as [|a s IH]; [reflexivity|]. simpl.
  rewrite lower_ascii_twice, IH. reflexivity.
Qed.

Lemma lower_length s : String.length (lower s) = String.length s.
Proof. induction s as [|a s IH]; simpl; [reflexivity | rewrite IH; reflexivity]. Qed.

Lemma rfind_from_lower c s :
  (forall a, Ascii.eqb (lower_ascii a) c = Ascii.eqb a c) ->
  forall i, rfind_from c (lower s) i = rfind_from c s i.
Proof.
  intros Hc. induction s as [|a s IH]; intros i; [reflexivity|]. simpl.
  rewrite IH, Hc. reflexivity.
Qed.

Lemma substring_lower s : forall n m,
  String.substring n m (lower s) = lower (String.substring n m s).
Proof.
  induction s as [|a s IH]; intros [|n] [|m]; simpl; try reflexivity.
  - rewrite IH. reflexivity.
  - apply IH.
  - apply IH.
Qed.

Lemma all_dots_lower s : all_dots (lower s) = all_dots s.
Proof.
  induction s as [|a s IH]; [reflexivity|]. simpl.
  rewrite lower_ascii_dot, IH. reflexivity.
Qed.

Lemma splitext_lower p :
  splitext (lower p) = (lower (splitext p).1, lower (splitext p).2).
Proof.
  unfold splitext, rfind.
  rewrite !(rfind_from_lower "/" p lower_ascii_sep).
  rewrite !(rfind_from_lower "." p lower_ascii_dot).
  unfold slice, slice_from. rewrite !substring_lower, all_dots_lower, lower_length.
  destruct (_ && _); reflexivity.
Qed.

(** X10.  The extension test does not look at letter case: a path passes it
    exactly when the path written in lower case does. *)
Theorem extension_test_ignores_letter_case (file_path : string) :
  supported (lower file_path) = supported file_path.
Proof.
  unfold supported. rewrite splitext_lower. simpl. rewrite lower_twice.
  reflexivity.
Qed.

(** ** The output keeps the file name *)

Lemma substring_tail a s n m :
  String.substring (S n) m (String a s) = String.substring n m s.
Proof. reflexivity. Qed.

Lemma rfind_after_last c s :
  rfind c (slice_from (rfind c s + 1) s) = -1.
Proof.
  induction s as [|a s IH]; [reflexivity|].
  unfold rfind in *. cbn [rfind_from].
  rewrite (rfind_from_shift c s (0 + 1)) by lia.
  destruct (rfind_from_range c s 0 ltac:(lia)) as [Hj | Hj].
  - rewrite Hj. simpl (0 <=? -1). cbv iota.
    destruct (Ascii.eqb a c) eqn:Ha.
    + unfold slice_from. simpl. rewrite Nat.sub_0_r, substring_all. exact Hj.
    + unfold slice_from. simpl Z.to_nat. rewrite Nat.sub_0_r, substring_all.
      simpl. rewrite (rfind_from_shift c s (0 + 1)) by lia. rewrite Hj, Ha.
      reflexivity.
  - destruct (Z.leb_spec 0 (rfind_from c s 0)); [|lia].
    destruct (Z.leb_spec 0 (0 + 1 + rfind_from c s 0)); [|lia].
    unfold slice_from in *.
    replace (Z.to_nat (0 + 1 + rfind_from c s 0 + 1))
      with (S (Z.to_nat (rfind_from c s 0 + 1))) by lia.
    simpl String.length. rewrite Nat.sub_succ, substring_tail. exact IH.
Qed.

Lemma basename_bare p : rfind "/" (basename p) = -1.
Proof. apply rfind_after_last. Qed.

(** X9.  Whatever the schedule of [stop()], every row's output file has the
    base name of its source file. *)
Theorem output_keeps_the_source_base_name
    (P : PIL) (fuel : nat) (stops : nat -> bool) (paths : list string)
    (output_dir : string) (band : Z * Z) (running : bool) (o : world P)
    (e : ending P) (r : row) :
  Z.of_nat (length paths) < 2 ^ 53 ->
  run P fuel stops (Worker paths output_dir band running) o = Some e ->
  r ∈ results (state_of e) ->
  basename r.1.1.2 = basename r.1.1.1.
Proof.
  intros Hbound Hrun Hr. unfold run in Hrun. cbn [files] in Hrun.
  destruct (for_files P fuel stops 0 paths _) as [e'|] eqn:Hit; [|discriminate].
  apply for_files_shape in Hit; [| simpl; lia | exact Hbound].
  destruct Hit as (st' & rows & ps & -> & Hrows & _ & Hdir & _).
  injection Hrun as <-. simpl in Hr, Hrows, Hdir. rewrite Hrows in Hr.
  rewrite Forall_forall in Hdir. rewrite (Hdir r Hr).
  apply basename_join, basename_bare.
Qed.

Lemma output_base_name_run :
  let r := ("/in/sub/a.jpg", "/out/a.jpg", false, 0)%string in
  exists e,
    run (Synthetic.pil (Synthetic.flat 1500)) 1 (fun _ => false)
      (Worker ["/in/sub/a.jpg"]%string "/out" (1, 2) true)
      (Synthetic.one_photo (Synthetic.flat 1500) 640 480) = Some e /\
    r ∈ results (state_of e) /\
    basename r.1.1.2 = basename r.1.1.1.
Proof.
  intros r. eexists. split; [reflexivity|].
  assert (Hin : r ∈ [("/in/sub/a.jpg", "/out/a.jpg", false, 0)]%string) by left.
  split; [exact Hin|].
  eapply (output_keeps_the_source_base_name (Synthetic.pil (Synthetic.flat 1500))
            1 (fun _ => false) ["/in/sub/a.jpg"]%string "/out" (1, 2) true
            (Synthetic.one_photo (Synthetic.flat 1500) 640 480) _ r).
  - simpl. lia.
  - reflexivity.
  - exact Hin.
Defined.

(** *** Concrete runs of the further properties *)



Lemma returned_pair_run :
  exists w',
    resize_image (pil (flat 1500)) 1 "/in/a.jpg" "/out/a.jpg" (1, 2)
      (one_photo (flat 1500) 640 480) = Some ((true, 1500), w') /\
    ((true = false /\ 1500 = 0 /\
      fs w' !! "/out/a.jpg"%string
      = fs (one_photo (flat 1500) 640 480) !! "/out/a.jpg"%string) \/
     (exists d,
        fs w' !! "/out/a.jpg"%string = Some d /\
        1500 = Z.of_N (getsize (pil (flat 1500)) d) /\
        fs w' !! temp_of "/out/a.jpg" = None /\
        (true = false -> (1, 2).2 * 1024 < 1500))).
Proof.
  eexists. split; [reflexivity|].
  apply (returned_pair_describes_the_output_file (pil (flat 1500)) 1 "/in/a.jpg"
           "/out/a.jpg" (1, 2) (one_photo (flat 1500) 640 480)).
  - simpl. lia.
  - reflexivity.
Defined.

Lemma untouched_source_run :
  exists r w',
    resize_image (pil (flat 1500)) 1 "/in/a.jpg" "/out/a.jpg" (1, 2)
      (one_photo (flat 1500) 640 480) = Some (r, w') /\
    fs w' !! "/in/a.jpg"%string
    = fs (one_photo (flat 1500) 640 480) !! "/in/a.jpg"%string.
Proof.
  eexists _, _. split; [reflexivity|].
  apply (resize_image_touches_only_output_and_temp (pil (flat 1500)) 1
           "/in/a.jpg" "/out/a.jpg" (1, 2) (one_photo (flat 1500) 640 480)
           (true, 1500)).
  - reflexivity.
  - discriminate.
  - discriminate.
Defined.

Lemma quality_floor_run :
  exists r w' l,
    resize_image (pil by_area) 28 "/in/a.jpg" "/out/a.jpg" (0, 0)
      (one_photo by_area 11 11) = Some (r, w') /\
    calls w' = calls (one_photo by_area 11 11) ++ call_open "/in/a.jpg" :: l /\
    floor_before_resize l.
Proof.
  assert (H : exists r w',
             resize_image (pil by_area) 28 "/in/a.jpg" "/out/a.jpg" (0, 0)
               (one_photo by_area 11 11) = Some (r, w')).
  { eexists _, _. vm_compute. reflexivity. }
  destruct H as (r & w' & H).
  destruct (quality_floor_before_any_resize (pil by_area) 28 "/in/a.jpg"
              "/out/a.jpg" (0, 0) (one_photo by_area 11 11) r w' H)
    as (l & Hl & Hfloor).
  exists r, w', l. auto.
Defined.

Lemma run_never_dies_run :
  exists e,
    run (pil (flat 1500)) 1 (Nat.eqb 1)
      (Worker ["/in/a.jpg"; "/in/c.png"]%string "/out" (1, 2) true)
      (photo_and_junk (flat 1500)) = Some e /\
    exists st, e = Finished st.
Proof.
  eexists. split; [reflexivity|].
  apply (run_never_dies_computing_progress (pil (flat 1500)) 1 (Nat.eqb 1)
           ["/in/a.jpg"; "/in/c.png"]%string "/out" (1, 2) true
           (photo_and_junk (flat 1500))).
  - simpl. lia.
  - reflexivity.
Defined.

Lemma stopped_run_reports_a_prefix :
  exists st ps,
    run (pil (flat 1500)) 1 (Nat.eqb 1)
      (Worker ["/in/a.jpg"; "/in/b.txt"; "/in/c.png"]%string "/out" (1, 2) true)
      (photo_and_junk (flat 1500)) = Some (Finished st) /\
    (fun r : row => r.1.1.1) <$> results st
      `prefix_of` ["/in/a.jpg"; "/in/c.png"]%string /\
    Forall (row_in_dir "/out") (results st) /\
    length ps = length (results st) /\
    emitted st = concat (zip_with signals_of ps (results st))
                 ++ [resize_completed (results st)].
Proof.
  destruct (run_reports_a_prefix_of_the_image_files (pil (flat 1500)) 1
              (Nat.eqb 1) ["/in/a.jpg"; "/in/b.txt"; "/in/c.png"]%string "/out"
              (1, 2) true (photo_and_junk (flat 1500)) _
              ltac:(simpl; lia) eq_refl)
    as (st & ps & Hst & Hpre & Hdir & Hlen & Hem & _).
  exists st, ps. split; [rewrite <- Hst; reflexivity|]. auto.
Defined.

Lemma run_leaves_sources_run :
  exists e,
    run (pil (flat 1500)) 1 (fun _ => false)
      (Worker ["/in/a.jpg"; "/in/c.png"]%string "/out" (1, 2) true)
      (photo_and_junk (flat 1500)) = Some e /\
    fs (outside (state_of e)) !! "/in/a.jpg"%string
    = fs (photo_and_junk (flat 1500)) !! "/in/a.jpg"%string.
Proof.
  eexists. split; [reflexivity|].
  apply (run_touches_only_outputs_and_temps (pil (flat 1500)) 1 (fun _ => false)
           ["/in/a.jpg"; "/in/c.png"]%string "/out" (1, 2) true
           (photo_and_junk (flat 1500))).
  - intros f Hin _.
    apply elem_of_cons in Hin as [-> | Hin];
      [split; discriminate|].
    apply elem_of_cons in Hin as [-> | Hin];
      [split; discriminate|].
    inversion Hin.
  - reflexivity.
Defined.

Lemma same_base_name_run :
  let o : world (pil (flat 1500)) :=
    World (<["/in/a.jpg"%string := photo 640 480]>
             (<["/in/sub/a.jpg"%string := photo 11 11]> ∅)) [] in
  exists st,
    run (pil (flat 1500)) 1 (fun _ => false)
      (Worker ["/in/a.jpg"; "/in/sub/a.jpg"]%string "/out" (1, 2) true) o
    = Some (Finished st) /\
    results st = [("/in/a.jpg", "/out/a.jpg", true, 1500);
                  ("/in/sub/a.jpg", "/out/a.jpg", true, 1500)]%string /\
    fs (outside st) !! "/out/a.jpg"%string = Some (Some (11, 11, 90)).
Proof.
  intros o.
  apply (same_base_name_overwrites_the_first_output (pil (flat 1500)) 0
           "/in/a.jpg" "/in/sub/a.jpg" "/out" (1, 2) o (640, 480) (11, 11)
           (Some (640, 480, 90)) (Some (11, 11, 90)));
    try reflexivity; try discriminate; simpl; lia.
Defined.

Lemma folder_run :
  let walk := [("/in", ["a.jpg"; "notes.txt"]); ("/in/sub", ["c.PNG"])]%string in
  exists st,
    run (pil (flat 1500)) 1 (fun _ => false)
      (Worker ["/in/a.jpg"; "/in/sub/c.PNG"]%string "/out" (1, 2) true)
      (one_photo (flat 1500) 640 480) = Some (Finished st) /\
    (fun r : row => r.1.1.1) <$> results st
    = ["/in/a.jpg"; "/in/sub/c.PNG"]%string /\
    last (progress_values (emitted st)) = Some 100 /\
    FolderTab.status_label
      (FolderTab.on_resize_completed (1, 2) (results st)
         (FolderTab.Tab "Resizing 2 images..." 0 "Processing images...")).1
    = "Completed: " +:+ pretty (FolderTab.success_count (results st))
      +:+ "/2 images successfully resized".
Proof.
  intros walk.
  destruct (folder_mode_resizes_every_collected_file (pil (flat 1500)) 1
              (fun _ => false) (1, 2) "/in" walk "/out"
              (FolderTab.Tab "Select a folder containing images to resize" 0
                 "Results will appear here")
              (FolderTab.Tab "Resizing 2 images..." 0 "Processing images...")
              [] (Worker ["/in/a.jpg"; "/in/sub/c.PNG"]%string "/out" (1, 2) true)
              (one_photo (flat 1500) 640 480) _
              ltac:(apply bare_names_Forall; repeat constructor)
              ltac:(simpl; lia) ltac:(reflexivity) eq_refl eq_refl)
    as (st & Hst & _ & Hrows & _ & Hlast & _ & _ & Hdone).
  exists st. split; [rewrite <- Hst; reflexivity|]. split; [exact Hrows|].
  split; [exact Hlast|]. exact Hdone.
Defined.

Lemma folder_flattens_run :
  let walk := [("/in", ["a.jpg"; "notes.txt"]); ("/in/sub", ["c.PNG"])]%string in
  exists e,
    run (pil (flat 1500)) 1 (fun _ => false)
      (Worker ["/in/a.jpg"; "/in/sub/c.PNG"]%string "/out" (1, 2) true)
      (one_photo (flat 1500) 640 480) = Some e /\
    ("/in/sub/c.PNG", "/out/c.PNG", false, 0)%string ∈ results (state_of e) /\
    exists root names file,
      (root, names) ∈ walk /\ file ∈ names /\
      "/in/sub/c.PNG"%string = PosixPath.join root file /\
      "/out/c.PNG"%string = PosixPath.join "/out" file.
Proof.
  intros walk. eexists. split; [reflexivity|].
  assert (Hin : ("/in/sub/c.PNG", "/out/c.PNG", false, 0)%string
                ∈ [("/in/a.jpg", "/out/a.jpg", true, 1500);
                   ("/in/sub/c.PNG", "/out/c.PNG", false, 0)]%string)
    by (right; left).
  split; [exact Hin|].
  eapply (folder_mode_writes_every_file_directly_under_output_dir
           (pil (flat 1500)) 1 (fun _ => false) (1, 2) "/in" walk "/out"
           (FolderTab.Tab "Select a folder containing images to resize" 0
                 "Results will appear here")
           (FolderTab.Tab "Resizing 2 images..." 0 "Processing images...")
           [] (Worker ["/in/a.jpg"; "/in/sub/c.PNG"]%string "/out" (1, 2) true)
           (one_photo (flat 1500) 640 480) _
           ("/in/sub/c.PNG", "/out/c.PNG", false, 0)%string).
  - apply bare_names_Forall. repeat constructor.
  - simpl. lia.
  - reflexivity.
  - reflexivity.
  - exact Hin.
Defined.

Lemma single_mode_run :
  exists e,
    run (pil (flat 1500)) 1 (fun _ => false)
      (Worker ["/in/a.jpg"]%string "/out" (1, 2) true)
      (one_photo (flat 1500) 640 480) = Some e /\
    ("/in/a.jpg", "/out/a.jpg", true, 1500)%string ∈ results (state_of e) /\
    "/in/a.jpg"%string = "/in/a.jpg"%string /\
    "/out/a.jpg"%string
    = PosixPath.join (PosixPath.dirname "/out/small.jpg")
        (PosixPath.basename "/in/a.jpg").
Proof.
  eexists. split; [reflexivity|].
  assert (Hin : ("/in/a.jpg", "/out/a.jpg", true, 1500)%string
                ∈ [("/in/a.jpg", "/out/a.jpg", true, 1500)]%string) by left.
  split; [exact Hin|].
  eapply (single_mode_keeps_the_source_file_name (pil (flat 1500)) 1
           (fun _ => false) (1, 2) "/in/a.jpg" "/out/small.jpg" true
           (SingleImageTab.Tab "Select an image to resize" None 0 EmptyString)
           (SingleImageTab.Tab "Resizing a.jpg..." (Some "/in/a.jpg"%string) 0
              EmptyString)
           (Worker ["/in/a.jpg"]%string "/out" (1, 2) true)
           (one_photo (flat 1500) 640 480) _
           ("/in/a.jpg", "/out/a.jpg", true, 1500)%string).
  - reflexivity.
  - reflexivity.
  - exact Hin.
Defined.

Lemma single_mode_same_folder_run :
  let r := ("/in/a.jpg", "/in/a.jpg", true, 1500)%string in
  exists e,
    run (pil (flat 1500)) 1 (fun _ => false)
      (Worker ["/in/a.jpg"]%string "/in" (1, 2) true)
      (one_photo (flat 1500) 640 480) = Some e /\
    r ∈ results (state_of e) /\
    PosixPath.dirname "/in/small.jpg" = PosixPath.dirname "/in/a.jpg" /\
    r.1.1.1 = "/in/a.jpg"%string /\ r.1.1.2 = "/in/a.jpg"%string.
Proof.
  intros r. eexists. split; [reflexivity|].
  assert (Hin : r ∈ [("/in/a.jpg", "/in/a.jpg", true, 1500)]%string) by left.
  split; [exact Hin|]. split; [reflexivity|].
  eapply (single_mode_in_the_same_folder_writes_over_the_source
            (pil (flat 1500)) 1 (fun _ => false) (1, 2) "/in" "a.jpg"
            "/in/small.jpg" true
            (SingleImageTab.Tab "Select an image to resize" None 0 EmptyString)
            (SingleImageTab.Tab "Resizing a.jpg..." (Some "/in/a.jpg"%string) 0
              EmptyString)
            (Worker ["/in/a.jpg"]%string "/in" (1, 2) true)
            (one_photo (flat 1500) 640 480) _ r).
  - reflexivity.
  - reflexivity.
  - reflexivity.
  - reflexivity.
  - reflexivity.
  - exact Hin.
Defined.

Lemma log_run :
  let t := FolderTab.Tab "Resizing 2 images..." 0 "Processing images..." in
  exists t',
    FolderTab.deliver [("a.jpg", true, 1536); ("c.PNG", false, 0)]%string t
    = Some t' /\
    FolderTab.log_label t'
    = ("a.jpg: Success (1.5KB)" +:+ String PyStr.nl
       "c.PNG: Warning: Target size not achieved (0.0KB)")%string /\
    length (PyStr.split_nl (FolderTab.log_label t')) = 2%nat.
Proof.
  intros t.
  destruct (log_shows_the_last_13_results
              [("a.jpg", true, 1536); ("c.PNG", false, 0)]%string t)
    as (t' & lines & Hd & Hlines & Hlog & _ & Hlen).
  - left. reflexivity.
  - repeat constructor; simpl; lia.
  - discriminate.
  - exists t'. split; [exact Hd|]. split; [|exact Hlen].
    rewrite Hlog.
    inversion Hlines as [|? l1 ? ls1 H1 Hrest]; subst.
    inversion Hrest as [|? l2 ? ls2 H2 Hnil]; subst.
    inversion Hnil; subst.
    vm_compute in H1. vm_compute in H2.
    injection H1 as <-. injection H2 as <-. reflexivity.
Defined.

Lemma log_line_run :
  let t := FolderTab.Tab "Resizing 2 images..." 0 "one" in
  exists t' line,
    FolderTab.on_file_processed "a.jpg" true 1536 t = Some t' /\
    FolderTab.line_of ("a.jpg", true, 1536)%string = Some line /\
    (length (PyStr.split_nl (FolderTab.log_label t')) <= 13)%nat /\
    last (PyStr.split_nl (FolderTab.log_label t')) = Some line.
Proof.
  intros t.
  apply (log_has_at_most_13_lines_after_each_result "a.jpg" true 1536 t).
  - reflexivity.
  - lia.
Defined.

(** ** The two sliders of the main window *)

Import ImageResizerApp.

Lemma update_target_size_result fuel a :
  minimum (min_size_slider a) = 50 -> maximum (min_size_slider a) = 900 ->
  minimum (max_size_slider a) = 100 -> maximum (max_size_slider a) = 2048 ->
  50 <= value (min_size_slider a) <= 900 ->
  100 <= value (max_size_slider a) <= 2048 ->
  let lo := value (min_size_slider a) in
  let hi := value (max_size_slider a) in
  update_target_size (S (S fuel)) a =
  Some (if hi <=? lo
        then App (Slider 50 900 (Z.max 50 (hi - 100))) (max_size_slider a)
                 (kb_text (hi - 100)) (kb_text hi) (hi - 100, hi)
        else App (min_size_slider a) (max_size_slider a)
                 (kb_text lo) (kb_text hi) (lo, hi)).
Proof.
  intros Hmin Hmax Hmin' Hmax' Hlo Hhi lo hi. subst lo hi.
  destruct a as [[mn mx lov] [mn' mx' hiv] l1 l2 t]. simpl in *. subst.
  destruct (Z.leb_spec hiv lov) as [Hle|Hlt]; [|reflexivity].
  unfold setValue. cbn [minimum maximum value].
  replace (Z.max 50 (Z.min 900 (hiv - 100))) with (Z.max 50 (hiv - 100)) by lia.
  destruct (Z.eqb_spec (Z.max 50 (hiv - 100)) lov) as [Heq|Hne]; cbn [negb].
  - simpl. unfold show_and_store. simpl. rewrite Heq. reflexivity.
  - cbn [update_target_size min_size_slider max_size_slider value].
    destruct (Z.leb_spec hiv (Z.max 50 (hiv - 100))); [lia|].
    reflexivity.
Qed.

Lemma consistent_after_update fuel a a' :
  minimum (min_size_slider a) = 50 -> maximum (min_size_slider a) = 900 ->
  minimum (max_size_slider a) = 100 -> maximum (max_size_slider a) = 2048 ->
  50 <= value (min_size_slider a) <= 900 ->
  100 <= value (max_size_slider a) <= 2048 ->
  update_target_size fuel a = Some a' -> consistent a'.
Proof.
  intros Hmin Hmax Hmin' Hmax' Hlo Hhi Hup.
  destruct a as [[mn mx lov] [mn' mx' hiv] l1 l2 t]. simpl in *. subst.
  destruct fuel as [|fuel]; [discriminate|]. simpl in Hup.
  destruct (Z.leb_spec hiv lov) as [Hle|Hlt].
  - assert (Hin : Z.max 50 (Z.min 900 (hiv - 100)) = Z.max 50 (hiv - 100)) by lia.
    rewrite Hin in Hup.
    destruct (Z.eqb_spec (Z.max 50 (hiv - 100)) lov) as [Heq|Hne];
      cbn [negb] in Hup.
    + simpl in Hup. injection Hup as <-. unfold consistent. simpl.
      repeat split; try lia.
    + destruct fuel as [|fuel]; [discriminate|]. simpl in Hup.
      destruct (Z.leb_spec hiv (Z.max 50 (hiv - 100))); [lia|].
      simpl in Hup. injection Hup as <-. unfold consistent. simpl.
      repeat split; lia.
  - injection Hup as <-. unfold consistent. simpl. repeat split; lia.
Qed.

Lemma reachable_consistent a : reachable a -> consistent a.
Proof.
  induction 1 as [|fuel v a a' _ IH Hmove|fuel v a a' _ IH Hmove].
  - unfold consistent. simpl. repeat split; lia.
  - destruct IH as ((H1 & H2 & H3 & H4) & (Hlo & Hhi) & Ht & Hcase & Hl1 & Hl2).
    unfold move_min_slider, setValue in Hmove. rewrite H1, H2 in Hmove.
    destruct (negb _) eqn:Hch.
    + eapply consistent_after_update; [.. | exact Hmove]; simpl; auto; lia.
    + injection Hmove as <-. apply negb_false_iff, Z.eqb_eq in Hch.
      unfold consistent. simpl. rewrite Hch. repeat split; auto; lia.
  - destruct IH as ((H1 & H2 & H3 & H4) & (Hlo & Hhi) & Ht & Hcase & Hl1 & Hl2).
    unfold move_max_slider, setValue in Hmove. rewrite H3, H4 in Hmove.
    destruct (negb _) eqn:Hch.
    + eapply consistent_after_update; [.. | exact Hmove]; simpl; auto; lia.
    + injection Hmove as <-. apply negb_false_iff, Z.eqb_eq in Hch.
      unfold consistent. simpl. rewrite Hch. repeat split; auto; lia.
Qed.

(** X17.  However the user moves the two sliders, the band handed to the
    workers has [0 <= min < max <= 2048], its maximum is the right slider's
    value, and the two labels show the band. *)
Theorem band_is_never_empty_or_inverted (a : app) :
  reachable a ->
  0 <= (target_size_kb a).1 < (target_size_kb a).2 /\
  (target_size_kb a).2 = value (max_size_slider a) /\
  (target_size_kb a).2 <= 2048 /\
  min_size_label a = kb_text (target_size_kb a).1 /\
  max_size_label a = kb_text (target_size_kb a).2.
Proof.
  intros Hr. apply reachable_consistent in Hr.
  destruct Hr as (_ & (Hlo & Hhi) & Ht & Hcase & Hl1 & Hl2).
  repeat split; auto; lia.
Qed.

(** X18.  A slider move is handled with one nested call at most: two levels
    are always enough for [update_target_size] to return. *)
Theorem slider_moves_are_handled_within_two_calls (a : app) (v : Z) (fuel : nat) :
  reachable a ->
  is_Some (move_min_slider (S (S fuel)) v a) /\
  is_Some (move_max_slider (S (S fuel)) v a).
Proof.
  intros Hr. apply reachable_consistent in Hr.
  destruct Hr as ((H1 & H2 & H3 & H4) & (Hlo & Hhi) & _).
  unfold move_min_slider, move_max_slider, setValue. split.
  - destruct (negb _); [|eauto].
    rewrite update_target_size_result; simpl; eauto; lia.
  - destruct (negb _); [|eauto].
    rewrite update_target_size_result; simpl; eauto; lia.
Qed.

(** X19.  When the right slider is below 150 and the left one is not below
    it, the stored minimum is [max - 100], under the left slider's lower end
    of 50: the slider is put at 50 while the band and the label say less. *)
Theorem low_maximum_leaves_slider_and_band_apart (a : app) (fuel : nat) :
  minimum (min_size_slider a) = 50 -> maximum (min_size_slider a) = 900 ->
  minimum (max_size_slider a) = 100 -> maximum (max_size_slider a) = 2048 ->
  50 <= value (min_size_slider a) <= 900 ->
  100 <= value (max_size_slider a) < 150 ->
  value (max_size_slider a) <= value (min_size_slider a) ->
  exists a',
    update_target_size (S (S fuel)) a = Some a' /\
    value (min_size_slider a') = 50 /\
    (target_size_kb a').1 = value (max_size_slider a) - 100 /\
    (target_size_kb a').1 < 50 /\
    min_size_label a' = kb_text (value (max_size_slider a) - 100).
Proof.
  intros Hmin Hmax Hmin' Hmax' Hlo Hhi Hle.
  rewrite update_target_size_result by (auto; lia).
  destruct (Z.leb_spec (value (max_size_slider a)) (value (min_size_slider a)));
    [|lia].
  eexists. split; [reflexivity|]. simpl. repeat split; lia.
Qed.

Lemma band_after_low_maximum :
  let a := ImageResizerApp.App (ImageResizerApp.Slider 50 900 50)
             (ImageResizerApp.Slider 100 2048 100) "0KB" "100KB" (0, 100) in
  0 <= (ImageResizerApp.target_size_kb a).1 < (ImageResizerApp.target_size_kb a).2 /\
  (ImageResizerApp.target_size_kb a).2
  = ImageResizerApp.value (ImageResizerApp.max_size_slider a) /\
  (ImageResizerApp.target_size_kb a).2 <= 2048 /\
  ImageResizerApp.min_size_label a
  = ImageResizerApp.kb_text (ImageResizerApp.target_size_kb a).1 /\
  ImageResizerApp.max_size_label a
  = ImageResizerApp.kb_text (ImageResizerApp.target_size_kb a).2.
Proof.
  intros a. apply (band_is_never_empty_or_inverted a).
  apply (ImageResizerApp.reachable_max 2 100 ImageResizerApp.initial a).
  - apply ImageResizerApp.reachable_initial.
  - reflexivity.
Defined.

Lemma slider_moves_run :
  is_Some (ImageResizerApp.move_min_slider 2 2000 ImageResizerApp.initial) /\
  is_Some (ImageResizerApp.move_max_slider 2 60 ImageResizerApp.initial).
Proof.
  split.
  - apply (slider_moves_are_handled_within_two_calls ImageResizerApp.initial
             2000 0 ImageResizerApp.reachable_initial).
  - apply (slider_moves_are_handled_within_two_calls ImageResizerApp.initial
             60 0 ImageResizerApp.reachable_initial).
Defined.

Lemma low_maximum_run :
  let a := ImageResizerApp.App (ImageResizerApp.Slider 50 900 100)
             (ImageResizerApp.Slider 100 2048 100) "100KB" "1024KB" (100, 1024) in
  exists a',
    ImageResizerApp.update_target_size 2 a = Some a' /\
    ImageResizerApp.value (ImageResizerApp.min_size_slider a') = 50 /\
    (ImageResizerApp.target_size_kb a').1 = 0 /\
    ImageResizerApp.min_size_label a' = "0KB"%string.
Proof.
  intros a.
  destruct (low_maximum_leaves_slider_and_band_apart a 0)
    as (a' & Hup & Hv & Ht & _ & Hl); try reflexivity; try (simpl; lia).
  exists a'. split; [exact Hup|]. split; [exact Hv|]. split; [exact Ht|].
  exact Hl.
Defined.
